(** * rippa: the disc ripping and transcoding loops of [rippa.py]

    A shallow embedding of [rippa.py] and proofs about it.  Python strings
    are [string] (ASCII text), Python integers are [Z], dictionaries are
    [gmap string _], and every function that touches the operating system
    is a computation in the monad [M] over an explicit [World].  The
    output of a command is [bytes], a [string] as well; what
    [bytes.decode] makes of it is kept in its UTF-8 encoding, which for
    ASCII text is the text itself.

    Log records keep the level and the words of the program.  A value
    that the program formats into a message (an exception, a list, a
    dictionary, a line under [%r]) is written in a short form, without
    the quoting of [repr]; no statement below depends on that part of
    a message. *)

From Stdlib Require Import ZArith Ascii HexString DecimalString.
From stdpp Require Import base tactics option list strings gmap.

Open Scope Z_scope.

(** ** Python strings *)

Module PyStr.

Definition is_digit (c : ascii) : bool :=
  (48 <=? N_of_ascii c)%N && (N_of_ascii c <=? 57)%N.

Definition is_alpha (c : ascii) : bool :=
  ((65 <=? N_of_ascii c)%N && (N_of_ascii c <=? 90)%N)
  || ((97 <=? N_of_ascii c)%N && (N_of_ascii c <=? 122)%N).

(** [\w] of [re], on ASCII text. *)
Definition is_word (c : ascii) : bool :=
  is_digit c || is_alpha c || (N_of_ascii c =? 95)%N.

(** [str.isspace] on ASCII text: tab to carriage return, the four
    separators 0x1c to 0x1f, and the space. *)
Definition is_space (c : ascii) : bool :=
  ((9 <=? N_of_ascii c)%N && (N_of_ascii c <=? 13)%N)
  || ((28 <=? N_of_ascii c)%N && (N_of_ascii c <=? 31)%N)
  || (N_of_ascii c =? 32)%N.

(** The whitespace of [bytes.strip]. *)
Definition is_bytes_space (c : ascii) : bool :=
  ((9 <=? N_of_ascii c)%N && (N_of_ascii c <=? 13)%N)
  || (N_of_ascii c =? 32)%N.

(** Whether [bytes.decode("utf-8")] accepts the bytes [s]: [need]
    continuation bytes are still due, the next of them between [lo]
    and [hi].  The bounds after the lead bytes 0xE0, 0xED, 0xF0 and
    0xF4 leave out the overlong forms, the surrogates and what lies
    beyond U+10FFFF. *)
Fixpoint utf8_go (need : nat) (lo hi : N) (s : string) : bool :=
  match s with
  | "" => match need with O => true | S _ => false end
  | String c s' =>
      let b := N_of_ascii c in
      match need with
      | S k => (lo <=? b)%N && (b <=? hi)%N && utf8_go k 128 191 s'
      | O =>
          if (b <=? 127)%N then utf8_go 0 128 191 s'
          else if (194 <=? b)%N && (b <=? 223)%N then utf8_go 1 128 191 s'
          else if (b =? 224)%N then utf8_go 2 160 191 s'
          else if (b =? 237)%N then utf8_go 2 128 159 s'
          else if (225 <=? b)%N && (b <=? 239)%N then utf8_go 2 128 191 s'
          else if (b =? 240)%N then utf8_go 3 144 191 s'
          else if (241 <=? b)%N && (b <=? 243)%N then utf8_go 3 128 191 s'
          else if (b =? 244)%N then utf8_go 3 128 143 s'
          else false
      end
  end.

Definition utf8_valid (s : string) : bool := utf8_go 0 128 191 s.

Fixpoint drop_while (f : ascii → bool) (s : string) : string :=
  match s with
  | "" => ""
  | String c s' => if f c then drop_while f s' else s
  end.

Fixpoint take_while (f : ascii → bool) (s : string) : string :=
  match s with
  | "" => ""
  | String c s' => if f c then String c (take_while f s') else ""
  end.

Definition strip_with (f : ascii → bool) (s : string) : string :=
  String.rev (drop_while f (String.rev (drop_while f s))).

(** [s[n:]] for [0 <= n]. *)
Fixpoint sdrop (n : nat) (s : string) : string :=
  match n, s with
  | O, _ => s
  | S n', String _ s' => sdrop n' s'
  | S _, "" => ""
  end.

Definition startswith (s p : string) : bool := String.prefix p s.

Definition endswith (s p : string) : bool :=
  String.prefix (String.rev p) (String.rev s).

(** [s.split(sep)] for a non-empty separator: [skip] counts the
    characters of a separator still to be passed over, [cur] is the
    current piece, reversed. *)
Fixpoint split_go (sep : string) (skip : nat) (cur : string) (s : string)
  : list string :=
  match s with
  | "" => [String.rev cur]
  | String c s' =>
      match skip with
      | S k => split_go sep k cur s'
      | O =>
          if String.prefix sep s
          then String.rev cur :: split_go sep (String.length sep - 1) "" s'
          else split_go sep O (String c cur) s'
      end
  end.

Definition split (sep s : string) : list string := split_go sep O "" s.

(** [s.split()]: the maximal runs of characters that are not white space. *)
Fixpoint split_ws_go (cur : option string) (s : string) : list string :=
  match s with
  | "" => option_list (String.rev <$> cur)
  | String c s' =>
      if is_space c
      then option_list (String.rev <$> cur) ++ split_ws_go None s'
      else split_ws_go (Some (String c (default "" cur))) s'
  end.

Definition split_ws (s : string) : list string := split_ws_go None s.

Fixpoint join (sep : string) (l : list string) : string :=
  match l with
  | [] => ""
  | [x] => x
  | x :: l' => x +:+ sep +:+ join sep l'
  end.

(** Decimal digits with single underscores between digits, as [int]
    accepts them; [acc] is the value read so far, [prev] tells whether
    the previous character was a digit. *)
Fixpoint digits_go (acc : Z) (prev : bool) (s : string) : option Z :=
  match s with
  | "" => if prev then Some acc else None
  | String c s' =>
      if is_digit c
      then digits_go (10 * acc + (Z.of_N (N_of_ascii c) - 48)) true s'
      else if (N_of_ascii c =? 95)%N && prev
           then digits_go acc false s'
           else None
  end.

(** [int(s)] in base ten; [None] is [ValueError]. *)
Definition int (s : string) : option Z :=
  match strip_with is_space s with
  | String "-"%char s' => Z.opp <$> digits_go 0 false s'
  | String "+"%char s' => digits_go 0 false s'
  | s' => digits_go 0 false s'
  end.

(** [hex(n)] and [str(n)]. *)
Definition hex (n : Z) : string := HexString.of_Z n.
Definition str_Z (n : Z) : string := NilZero.string_of_int (Z.to_int n).

(** The line feed, the double quote and the separators of the code. *)
Definition LF : string := String "010"%char "".
Definition dquote : ascii := "034"%char.

(** [re.search] for one or more digits: the first maximal run of
    digits; [None] when [re.search] finds nothing. *)
Fixpoint search_digits (s : string) : option string :=
  match s with
  | "" => None
  | String c s' =>
      if is_digit c then Some (take_while is_digit s) else search_digits s'
  end.

(** One attempt, at the head of [s], of the pattern of
    [parse_blkid_params]: a run of word characters, an equals sign, a
    double quote, a run of characters other than the double quote, a
    double quote.  It gives the two groups and the length of the match.
    Both runs are greedy and what follows each cannot be matched by
    it, so no other split of the text matches. *)
Definition match_param (s : string) : option (string * string * nat) :=
  let key := take_while is_word s in
  let rest := sdrop (String.length key) s in
  match key, rest with
  | String _ _, String "="%char (String q rest') =>
      if Ascii.eqb q dquote then
        let value := take_while (λ c, negb (Ascii.eqb c dquote)) rest' in
        match value, sdrop (String.length value) rest' with
        | String _ _, String q' _ =>
            if Ascii.eqb q' dquote
            then Some (key, value, (String.length key + String.length value + 3)%nat)
            else None
        | _, _ => None
        end
      else None
  | _, _ => None
  end.

(** [re.finditer] for that pattern: the matches from left to right,
    the search resuming where the previous match ended. *)
Fixpoint finditer_params (skip : nat) (s : string) : list (string * string) :=
  match s with
  | "" => []
  | String _ s' =>
      match skip with
      | S k => finditer_params k s'
      | O =>
          match match_param s with
          | Some (key, value, len) => (key, value) :: finditer_params (len - 1) s'
          | None => finditer_params O s'
          end
      end
  end.

(** [os.path.basename] and the root of [os.path.splitext]. *)
Definition basename (p : string) : string :=
  default "" (last (split "/" p)).

Fixpoint last_dot (s : string) (i : nat) (seen : option nat) : option nat :=
  match s with
  | "" => seen
  | String c s' =>
      last_dot s' (S i) (if Ascii.eqb c "."%char then Some i else seen)
  end.

Fixpoint stake (n : nat) (s : string) : string :=
  match n, s with
  | S n', String c s' => String c (stake n' s')
  | _, _ => ""
  end.

Definition splitext_root (name : string) : string :=
  match last_dot name O None with
  | Some i =>
      match drop_while (λ c, Ascii.eqb c "."%char) (stake i name) with
      | "" => name
      | _ => stake i name
      end
  | None => name
  end.

(** [l[start:stop]] with Python's reading of negative and
    out-of-range bounds. *)
Definition slice_index (len i : Z) : nat :=
  Z.to_nat (Z.min len (if i <? 0 then Z.max 0 (len + i) else i)).

Definition slice {A} (start stop : Z) (l : list A) : list A :=
  let len := Z.of_nat (length l) in
  let a := slice_index len start in
  let b := slice_index len stop in
  take (b - a)%nat (drop a l).

End PyStr.


(** ** Exceptions

    The exception classes the program raises, catches or lets through.
    [ExceptionExit] is [Exception(exitcode)] of [execute], [ExceptionMsg]
    the [Exception] with a message of [_wait_for_file_stable]. *)

Inductive oserror :=
  | FileNotFoundError | FileExistsError | NotADirectoryError
  | IsADirectoryError | ENOTEMPTY | EINVAL.

Inductive exn :=
  | TypeError
  | KeyError (key : string)
  | IndexError
  | ValueError
  | AttributeError
  | NotImplementedError
  | CalledProcessError (code : Z)
  | ExceptionExit (code : Z)
  | ExceptionMsg (msg : string)
  | OSError (kind : oserror)
  | ShutilError
  | UnicodeDecodeError.

(** The three classes named in [except] clauses.  Every class above
    derives from [Exception]; [shutil.Error] derives from [OSError],
    [UnicodeDecodeError] from [ValueError]. *)
Definition is_Exception (e : exn) : bool := true.

Definition is_CalledProcessError (e : exn) : bool :=
  match e with CalledProcessError _ => true | _ => false end.

Definition is_OSError (e : exn) : bool :=
  match e with OSError _ | ShutilError => true | _ => false end.

Inductive result (A : Type) :=
  | Ok (a : A)
  | Raise (e : exn).
Arguments Ok {A} a.
Arguments Raise {A} e.

#[global] Instance result_ret : MRet result := λ A a, Ok a.
#[global] Instance result_bind : MBind result := λ A B k r,
  match r with Ok a => k a | Raise e => Raise e end.

(** ** The file system

    A tree of directories and files; a directory keeps its entries in
    the order [os.listdir] reports them. *)

#[warnings="-register-all"]
Inductive node :=
  | File (size : Z)
  | Dir (entries : list (string * node)).

Module FS.

Fixpoint get (name : string) (es : list (string * node)) : option node :=
  match es with
  | [] => None
  | (k, n) :: es' => if String.eqb k name then Some n else get name es'
  end.

Fixpoint set (name : string) (n : node) (es : list (string * node))
  : list (string * node) :=
  match es with
  | [] => [(name, n)]
  | (k, m) :: es' =>
      if String.eqb k name then (k, n) :: es' else (k, m) :: set name n es'
  end.

Fixpoint del (name : string) (es : list (string * node))
  : list (string * node) :=
  match es with
  | [] => []
  | (k, m) :: es' =>
      if String.eqb k name then es' else (k, m) :: del name es'
  end.

Fixpoint lookup (path : list string) (n : node) : option node :=
  match path with
  | [] => Some n
  | c :: rest =>
      match n with
      | Dir es =>
          match get c es with
          | Some m => lookup rest m
          | None => None
          end
      | File _ => None
      end
  end.

(** Bind the last component of [path] to [new]; the directory that
    holds it must exist. *)
Fixpoint put (path : list string) (new : node) (n : node) : option node :=
  match path with
  | [] => Some new
  | c :: rest =>
      match n with
      | Dir es =>
          match rest, get c es with
          | [], _ => Some (Dir (set c new es))
          | _, Some m =>
              match put rest new m with
              | Some m' => Some (Dir (set c m' es))
              | None => None
              end
          | _, None => None
          end
      | File _ => None
      end
  end.

(** Unbind the last component of [path], with all below it. *)
Fixpoint remove (path : list string) (n : node) : node :=
  match path with
  | [] => n
  | c :: rest =>
      match n with
      | Dir es =>
          match rest, get c es with
          | [], _ => Dir (del c es)
          | _, Some m => Dir (set c (remove rest m) es)
          | _, None => n
          end
      | File _ => n
      end
  end.

(** [os.makedirs(path, exist_ok=True)]: missing directories are
    created along the path; a file in the way is an error, and then
    nothing was created, for all before it existed. *)
Fixpoint mkdirs (path : list string) (n : node) : result node :=
  match n with
  | File _ =>
      Raise (OSError match path with
                     | [] => FileExistsError
                     | _ => NotADirectoryError
                     end)
  | Dir es =>
      match path with
      | [] => Ok n
      | c :: rest =>
          match mkdirs rest (default (Dir []) (get c es)) with
          | Ok m => Ok (Dir (set c m es))
          | Raise e => Raise e
          end
      end
  end.

Definition norm_step (acc : list string) (c : string) : list string :=
  if String.eqb c "" || String.eqb c "." then acc
  else if String.eqb c ".." then removelast acc
  else acc ++ [c].

(** The components of the path [p] read from the directory [cwd];
    [..] is resolved on the text of the path. *)
Definition resolve (cwd : list string) (p : string) : list string :=
  fold_left norm_step (PyStr.split "/" p)
    (if PyStr.startswith p "/" then [] else cwd).

Definition path_str (path : list string) : string :=
  "/" +:+ PyStr.join "/" path.

End FS.

(** ** The world

    What a command does is not the program's to decide: the environment
    [Env] answers every external command, says what other processes do
    to the file system while the program sleeps, and holds the pieces of
    the Python runtime and of the repository that are not in
    [rippa.py].  [clock] counts the interactions, so an environment may
    answer the same command differently the second time. *)

Inductive exec_result :=
  | Exited (code : Z) (output : string)
  | SpawnFailed (kind : oserror).

Inductive level := DEBUG | INFO | WARNING.

Inductive event :=
  | EExec (cmd : list string) (capture : bool) (dir : list string)
      (r : exec_result)
  | ELog (lvl : level) (msg : string)
  | ESleep (seconds : Z)
  | EExists (path : string) (found : bool)
  | EGetsize (path : string) (size : result Z)
  | EListdir (path : string)
  | EMakedirs (path : string)
  | ERmdir (path : string)
  | ERemove (path : string)
  | ERmtree (path : string)
  | EMove (src dst : string)
  | EChdir (path : string)
  | EUpdateKey (settings : option string).

Record Env := {
  env_exec : nat → list string → list string → node → exec_result * node;
  env_sleep : nat → Z → node → node;
  (** What the license-key refresh does, see [updateMakeMkvKey]. *)
  env_update_key : nat → option string → node → option exn * node;
  (** The builtin [hash] on tuples of integers. *)
  env_hash : list Z → Z;
  (** [st_size] of a directory. *)
  env_dirsize : Z;
  (** Whether the stop event of a thread is set. *)
  env_stopped : nat → bool
}.

Record World := {
  fs : node;
  cwd : list string;
  mounts : list string;
  trace : list event;
  clock : nat;
  env : Env
}.

(** [trace] holds the latest event first. *)
Definition emit (e : event) (w : World) : World :=
  {| fs := fs w; cwd := cwd w; mounts := mounts w; trace := e :: trace w;
     clock := clock w; env := env w |}.

Definition with_fs (n : node) (w : World) : World :=
  {| fs := n; cwd := cwd w; mounts := mounts w; trace := trace w;
     clock := clock w; env := env w |}.

Definition with_cwd (d : list string) (w : World) : World :=
  {| fs := fs w; cwd := d; mounts := mounts w; trace := trace w;
     clock := clock w; env := env w |}.

Definition with_mounts (l : list string) (w : World) : World :=
  {| fs := fs w; cwd := cwd w; mounts := l; trace := trace w;
     clock := clock w; env := env w |}.

Definition tick (w : World) : World :=
  {| fs := fs w; cwd := cwd w; mounts := mounts w; trace := trace w;
     clock := S (clock w); env := env w |}.

(** ** The monad of the program: state and exceptions *)

Definition M (A : Type) : Type := World → World * result A.

#[global] Instance M_ret : MRet M := λ A a w, (w, Ok a).
#[global] Instance M_bind : MBind M := λ A B k m w,
  match m w with
  | (w', Ok a) => k a w'
  | (w', Raise e) => (w', Raise e)
  end.
#[global] Instance M_throw : MThrow exn M := λ A e w, (w, Raise e).

Definition raise {A} (e : exn) : M A := mthrow e.

Definition lift {A} (r : result A) : M A := λ w, (w, r).

(** [try: body except cls as e: handler e]. *)
Definition try_except {A} (body : M A) (cls : exn → bool)
    (handler : exn → M A) : M A := λ w,
  match body w with
  | (w', Raise e) => if cls e then handler e w' else (w', Raise e)
  | r => r
  end.

(** [for x in l: body x]. *)
Fixpoint for_each {X} (l : list X) (body : X → M unit) : M unit :=
  match l with
  | [] => mret tt
  | x :: l' => body x;; for_each l' body
  end.

(** A [for] whose body may [return]: [Some v] leaves the loop with [v]. *)
Fixpoint for_return {X R} (l : list X) (body : X → M (option R))
  : M (option R) :=
  match l with
  | [] => mret None
  | x :: l' =>
      r ← body x;
      match r with
      | Some v => mret (Some v)
      | None => for_return l' body
      end
  end.

(** ** The operating system and the Python library *)

Definition log (lvl : level) (msg : string) : M unit := λ w,
  (emit (ELog lvl msg) w, Ok tt).

Definition exists_ (p : string) : M bool := λ w,
  let found :=
    match FS.lookup (FS.resolve (cwd w) p) (fs w) with
    | Some _ => true
    | None => false
    end in
  (emit (EExists p found) w, Ok found).

Definition makedirs (p : string) : M unit := λ w,
  let w1 := emit (EMakedirs p) w in
  match FS.mkdirs (FS.resolve (cwd w) p) (fs w) with
  | Ok n => (with_fs n w1, Ok tt)
  | Raise e => (w1, Raise e)
  end.

Definition listdir (p : string) : M (list string) := λ w,
  let w1 := emit (EListdir p) w in
  match FS.lookup (FS.resolve (cwd w) p) (fs w) with
  | Some (Dir es) => (w1, Ok es.*1)
  | Some (File _) => (w1, Raise (OSError NotADirectoryError))
  | None => (w1, Raise (OSError FileNotFoundError))
  end.

Definition rmdir (p : string) : M unit := λ w,
  let w1 := emit (ERmdir p) w in
  let path := FS.resolve (cwd w) p in
  match path, FS.lookup path (fs w) with
  | [], _ => (w1, Raise (OSError EINVAL))
  | _, Some (Dir []) => (with_fs (FS.remove path (fs w)) w1, Ok tt)
  | _, Some (Dir _) => (w1, Raise (OSError ENOTEMPTY))
  | _, Some (File _) => (w1, Raise (OSError NotADirectoryError))
  | _, None => (w1, Raise (OSError FileNotFoundError))
  end.

Definition remove (p : string) : M unit := λ w,
  let w1 := emit (ERemove p) w in
  let path := FS.resolve (cwd w) p in
  match FS.lookup path (fs w) with
  | Some (File _) => (with_fs (FS.remove path (fs w)) w1, Ok tt)
  | Some (Dir _) => (w1, Raise (OSError IsADirectoryError))
  | None => (w1, Raise (OSError FileNotFoundError))
  end.

(** [shutil.rmtree(p, ignore_errors=True)]. *)
Definition rmtree_ignore_errors (p : string) : M unit := λ w,
  let w1 := emit (ERmtree p) w in
  let path := FS.resolve (cwd w) p in
  match path, FS.lookup path (fs w) with
  | _ :: _, Some (Dir _) => (with_fs (FS.remove path (fs w)) w1, Ok tt)
  | _, _ => (w1, Ok tt)
  end.

(** [os.rename] inside [shutil.move]. *)
Definition rename (sp dp : list string) (root : node) : result node :=
  match FS.lookup sp root with
  | None => Raise (OSError FileNotFoundError)
  | Some n =>
      if decide (sp = dp) then Ok root
      else if decide (sp `prefix_of` dp) then Raise (OSError EINVAL)
      else
        match n, FS.lookup dp root with
        | Dir _, Some (File _) => Raise (OSError NotADirectoryError)
        | File _, Some (Dir _) => Raise (OSError IsADirectoryError)
        | Dir _, Some (Dir (_ :: _)) => Raise (OSError ENOTEMPTY)
        | _, _ =>
            match FS.put dp n (FS.remove sp root) with
            | Some root' => Ok root'
            | None => Raise (OSError FileNotFoundError)
            end
        end
  end.

(** [shutil.move(src, dst)] on one file system: into [dst] when [dst]
    is a directory, to [dst] itself otherwise. *)
Definition move (src dst : string) : M unit := λ w,
  let w1 := emit (EMove src dst) w in
  let sp := FS.resolve (cwd w) src in
  let dp := FS.resolve (cwd w) dst in
  let moved :=
    match FS.lookup dp (fs w) with
    | Some (Dir _) =>
        let real_dst :=
          dp ++ [PyStr.basename
                   (String.rev
                      (PyStr.drop_while (λ c, Ascii.eqb c "/"%char)
                         (String.rev src)))] in
        match FS.lookup real_dst (fs w) with
        | Some _ => Raise ShutilError
        | None => rename sp real_dst (fs w)
        end
    | _ => rename sp dp (fs w)
    end in
  match moved with
  | Ok n => (with_fs n w1, Ok tt)
  | Raise e => (w1, Raise e)
  end.

(** What [os.path.getsize(p)] finds. *)
Definition file_size (w : World) (p : string) : result Z :=
  match FS.lookup (FS.resolve (cwd w) p) (fs w) with
  | Some (File n) => Ok n
  | Some (Dir _) => Ok (env_dirsize (env w))
  | None => Raise (OSError FileNotFoundError)
  end.

Definition getsize (p : string) : M Z := λ w,
  let size := file_size w p in
  (emit (EGetsize p size) w, size).

(** [time.sleep]: the other processes go on meanwhile. *)
Definition sleep (seconds : Z) : M unit := λ w,
  let w1 := emit (ESleep seconds) w in
  (tick (with_fs (env_sleep (env w) (clock w) seconds (fs w)) w1), Ok tt).

Definition getcwd : M string := λ w, (w, Ok (FS.path_str (cwd w))).

Definition chdir (p : string) : M unit := λ w,
  let w1 := emit (EChdir p) w in
  let path := FS.resolve (cwd w) p in
  match FS.lookup path (fs w) with
  | Some (Dir _) => (with_cwd path w1, Ok tt)
  | Some (File _) => (w1, Raise (OSError NotADirectoryError))
  | None => (w1, Raise (OSError FileNotFoundError))
  end.

(** [os.path.normpath] of the absolute path that [p] names from
    [cwd]: exactly two slashes at the start of [p] are kept, as POSIX
    has it, and one slash stands for any other number of them. *)
Definition normpath_from (cwd : list string) (p : string) : string :=
  (if PyStr.startswith p "//" && negb (PyStr.startswith p "///")
   then "//" else "/")
  +:+ PyStr.join "/" (FS.resolve cwd p).

Definition abspath (p : string) : M string := λ w,
  (w, Ok (normpath_from (cwd w) p)).

(** [os.path.join] of two paths. *)
Definition path_join (a b : string) : string :=
  if PyStr.startswith b "/" then b
  else if String.eqb a "" || PyStr.endswith a "/" then a +:+ b
  else a +:+ "/" +:+ b.

(** The builtin [hash], applied to a tuple of integers. *)
Definition builtin_hash (t : list Z) : M Z := λ w,
  (w, Ok (env_hash (env w) t)).

(** [threading.Event.is_set] on the stop event. *)
Definition is_set : M bool := λ w, (w, Ok (env_stopped (env w) (clock w))).

(** Modelled from the spec: [updateMakeMkvKey] is defined in
    [makemkvkey.py], which is not among the sources at hand.  The
    specification says no more than that a license-key refresh may be
    triggered before a DVD is extracted and that it is an external
    collaborator, so it is an action of the environment that may fail. *)
Definition updateMakeMkvKey (settings_path : option string) : M unit := λ w,
  let w1 := emit (EUpdateKey settings_path) w in
  let '(failure, n) := env_update_key (env w) (clock w) settings_path (fs w) in
  (tick (with_fs n w1),
   match failure with Some e => Raise e | None => Ok tt end).

(** [d[k]] and [l[i]]. *)
Definition getitem {V} (d : gmap string V) (k : string) : result V :=
  match d !! k with
  | Some v => Ok v
  | None => Raise (KeyError k)
  end.

Definition index {A} (l : list A) (i : nat) : result A :=
  match l !! i with
  | Some v => Ok v
  | None => Raise IndexError
  end.

(** A short text for an exception in a log message. *)
Definition exn_str (e : exn) : string :=
  match e with
  | TypeError => "TypeError"
  | KeyError k => k
  | IndexError => "list index out of range"
  | ValueError => "ValueError"
  | AttributeError => "AttributeError"
  | NotImplementedError => "NotImplementedError"
  | CalledProcessError c => "non-zero exit status " +:+ PyStr.str_Z c
  | ExceptionExit c => PyStr.str_Z c
  | ExceptionMsg m => m
  | OSError _ => "OSError"
  | ShutilError => "shutil.Error"
  | UnicodeDecodeError => "UnicodeDecodeError"
  end.

(** Values passed to a method, and the binding of the positional
    arguments of a call to the parameters after [self]: a call with
    too few or too many arguments raises [TypeError] before the body
    of the method starts. *)
Inductive pyval :=
  | PyDict (d : gmap string string)
  | PyString (s : string).

Definition bind_args (params : list string) (args : list pyval)
  : result (list (string * pyval)) :=
  if decide (length args = length params) then Ok (zip params args)
  else Raise TypeError.

(** ** The program: module-level functions *)

Definition readlines (pipe : string) : list string :=
  let pieces := PyStr.split PyStr.LF pipe in
  ((λ l, l +:+ PyStr.LF) <$> removelast pieces)
  ++ match last pieces with
     | Some "" | None => []
     | Some l => [l]
     end.

(** [b.decode("utf-8")]. *)
Definition decode (b : string) : result string :=
  if PyStr.utf8_valid b then Ok b else Raise UnicodeDecodeError.

Definition log_subprocess_output (pipe : string) : M unit :=
  for_each (readlines pipe) (λ line,
    text ← lift (decode line);
    log DEBUG ("SUBPROCESS: " +:+ text)).

(** [execute(cmd, capture, cwd)].  With [capture] a non-zero exit
    status is [CalledProcessError], and the output comes back stripped
    and then decoded; without it the output goes to the log line by
    line, each line decoded, and then a non-zero exit status is
    [Exception(exitcode)].  A line that cannot be decoded ends the call
    before the exit status is looked at; the environment has answered
    the whole command by then. *)
Definition execute (cmd : list string) (capture : bool)
    (cwd_arg : option string) : M (option string) := λ w,
  let dir :=
    match cwd_arg with
    | None => cwd w
    | Some p => FS.resolve (cwd w) p
    end in
  let '(r, n) := env_exec (env w) (clock w) cmd dir (fs w) in
  let w1 := tick (with_fs n (emit (EExec cmd capture dir r) w)) in
  match r with
  | SpawnFailed k => (w1, Raise (OSError k))
  | Exited exitcode output =>
      if capture then
        if exitcode =? 0
        then (text ← lift (decode (PyStr.strip_with PyStr.is_bytes_space
                                     output));
              mret (Some text)) w1
        else (w1, Raise (CalledProcessError exitcode))
      else
        (log_subprocess_output output;;
         if negb (exitcode =? 0) then raise (ExceptionExit exitcode)
         else mret None) w1
  end.

Definition parse_blkid_params (params_str : string) : gmap string string :=
  foldl (λ params '(key, value), <[key := value]> params) ∅
    (PyStr.finditer_params 0 params_str).

Fixpoint parse_blkid_loop (lines : list string)
    (blkid : gmap string (gmap string string))
  : result (gmap string (gmap string string)) :=
  match lines with
  | [] => Ok blkid
  | line :: rest =>
      if String.eqb line "" then parse_blkid_loop rest blkid
      else
        let parts := PyStr.split ": " line in
        blk ← index parts 0;
        params_str ← index parts 1;
        let params := parse_blkid_params params_str in
        parse_blkid_loop rest (<[blk := params]> blkid)
  end.

Definition parse_blkid (blkid_str : string)
  : result (gmap string (gmap string string)) :=
  parse_blkid_loop (PyStr.split PyStr.LF blkid_str) ∅.

(** The loop of [cdparanoia_hash]: [lengths] is the list built so far. *)
Fixpoint cdparanoia_hash_loop (lines : list string) (lengths : list Z)
  : result (list Z) :=
  match lines with
  | [] => Ok lengths
  | line :: rest =>
      let split := PyStr.split_ws line in
      if negb (length split =? 8)%nat then cdparanoia_hash_loop rest lengths
      else
        field ← index split 1;
        match PyStr.int field with
        | Some n => cdparanoia_hash_loop rest (lengths ++ [n])
        | None => Raise ValueError
        end
  end.

(** The list [lengths] of [cdparanoia_hash] when the loop is over. *)
Definition cdparanoia_lengths (cdp_str : string) : result (list Z) :=
  let lines := PyStr.slice 6 (-2) (PyStr.split PyStr.LF cdp_str) in
  cdparanoia_hash_loop lines [].

Definition cdparanoia_hash (cdp_str : string) : M Z :=
  lengths ← lift (cdparanoia_lengths cdp_str);
  builtin_hash lengths.

Definition trysudo (cmd : list string) : M unit :=
  try_except
    (execute cmd false None;; mret tt)
    is_Exception
    (λ e,
      log DEBUG ("trysudo error: " +:+ exn_str e);;
      log INFO "Retrying with sudo...";;
      let cmd := "sudo" :: cmd in
      execute cmd false None;; mret tt).

Definition eject (drive : string) : M unit :=
  trysudo ["eject"; "-F"; drive].

(** [_mounts.append(mnt_path)]. *)
Definition mounts_append (mnt_path : string) : M unit := λ w,
  (with_mounts (mounts w ++ [mnt_path]) w, Ok tt).

Definition mount (drive mnt_path : string) : M unit :=
  makedirs mnt_path;;
  trysudo ["mount"; drive; mnt_path];;
  mounts_append mnt_path.

Definition unmount (mnt_path : string) : M unit :=
  trysudo ["umount"; mnt_path].

Definition mount_cleanup : M unit := λ w,
  for_each (mounts w) (λ mnt, unmount mnt) w.

(** ** [StoppableThread] and [LoopThread] *)

Module LoopThread.

Definition stopped : M bool := is_set.

(** [run]: the loop goes on until the stop event is set, so the
    model bounds the number of iterations by [fuel]. *)
Fixpoint run (fuel : nat) (loop_step : M unit) (interval : Z) : M unit :=
  match fuel with
  | O => mret tt
  | S fuel' =>
      stop ← stopped;
      if (stop : bool) then mret tt
      else loop_step;; sleep interval;; run fuel' loop_step interval
  end.

End LoopThread.

(** ** [TranscodeThread] *)

Module TranscodeThread.

Record t := {
  wip_root : string;
  out_root : string;
  ffmpeg_args : list string;
  wip_dvd_root : string;
  interval : Z
}.

Definition default_ffmpeg_args : list string :=
  ["-c:v"; "libx264"; "-crf"; "18"; "-map"; "0";
   "-c:a"; "copy"; "-c:s"; "copy"].

Definition init (wip_root out_root : string)
    (ffmpeg_args : option (list string)) : M t :=
  let ffmpeg_args := default default_ffmpeg_args ffmpeg_args in
  let wip_dvd_root := wip_root +:+ "/dvd" in
  makedirs wip_dvd_root;;
  mret {| wip_root := wip_root; out_root := out_root;
          ffmpeg_args := ffmpeg_args; wip_dvd_root := wip_dvd_root;
          interval := 5 |}.

Definition _wait_for_file_stable (self : t) (file_path : string)
    (wait_time : Z) : M unit :=
  size1 ← getsize file_path;
  log DEBUG ("size1: " +:+ PyStr.str_Z size1);;
  sleep wait_time;;
  size2 ← getsize file_path;
  log DEBUG ("size2: " +:+ PyStr.str_Z size2);;
  if bool_decide (size1 ≠ size2)
  then raise (ExceptionMsg ("File " +:+ file_path
                +:+ " is not done being written (file size changed)"))
  else mret tt.

Definition transcode_file (self : t) (file_path out_path : string)
  : M unit :=
  _wait_for_file_stable self file_path 10;;
  makedirs out_path;;
  let file_name := PyStr.basename file_path in
  let file_no_ext := PyStr.splitext_root file_name in
  let out_file_path := out_path +:+ "/" +:+ file_no_ext +:+ ".mp4" in
  let cmd := ["ffmpeg"; "-i"; file_path] ++ ffmpeg_args self
             ++ [out_file_path] in
  log DEBUG ("Executing: " +:+ PyStr.join " " cmd);;
  execute cmd false None;;
  log DEBUG ("Removing file: " +:+ file_path);;
  remove file_path.

Definition transcode_disc (self : t) (disc_name : string) : M unit :=
  let wip_dvd_root := wip_root self +:+ "/dvd" in
  let wip_transcode_dvd_root := wip_root self +:+ "/dvd_transcode" in
  let out_dvd_root := out_root self +:+ "/dvd" in
  let wip_path := wip_dvd_root +:+ "/" +:+ disc_name in
  let wip_transcode_path := wip_transcode_dvd_root +:+ "/" +:+ disc_name in
  let out_path := out_dvd_root +:+ "/" +:+ disc_name in
  wip_files ← listdir wip_path;
  log DEBUG ("wip_files: " +:+ PyStr.join ", " wip_files);;
  for_each wip_files (λ file,
    let raw_file_path := wip_path +:+ "/" +:+ file in
    try_except
      (transcode_file self raw_file_path wip_transcode_path;;
       log INFO ("Finished transcoding file: " +:+ file))
      is_Exception
      (λ e,
        log DEBUG ("transcode_file error: " +:+ exn_str e);;
        log DEBUG "Maybe MakeMKV is still ripping the disc?"));;
  try_except
    (log DEBUG ("Removing wip_path: " +:+ wip_path);;
     rmdir wip_path)
    is_OSError
    (λ _, log DEBUG ("wip_path not empty, not removing: " +:+ wip_path));;
  wip_transcode_files ← listdir wip_transcode_path;
  log DEBUG ("wip_transcode_files: "
             +:+ PyStr.join ", " wip_transcode_files);;
  makedirs out_path;;
  for_each wip_transcode_files (λ file,
    let transcode_file_path := wip_transcode_path +:+ "/" +:+ file in
    _wait_for_file_stable self transcode_file_path 10;;
    move transcode_file_path out_path;;
    log DEBUG ("Moved transcoded file to out: " +:+ file));;
  try_except
    (log DEBUG ("Removing wip_transcode_path: " +:+ wip_transcode_path);;
     rmdir wip_transcode_path)
    is_OSError
    (λ _, log DEBUG ("wip_transcode_path not empty, not removing: "
                     +:+ wip_transcode_path)).

Definition loop_step (self : t) : M unit :=
  log DEBUG "Transcode loop step";;
  disc_names ← listdir (wip_dvd_root self);
  for_each disc_names (λ disc_name,
    log DEBUG ("Transcoding disc: " +:+ disc_name);;
    transcode_disc self disc_name).

Definition run (fuel : nat) (self : t) : M unit :=
  LoopThread.run fuel (loop_step self) (interval self).

End TranscodeThread.

(** ** [RipThread] *)

Module RipThread.

Record t := {
  drive : string;
  wip_root : string;
  out_root : string;
  skip_eject : bool;
  makemkv_update_key : bool;
  makemkv_settings_path : option string;
  interval : Z
}.

Definition init (drive wip_root out_root : string)
    (skip_eject makemkv_update_key : bool)
    (makemkv_settings_path : option string) : M t :=
  log DEBUG "RipThread initialized";;
  mret {| drive := drive; wip_root := wip_root; out_root := out_root;
          skip_eject := skip_eject;
          makemkv_update_key := makemkv_update_key;
          makemkv_settings_path := makemkv_settings_path;
          interval := 5 |}.

Definition dict_str (d : gmap string string) : string :=
  PyStr.join ", " ((λ '(k, v), k +:+ ": " +:+ v) <$> map_to_list d).

Definition bool_str (b : bool) : string := if b then "True" else "False".

Definition rip_dvd (self : t) (blkid_params : gmap string string)
    (drive : string) : M unit :=
  label ← lift (getitem blkid_params "LABEL");
  uuid ← lift (getitem blkid_params "UUID");
  let disc_name := label +:+ "-" +:+ uuid in
  let wip_rip_path := wip_root self +:+ "/dvd_rip/" +:+ disc_name in
  let wip_path := wip_root self +:+ "/dvd/" +:+ disc_name in
  let out_path := out_root self +:+ "/dvd/" +:+ disc_name in
  out_exists ← exists_ out_path;
  if (out_exists : bool) then
    log INFO ("Output path exists: " +:+ out_path)
  else
  wip_exists ← exists_ wip_path;
  if (wip_exists : bool) then
    log INFO ("WIP path exists: " +:+ wip_path)
  else
  (if makemkv_update_key self
   then updateMakeMkvKey (makemkv_settings_path self)
   else mret tt);;
  log INFO ("Ripping DVD: " +:+ disc_name);;
  rmtree_ignore_errors wip_rip_path;;
  makedirs wip_rip_path;;
  digits ← lift match PyStr.search_digits (RipThread.drive self) with
                | Some d => Ok d
                | None => Raise AttributeError
                end;
  drive_id ← lift match PyStr.int digits with
                  | Some n => Ok n
                  | None => Raise ValueError
                  end;
  o_path_abs ← abspath wip_rip_path;
  let cmd := ["makemkvcon"; "mkv"; "disc:" +:+ PyStr.str_Z drive_id;
              "all"; o_path_abs] in
  log DEBUG ("Executing: " +:+ PyStr.join " " cmd);;
  execute cmd false None;;
  makedirs wip_path;;
  entries ← listdir wip_rip_path;
  for_each entries (λ entry,
    let src := path_join wip_rip_path entry in
    log DEBUG ("Moving from rip path to wip path: "
               +:+ src +:+ " -> " +:+ wip_path);;
    move src wip_path);;
  rmdir wip_rip_path;;
  log INFO ("Finished ripping DVD, wait for transcode: " +:+ disc_name).

(** A call [self.rip_dvd(args)]: the arguments are bound to the two
    parameters [blkid_params] and [drive] before the body runs. *)
Definition rip_dvd_call (self : t) (args : list pyval) : M unit :=
  bound ← lift (bind_args ["blkid_params"; "drive"] args);
  match bound with
  | [(_, PyDict blkid_params); (_, PyString drive)] =>
      rip_dvd self blkid_params drive
  | _ => raise TypeError
  end.

Definition rip_redbook (self : t) (cdp_str : string) : M unit :=
  cdp_hash ← cdparanoia_hash cdp_str;
  let cdp_hash := PyStr.sdrop 2 (PyStr.hex (Z.abs cdp_hash)) in
  let out_dir_path := out_root self +:+ "/redbook" in
  makedirs out_dir_path;;
  folders ← listdir out_dir_path;
  ripped ← for_return folders (λ folder,
    if PyStr.endswith folder cdp_hash then
      log INFO ("Redbook already ripped: " +:+ folder);;
      mret (Some tt)
    else mret None);
  match ripped with
  | Some _ => mret tt
  | None =>
      log INFO ("Ripping redbook: " +:+ cdp_hash);;
      let wip_dir_path := wip_root self +:+ "/redbook" in
      makedirs wip_dir_path;;
      pwd ← getcwd;
      chdir wip_dir_path;;
      let cmd := ["abcde"; "-d"; drive self; "-o"; "flac"; "-B"; "-N"] in
      execute cmd false None;;
      chdir pwd;;
      names ← listdir wip_dir_path;
      album_name ← lift (index names 0);
      let out_path := out_dir_path +:+ "/" +:+ album_name
                      +:+ "-" +:+ cdp_hash in
      move (wip_dir_path +:+ "/" +:+ album_name) out_path;;
      log INFO ("Finished ripping redbook: " +:+ cdp_hash)
  end.

Definition rip_data_disc (self : t) (blkid_params : gmap string string)
  : M unit :=
  label ← lift (getitem blkid_params "LABEL");
  uuid ← lift (getitem blkid_params "UUID");
  let file_name := label +:+ "-" +:+ uuid +:+ ".iso" in
  let wip_dir_path := wip_root self +:+ "/iso" in
  let out_dir_path := out_root self +:+ "/iso" in
  let wip_path := wip_dir_path +:+ "/" +:+ file_name in
  let out_path := out_dir_path +:+ "/" +:+ file_name in
  out_exists ← exists_ out_path;
  if (out_exists : bool) then
    log INFO ("Output path exists: " +:+ out_path)
  else
  log INFO ("Ripping data disc: " +:+ file_name);;
  makedirs wip_dir_path;;
  makedirs out_dir_path;;
  let cmd := ["dd"; "if=" +:+ drive self; "of=" +:+ wip_path;
              "status=progress"] in
  log DEBUG ("Executing: " +:+ PyStr.join " " cmd);;
  here ← getcwd;
  execute cmd false (Some here);;
  move wip_path out_path;;
  log INFO ("Finished ripping data disc: " +:+ file_name).

Definition rip_bluray (blkid_params : gmap string string) : M unit :=
  raise NotImplementedError.

(** One iteration of the rip loop.  The first [try] ends in a
    [return]: [redbook] tells whether it was reached. *)
Definition loop_step (self : t) : M unit :=
  log DEBUG "Rip loop step";;
  blkid_str ← try_except
    (execute ["blkid"; drive self] true None)
    is_Exception
    (λ e, log DEBUG ("blkid error: " +:+ exn_str e);; mret None);
  redbook ← try_except
    (cdp_text ← execute ["cdparanoia"; "-sQ"] true None;
     log INFO "Redbook disc detected";;
     match cdp_text with
     | Some cdp_text => rip_redbook self cdp_text
     | None => raise AttributeError
     end;;
     (if skip_eject self then mret tt else eject (drive self));;
     mret true)
    is_CalledProcessError
    (λ e,
      log DEBUG ("cdparanoia error: " +:+ exn_str e);;
      log DEBUG "No redbook disc detected";;
      mret false);
  if (redbook : bool) then mret tt
  else
  match blkid_str with
  | None => log DEBUG "No disc detected"
  | Some blkid_str =>
      if (String.length blkid_str =? 0)%nat then
        log DEBUG "No disc detected"
      else
      log DEBUG ("blkid_str: " +:+ blkid_str);;
      blkid ← lift (parse_blkid blkid_str);
      blkid_params ← lift (getitem blkid (drive self));
      log DEBUG ("params: " +:+ dict_str blkid_params);;
      let mnt_path := "./mnt" +:+ drive self in
      try_except
        (mount (drive self) mnt_path)
        is_Exception
        (λ e, log DEBUG ("mount error: " +:+ exn_str e));;
      let video_ts_path := mnt_path +:+ "/VIDEO_TS" in
      log DEBUG ("Checking for DVD at: " +:+ video_ts_path);;
      video_ts_exists ← exists_ video_ts_path;
      log DEBUG ("video_ts_exists: " +:+ bool_str video_ts_exists);;
      (if (video_ts_exists : bool) then
         log INFO "DVD detected";;
         rip_dvd_call self [PyDict blkid_params]
       else
         log INFO "Data disc detected";;
         rip_data_disc self blkid_params);;
      if skip_eject self then mret tt else eject (drive self)
  end.

Definition run (fuel : nat) (self : t) : M unit :=
  LoopThread.run fuel (loop_step self) (interval self).

End RipThread.

(** ** Sample environments *)

(** The tuple hash of CPython 3.8 and later on a 64-bit build, for
    tuples of integers. *)
Module CPython.

Definition wrap64 (x : Z) : Z := x mod 2 ^ 64.

Definition int_hash (x : Z) : Z :=
  let h := Z.abs x mod (2 ^ 61 - 1) in
  let h := if x <? 0 then - h else h in
  if h =? -1 then -2 else h.

Definition XXPRIME_1 : Z := 11400714785074694791.
Definition XXPRIME_2 : Z := 14029467366897019727.
Definition XXPRIME_5 : Z := 2870177450012600261.

Definition XXROTATE (x : Z) : Z :=
  wrap64 (Z.lor (Z.shiftl x 31) (Z.shiftr x 33)).

Definition tuplehash (v : list Z) : Z :=
  let acc :=
    foldl (λ acc item,
             let lane := wrap64 (int_hash item) in
             let acc := wrap64 (acc + lane * XXPRIME_2) in
             let acc := XXROTATE acc in
             wrap64 (acc * XXPRIME_1))
      XXPRIME_5 v in
  let acc :=
    wrap64 (acc + Z.lxor (Z.of_nat (length v))
                    (Z.lxor XXPRIME_5 3527539)) in
  if acc =? 2 ^ 64 - 1 then 1546275796
  else if acc <? 2 ^ 63 then acc else acc - 2 ^ 64.

End CPython.

Module Sample.

Definition quoted (s : string) : string :=
  String PyStr.dquote s +:+ String PyStr.dquote "".

Definition blkid_out : string :=
  "/dev/sr0: UUID=" +:+ quoted "ABCD-1234" +:+ " LABEL=" +:+ quoted "MOVIE"
  +:+ " TYPE=" +:+ quoted "udf" +:+ PyStr.LF.

(** A table of contents of three tracks in the format of
    [cdparanoia -sQ], with two more lines after the row of the last
    track, so that the slice of [cdparanoia_hash] keeps the three
    rows. *)
Definition cdp_table : string :=
  PyStr.join PyStr.LF
    ["cdparanoia III release 10.2 (September 11, 2008)";
     "";
     "";
     "Table of contents (audio tracks only):";
     "track        length               begin        copy pre ch";
     "===========================================================";
     "  1.   240000 [53:20.00]        0 [00:00.00]    no   no  2";
     "  2.   180500 [40:06.50]   240000 [53:20.00]    no   no  2";
     "  3.   300200 [66:42.50]   420500 [93:26.50]    no   no  2";
     "TOTAL  720700 [160:09.25]    (audio only)";
     "cdparanoia: done"].

Inductive disc := NoDisc | Audio | Dvd | Data.

Definition is_cmd (cmd : list string) (name : string) : bool :=
  match cmd with
  | c :: _ => String.eqb c name
  | [] => false
  end.

Definition put_or_keep (path : list string) (new n : node) : node :=
  default n (FS.put path new n).

(** The answers of the external commands: [disc] is what the drive
    holds, [eject_ok] whether [eject] works, with or without [sudo]. *)
Definition exec (d : disc) (eject_ok : bool)
    (_ : nat) (cmd : list string) (dir : list string) (n : node)
  : exec_result * node :=
  if is_cmd cmd "blkid" then
    (match d with
     | Dvd | Data => Exited 0 blkid_out
     | _ => Exited 2 ""
     end, n)
  else if is_cmd cmd "cdparanoia" then
    (match d with
     | Audio => Exited 0 cdp_table
     | _ => Exited 1 "004: Unable to read table of contents header"
     end, n)
  else if is_cmd cmd "mount" then
    match d with
    | Dvd =>
        (Exited 0 "",
         put_or_keep (FS.resolve dir (default "" (last cmd)) ++ ["VIDEO_TS"])
           (Dir []) n)
    | Data =>
        (Exited 0 "",
         put_or_keep (FS.resolve dir (default "" (last cmd)) ++ ["README"])
           (File 12) n)
    | _ => (Exited 32 "mount: no medium found", n)
    end
  else if is_cmd cmd "makemkvcon" then
    (Exited 0 "1 titles saved",
     put_or_keep (FS.resolve dir (default "" (last cmd)) ++ ["title_t00.mkv"])
       (File 4096) n)
  else if is_cmd cmd "abcde" then
    (Exited 0 "",
     put_or_keep (dir ++ ["Album"]) (Dir [("track01.flac", File 1000)]) n)
  else if is_cmd cmd "dd" then
    (Exited 0 "",
     match cmd !! 2%nat with
     | Some arg => put_or_keep (FS.resolve dir (PyStr.sdrop 3 arg)) (File 700) n
     | None => n
     end)
  else if is_cmd cmd "ffmpeg" then
    (Exited 0 "",
     put_or_keep (FS.resolve dir (default "" (last cmd))) (File 2048) n)
  else if is_cmd cmd "eject" || is_cmd (drop 1 cmd) "eject" then
    (if eject_ok then Exited 0 "" else Exited 1 "eject: unable to eject", n)
  else (Exited 127 "command not found", n).

Definition environment (d : disc) (eject_ok : bool) : Env :=
  {| env_exec := exec d eject_ok;
     env_sleep := λ _ _ n, n;
     env_update_key := λ _ _ n, (None, n);
     env_hash := CPython.tuplehash;
     env_dirsize := 4096;
     env_stopped := λ _, false |}.

Definition world (e : Env) (root : node) : World :=
  {| fs := root; cwd := []; mounts := []; trace := []; clock := 0;
     env := e |}.

Definition rip_thread : RipThread.t :=
  {| RipThread.drive := "/dev/sr0"; RipThread.wip_root := "./wip";
     RipThread.out_root := "./out"; RipThread.skip_eject := false;
     RipThread.makemkv_update_key := false;
     RipThread.makemkv_settings_path := None;
     RipThread.interval := 5 |}.

End Sample.

(** ** Vocabulary of the statements *)

(** [p] names something in the file system of [w]. *)
Definition present (w : World) (p : string) : Prop :=
  is_Some (FS.lookup (FS.resolve (cwd w) p) (fs w)).

(** The external commands of a trace with their results, the oldest
    first; [commands] keeps the command lines only. *)
Fixpoint execs (t : list event) : list (list string * exec_result) :=
  match t with
  | [] => []
  | EExec cmd _ _ r :: t' => execs t' ++ [(cmd, r)]
  | _ :: t' => execs t'
  end.

Definition commands (t : list event) : list (list string) := (execs t).*1.

Definition succeeded (r : exec_result) : Prop :=
  ∃ output, r = Exited 0 output.

(** The lines of the output of a command that [log_subprocess_output]
    gets to log: those before the first one that cannot be decoded. *)
Fixpoint decoded_prefix (lines : list string) : list string :=
  match lines with
  | [] => []
  | line :: rest =>
      if PyStr.utf8_valid line then line :: decoded_prefix rest else []
  end.

(** Every line of the output can be decoded. *)
Definition decodable (output : string) : bool :=
  forallb PyStr.utf8_valid (readlines output).

(** The results on which [execute] without capture returns: the
    command exited with status zero and its output was decoded to the
    end. *)
Definition completed (r : exec_result) : Prop :=
  ∃ output, r = Exited 0 output ∧ decodable output = true.

(** The lines of a text at the positions [first] to [last], both
    included, the first line being at position one. *)
Definition lines_between (first last : nat) (lines : list string)
  : list string :=
  omap (λ i, lines !! (i - 1)%nat) (seq first (S last - first)).

(** A row of the table of contents: eight fields; its track length is
    the second field, read as an integer. *)
Definition is_row (line : string) : Prop := length (PyStr.split_ws line) = 8%nat.

Definition row_length (row : string) : result Z :=
  field ← index (PyStr.split_ws row) 1;
  match PyStr.int field with
  | Some n => Ok n
  | None => Raise ValueError
  end.

(** The rows among the lines from the seventh on, leaving out the
    last [trailing] lines. *)
Definition track_rows (trailing : nat) (cdp_str : string) : list string :=
  let lines := PyStr.split PyStr.LF cdp_str in
  filter is_row (lines_between 7 (length lines - trailing) lines).

(** The value of a string of hexadecimal digits, and the digits that
    the lowercase rendering uses. *)
Definition is_lower_hex (c : ascii) : bool :=
  PyStr.is_digit c || ((97 <=? N_of_ascii c)%N && (N_of_ascii c <=? 102)%N).

Fixpoint all_chars (f : ascii → bool) (s : string) : bool :=
  match s with
  | "" => true
  | String c s' => f c && all_chars f s'
  end.

Definition hex_value (s : string) : Z := Z.of_N (HexString.Raw.to_N s 0).

(** A table of contents of two tracks, as it comes back from [execute]:
    the second-to-last line is the row of the second track. *)
Definition short_table : string :=
  PyStr.join PyStr.LF
    ["cdparanoia III release 10.2 (September 11, 2008)";
     "";
     " ";
     "Table of contents (audio tracks only):";
     "track        length               begin        copy pre ch";
     "===========================================================";
     "  1.   240000 [53:20.00]        0 [00:00.00]    no   no  2";
     "  2.   180500 [40:06.50]   240000 [53:20.00]    no   no  2";
     "TOTAL  420500 [93:26.50]    (audio only)"].

(** The discs of the data model, each with what its rip function is
    given, and the rip function of each kind. *)
Inductive disc :=
  | Redbook (cdp_str : string)
  | DVD (blkid_params : gmap string string) (drive : string)
  | DataDisc (blkid_params : gmap string string).

Definition rip (self : RipThread.t) (d : disc) : M unit :=
  match d with
  | Redbook cdp_str => RipThread.rip_redbook self cdp_str
  | DVD blkid_params drive => RipThread.rip_dvd self blkid_params drive
  | DataDisc blkid_params => RipThread.rip_data_disc self blkid_params
  end.

(** The identity of a disc: label and UUID for a DVD or a data disc,
    the hexadecimal digits of the hash of the track lengths for a
    Redbook disc. *)
Definition disc_name (blkid_params : gmap string string) : result string :=
  label ← getitem blkid_params "LABEL";
  uuid ← getitem blkid_params "UUID";
  Ok (label +:+ "-" +:+ uuid).

Definition redbook_identity (hash : list Z → Z) (lengths : list Z) : string :=
  PyStr.sdrop 2 (PyStr.hex (Z.abs (hash lengths))).

Definition identity (w : World) (d : disc) : result string :=
  match d with
  | Redbook cdp_str =>
      lengths ← cdparanoia_lengths cdp_str;
      Ok (redbook_identity (env_hash (env w)) lengths)
  | DVD blkid_params _ | DataDisc blkid_params => disc_name blkid_params
  end.

(** The places of a disc in the work and output trees. *)
Definition out_dvd (self : RipThread.t) (id : string) : string :=
  RipThread.out_root self +:+ "/dvd/" +:+ id.

Definition out_iso (self : RipThread.t) (id : string) : string :=
  RipThread.out_root self +:+ "/iso/" +:+ id +:+ ".iso".

Definition out_redbook (self : RipThread.t) : string :=
  RipThread.out_root self +:+ "/redbook".

Definition staged_dvd (self : RipThread.t) (id : string) : string :=
  RipThread.wip_root self +:+ "/dvd/" +:+ id.

Definition rip_in_progress_dvd (self : RipThread.t) (id : string) : string :=
  RipThread.wip_root self +:+ "/dvd_rip/" +:+ id.

(** The disc is in the output tree already. *)
Definition already_ripped (self : RipThread.t) (d : disc) (w : World) : Prop :=
  ∃ id, identity w d = Ok id ∧
    match d with
    | DVD _ _ => present w (out_dvd self id)
    | DataDisc _ => present w (out_iso self id)
    | Redbook _ =>
        ∃ entries folder,
          FS.lookup (FS.resolve (cwd w) (out_redbook self)) (fs w)
          = Some (Dir entries)
          ∧ folder ∈ entries.*1
          ∧ PyStr.endswith folder id = true
    end.

(** Sample discs and trees. *)
Module Discs.

Definition params : gmap string string :=
  parse_blkid_params
    ("UUID=" +:+ Sample.quoted "ABCD-1234" +:+ " LABEL="
     +:+ Sample.quoted "MOVIE").

Definition dvd : disc := DVD params "/dev/sr0".
Definition data : disc := DataDisc params.
Definition audio : disc := Redbook Sample.cdp_table.

(** An output tree that holds the three discs. *)
Definition ripped : node :=
  Dir [("out",
        Dir [("dvd", Dir [("MOVIE-ABCD-1234", Dir [("title_t00.mp4", File 2048)])]);
             ("iso", Dir [("MOVIE-ABCD-1234.iso", File 700)]);
             ("redbook",
              Dir [("Other-0", Dir []);
                   ("Album-a1522a25367bcc",
                    Dir [("track01.flac", File 1000)])])])].

Definition ripped_world : World :=
  Sample.world (Sample.environment Sample.NoDisc true) ripped.

End Discs.

(** Sample staged discs for the transcode loop: the disc [A] holds a
    file that another process is still writing, one byte more at every
    sleep; the disc [B] is complete. *)
Module Staged.

Definition thread : TranscodeThread.t :=
  {| TranscodeThread.wip_root := "./wip";
     TranscodeThread.out_root := "./out";
     TranscodeThread.ffmpeg_args := TranscodeThread.default_ffmpeg_args;
     TranscodeThread.wip_dvd_root := "./wip/dvd";
     TranscodeThread.interval := 5 |}.

Definition growing : list string := ["wip"; "dvd"; "A"; "t00.mkv"].

Definition grow (_ : nat) (_ : Z) (n : node) : node :=
  match FS.lookup growing n with
  | Some (File size) => Sample.put_or_keep growing (File (size + 1)) n
  | _ => n
  end.

Definition environment : Env :=
  {| env_exec := Sample.exec Sample.NoDisc true;
     env_sleep := grow;
     env_update_key := λ _ _ n, (None, n);
     env_hash := CPython.tuplehash;
     env_dirsize := 4096;
     env_stopped := λ _, false |}.

(** Two staged discs, [A] with the growing file only. *)
Definition two_discs : node :=
  Dir [("wip",
        Dir [("dvd",
              Dir [("A", Dir [("t00.mkv", File 100)]);
                   ("B", Dir [("u00.mkv", File 200)])])])].

(** One staged disc with the growing file and a complete one. *)
Definition two_files : node :=
  Dir [("wip",
        Dir [("dvd",
              Dir [("A", Dir [("t00.mkv", File 100);
                              ("t01.mkv", File 300)])])])].

End Staged.

(** A work tree in which an earlier rip of the sample DVD was
    interrupted: its rip-in-progress directory holds a partial file. *)
Module Interrupted.

Definition tree : node :=
  Dir [("wip",
        Dir [("dvd_rip",
              Dir [("MOVIE-ABCD-1234", Dir [("partial.mkv", File 100)])])])].

Definition world : World :=
  Sample.world (Sample.environment Sample.Dvd true) tree.

(** The same disc with its staged directory in place. *)
Definition staged_tree : node :=
  Dir [("wip",
        Dir [("dvd",
              Dir [("MOVIE-ABCD-1234", Dir [("title_t00.mkv", File 4096)])])])].

Definition staged_world : World :=
  Sample.world (Sample.environment Sample.Dvd true) staged_tree.

End Interrupted.

Definition wip_redbook (self : RipThread.t) : string :=
  RipThread.wip_root self +:+ "/redbook".

(** Where the album [album] of the disc [id] is put: in the output
    tree according to the code, in the staged area according to the
    specification. *)
Definition out_redbook_album (self : RipThread.t) (album id : string) : string :=
  out_redbook self +:+ "/" +:+ album +:+ "-" +:+ id.

Definition staged_redbook_album (self : RipThread.t) (album id : string)
  : string :=
  wip_redbook self +:+ "/" +:+ album +:+ "-" +:+ id.

(** An empty tree with an audio disc in the drive. *)
Definition audio_world : World :=
  Sample.world (Sample.environment Sample.Audio true) (Dir []).

(** Kinds of events: the command that an event runs, the path whose
    existence it tests. *)
Definition runs (name : string) (e : event) : bool :=
  match e with
  | EExec (c :: _) _ _ _ => String.eqb c name
  | _ => false
  end.

Definition tests_path (e : event) : option string :=
  match e with
  | EExists p _ => Some p
  | _ => None
  end.

(** The mount point of the drive and the directory that tells a DVD. *)
Definition mnt_path (self : RipThread.t) : string :=
  "./mnt" +:+ RipThread.drive self.

Definition video_ts_path (self : RipThread.t) : string :=
  mnt_path self +:+ "/VIDEO_TS".

(** The last character of a string. *)
Fixpoint str_last (s : string) : option ascii :=
  match s with
  | "" => None
  | String c s' =>
      match str_last s' with
      | Some d => Some d
      | None => Some c
      end
  end.

(** What [blkid_str] holds after the metadata query answered [r], and
    the failure of the audio-table probe that [loop_step] catches. *)
Definition metadata (r : exec_result) : option string :=
  match r with
  | Exited code output =>
      if code =? 0 then
        match decode (PyStr.strip_with PyStr.is_bytes_space output) with
        | Ok text => Some text
        | Raise _ => None
        end
      else None
  | SpawnFailed _ => None
  end.

Definition probe_failed (r : exec_result) : Prop :=
  ∃ code output, r = Exited code output ∧ code ≠ 0.

(** The commands of a Redbook rip and of the ejection. *)
Definition redbook_command (cmd : list string) : Prop :=
  head cmd = Some "abcde" ∨ head cmd = Some "eject" ∨ head cmd = Some "sudo".


(** ** Properties of runs *)

(** [emits P m]: whatever the world, [m] only adds events to the trace,
    and every event it adds satisfies [P]. *)
Definition emits {A} (P : event → Prop) (m : M A) : Prop :=
  ∀ w, ∃ added, trace (m w).1 = added ++ trace w ∧ Forall P added.

(** [grows_by w w' added]: from [w] to [w'] the trace grew by [added]. *)
Definition grows_by (w w' : World) (added : list event) : Prop :=
  trace w' = added ++ trace w.

(** [adds P w w']: from [w] to [w'] the trace grew by events that all
    satisfy [P]. *)
Definition adds (P : event → Prop) (w w' : World) : Prop :=
  ∃ added, trace w' = added ++ trace w ∧ Forall P added.

(** [raises Q m]: every exception that leaves [m] satisfies [Q]. *)
Definition raises {A} (Q : exn → Prop) (m : M A) : Prop :=
  ∀ w w' e, m w = (w', Raise e) → Q e.

(** What [except subprocess.CalledProcessError] lets through. *)
Definition not_a_probe_failure (e : exn) : Prop :=
  is_CalledProcessError e = false.

(** An event of the rip loop before it looks for [VIDEO_TS]: no path
    is tested and the extraction tool is not run. *)
Definition before_probe (e : event) : Prop :=
  runs "makemkvcon" e = false ∧ tests_path e = None.

(** An event that runs no command but those of a Redbook rip. *)
Definition runs_redbook_commands (e : event) : Prop :=
  ∀ cmd capture dir res, e = EExec cmd capture dir res → redbook_command cmd.

(** ** Privileged commands *)

(** The commands that go through [trysudo]: [mount], [umount] and
    [eject]; and the commands that carry the elevation prefix. *)
Definition privileged (cmd : list string) : bool :=
  match cmd with
  | name :: _ =>
      String.eqb name "mount" || String.eqb name "umount"
      || String.eqb name "eject"
  | [] => false
  end.

Definition elevated (cmd : list string) : bool :=
  match cmd with
  | name :: _ => String.eqb name "sudo"
  | [] => false
  end.

(** [escalated l]: in the commands [l], listed in the order they were
    run, every privileged command is first run as it is; when that
    call of [execute] raised, and only then, it is run once more behind
    [sudo], and nothing else is run behind [sudo].  The call raises
    when the command did not exit with status zero, could not be
    started, or printed a line that cannot be decoded. *)
Inductive escalated : list (list string * exec_result) → Prop :=
  | escalated_nil : escalated []
  | escalated_plain cmd res l :
      privileged cmd = false → elevated cmd = false →
      escalated l → escalated ((cmd, res) :: l)
  | escalated_first cmd res l :
      privileged cmd = true → completed res →
      escalated l → escalated ((cmd, res) :: l)
  | escalated_retry cmd res1 res2 l :
      privileged cmd = true → ¬ completed res1 →
      escalated l → escalated ((cmd, res1) :: ("sudo" :: cmd, res2) :: l).

(** An event that is no run of a privileged or elevated command. *)
Definition unprivileged (e : event) : Prop :=
  ∀ cmd capture dir res,
    e = EExec cmd capture dir res → privileged cmd = false ∧ elevated cmd = false.

(** An event that is no failed run of [name] behind [sudo]. *)
Definition retry_ok (name : string) (e : event) : Prop :=
  ∀ args capture dir res,
    e = EExec ("sudo" :: name :: args) capture dir res → completed res.

(** An event that is a call of [time.sleep]. *)
Definition sleeps (e : event) : bool :=
  match e with ESleep _ => true | _ => false end.

Definition mount_command (self : RipThread.t) : list string :=
  ["mount"; RipThread.drive self; mnt_path self].

Definition eject_command (self : RipThread.t) : list string :=
  ["eject"; "-F"; RipThread.drive self].

(** A drive with a data disc where neither [mount] nor [eject] is
    permitted, with or without [sudo]. *)
Module Denied.

Definition exec (clock : nat) (cmd : list string) (dir : list string)
    (n : node) : exec_result * node :=
  if Sample.is_cmd cmd "mount" || Sample.is_cmd (drop 1 cmd) "mount" then
    (Exited 32 "mount: only root can do that", n)
  else Sample.exec Sample.Data false clock cmd dir n.

Definition environment : Env :=
  {| env_exec := exec;
     env_sleep := λ _ _ n, n;
     env_update_key := λ _ _ n, (None, n);
     env_hash := CPython.tuplehash;
     env_dirsize := 4096;
     env_stopped := λ _, false |}.

Definition world : World := Sample.world environment (Dir []).

End Denied.

(** [escalates m]: the commands that [m] runs are [escalated]. *)
Definition escalates {A} (m : M A) : Prop :=
  ∀ w w' r, m w = (w', r) →
    ∃ added, trace w' = added ++ trace w ∧ escalated (execs added).

(** [emits_unless P Q m]: unless [m] raises an exception outside [Q],
    every event it adds satisfies [P]. *)
Definition emits_unless {A} (P : event → Prop) (Q : exn → Prop) (m : M A)
  : Prop :=
  ∀ w w' r, m w = (w', r) → (∀ e, r = Raise e → Q e) →
    ∃ added, trace w' = added ++ trace w ∧ Forall P added.

(** ** Vocabulary of the further properties *)

(** [sub in s]. *)
Fixpoint str_contains (sub s : string) : bool :=
  String.prefix sub s
  || match s with
     | "" => false
     | String _ s' => str_contains sub s'
     end.

(** No double quote. *)
Definition unquoted (s : string) : bool :=
  all_chars (λ c, negb (Ascii.eqb c PyStr.dquote)) s.

(** The table of contents of a disc with one track, as it comes back
    from [execute]: eight lines. *)
Definition one_track_table : string :=
  PyStr.join PyStr.LF
    ["cdparanoia III release 10.2 (September 11, 2008)";
     "";
     " ";
     "Table of contents (audio tracks only):";
     "track        length               begin        copy pre ch";
     "===========================================================";
     "  1.   240000 [53:20.00]        0 [00:00.00]    no   no  2";
     "TOTAL  240000 [53:20.00]    (audio only)"].

(** [steady m]: [m] changes neither the list of mount points nor the
    working directory. *)
Definition steady {A} (m : M A) : Prop :=
  ∀ w w' r, m w = (w', r) → mounts w' = mounts w ∧ cwd w' = cwd w.

(** What [execute] logs of the output of a command. *)
Definition output_of (res : exec_result) : string :=
  match res with
  | Exited _ output => output
  | SpawnFailed _ => ""
  end.

(** The first character of a string. *)
Definition str_head (s : string) : option ascii :=
  match s with
  | "" => None
  | String c _ => Some c
  end.

(** A text that neither starts nor ends with white space. *)
Definition stripped (s : string) : Prop :=
  ∀ c, str_head s = Some c ∨ str_last s = Some c →
       PyStr.is_bytes_space c = false.

(** The command line that [transcode_file] builds for the file
    [file_path] and the directory [out_path]. *)
Definition ffmpeg_command (self : TranscodeThread.t) (file_path out_path : string)
  : list string :=
  ["ffmpeg"; "-i"; file_path] ++ TranscodeThread.ffmpeg_args self
  ++ [out_path +:+ "/" +:+ PyStr.splitext_root (PyStr.basename file_path)
      +:+ ".mp4"].

(** The staged directory of a disc, as [transcode_disc] names it. *)
Definition staged_disc (self : TranscodeThread.t) (disc_name : string) : string :=
  (TranscodeThread.wip_root self +:+ "/dvd") +:+ "/" +:+ disc_name.

Definition abcde_command (self : RipThread.t) : list string :=
  ["abcde"; "-d"; RipThread.drive self; "-o"; "flac"; "-B"; "-N"].

(** An event that runs no command but [name]. *)
Definition runs_only (name : string) (e : event) : Prop :=
  ∀ cmd capture dir res, e = EExec cmd capture dir res → head cmd = Some name.

(** An event that is no run of [eject], as it is or behind [sudo]. *)
Definition no_eject (e : event) : Prop :=
  ∀ cmd capture dir res,
    e = EExec cmd capture dir res →
    head cmd ≠ Some "eject" ∧ (head cmd = Some "sudo" → cmd !! 1%nat ≠ Some "eject").

(** [starts P m]: [m] adds at least one event, and the first one it
    adds satisfies [P]. *)
Definition starts {A} (P : event → Prop) (m : M A) : Prop :=
  ∀ w w' r, m w = (w', r) →
    ∃ added e, trace w' = added ++ e :: trace w ∧ P e.

(** A data disc in a drive whose [mount], [umount] and [eject], with
    or without [sudo], and whose [blkid] exit with status zero after
    printing a byte that is no UTF-8. *)
Module Garbled.

Definition noise : string := String (ascii_of_N 255) "".

Definition exec (clock : nat) (cmd : list string) (dir : list string)
    (n : node) : exec_result * node :=
  if privileged cmd || privileged (drop 1 cmd) || Sample.is_cmd cmd "blkid"
  then (Exited 0 noise, n)
  else Sample.exec Sample.Data true clock cmd dir n.

Definition environment : Env :=
  {| env_exec := exec;
     env_sleep := λ _ _ n, n;
     env_update_key := λ _ _ n, (None, n);
     env_hash := CPython.tuplehash;
     env_dirsize := 4096;
     env_stopped := λ _, false |}.

Definition world : World := Sample.world environment (Dir []).

End Garbled.

(** An audio disc in the drive and an [abcde] that fails. *)
Module Scratched.

Definition exec (clock : nat) (cmd : list string) (dir : list string)
    (n : node) : exec_result * node :=
  if Sample.is_cmd cmd "abcde" then (Exited 1 "abcde: cannot read the disc", n)
  else Sample.exec Sample.Audio true clock cmd dir n.

Definition environment : Env :=
  {| env_exec := exec;
     env_sleep := λ _ _ n, n;
     env_update_key := λ _ _ n, (None, n);
     env_hash := CPython.tuplehash;
     env_dirsize := 4096;
     env_stopped := λ _, false |}.

Definition world : World := Sample.world environment (Dir []).

End Scratched.

(** The command lines of [rip_data_disc] and [rip_dvd]. *)
Definition dd_command (self : RipThread.t) (file_name : string) : list string :=
  ["dd"; "if=" +:+ RipThread.drive self;
   "of=" +:+ (RipThread.wip_root self +:+ "/iso") +:+ "/" +:+ file_name;
   "status=progress"].

Definition makemkvcon_command (drive_id : Z) (o_path_abs : string)
  : list string :=
  ["makemkvcon"; "mkv"; "disc:" +:+ PyStr.str_Z drive_id; "all"; o_path_abs].

(** An event that moves something or removes a directory. *)
Definition moves_or_removes (e : event) : Prop :=
  (∃ src dst, e = EMove src dst) ∨ (∃ p, e = ERmdir p).


(** ** Promotion of transcoded files *)

(** What a stability check that passed leaves in the trace, newest
    event first: both samples gave [size]. *)
Definition size_check (path : string) (wait_time size : Z) : list event :=
  [ELog DEBUG ("size2: " +:+ PyStr.str_Z size);
   EGetsize path (Ok size);
   ESleep wait_time;
   ELog DEBUG ("size1: " +:+ PyStr.str_Z size);
   EGetsize path (Ok size)].

(** The events [rest] that came before begin with a check of [path],
    ten seconds long, that passed. *)
Definition stable_before (path : string) (rest : list event) : Prop :=
  ∃ size before, rest = size_check path 10 size ++ before.

(** A move of a transcoded file of some disc to the output directory
    of that disc. *)
Definition promotion (self : TranscodeThread.t) (src dst : string) : Prop :=
  ∃ disc_name file,
    src = ((TranscodeThread.wip_root self +:+ "/dvd_transcode")
           +:+ "/" +:+ disc_name) +:+ "/" +:+ file
    ∧ dst = (TranscodeThread.out_root self +:+ "/dvd") +:+ "/" +:+ disc_name.

(** Every move in [added] is a promotion that comes right after a
    passed stability check of the file it moves. *)
Definition moves_checked (self : TranscodeThread.t) (added : list event)
  : Prop :=
  ∀ after src dst rest,
    added = after ++ EMove src dst :: rest →
    promotion self src dst ∧ stable_before src rest.

Definition checks {A} (self : TranscodeThread.t) (m : M A) : Prop :=
  ∀ w w' r, m w = (w', r) →
    ∃ added, trace w' = added ++ trace w ∧ moves_checked self added.

Definition no_move (e : event) : Prop := ∀ src dst, e ≠ EMove src dst.

(** * Proofs *)

Example split_lines : PyStr.split PyStr.LF ("a" +:+ PyStr.LF +:+ "b") = ["a"; "b"].
Proof. reflexivity. Qed.
Example split_colon : PyStr.split ": " "x: y: z" = ["x"; "y"; "z"].
Proof. reflexivity. Qed.
Example split_ws_ex :
  PyStr.split_ws "  1.   16503 [03:40.03]  " = ["1."; "16503"; "[03:40.03]"].
Proof. reflexivity. Qed.
Example int_ex :
  PyStr.int <$> ["12"; "+12"; " 12 "; "1_000"; "_1"; "1__0"; "007"; "-5"; "1_"]
  = [Some 12; Some 12; Some 12; Some 1000; None; None; Some 7; Some (-5); None].
Proof. reflexivity. Qed.
Example slice_ex : PyStr.slice 6 (-2) [0;1;2;3;4;5;6;7;8] = [6].
Proof. reflexivity. Qed.
Example hex_ex : PyStr.sdrop 2 (PyStr.hex (Z.abs (-255))) = "ff".
Proof. reflexivity. Qed.
Example splitext_ex :
  PyStr.splitext_root <$> ["b.mkv"; ".hidden"; "b.tar.gz"; "b."; "..x"; "b"]
  = ["b"; ".hidden"; "b.tar"; "b"; "..x"; "b"].
Proof. reflexivity. Qed.
Example str_Z_ex : PyStr.str_Z 10 = "10" ∧ PyStr.search_digits "/dev/sr10" = Some "10".
Proof. split; reflexivity. Qed.
Example abspath_ex :
  normpath_from ["home"; "u"] "./wip/dvd_rip/X" = "/home/u/wip/dvd_rip/X"
  ∧ normpath_from ["home"; "u"] "/tmp/../srv//wip/./X" = "/srv/wip/X"
  ∧ normpath_from ["home"; "u"] "//tmp/rv/wip/dvd_rip/X"
    = "//tmp/rv/wip/dvd_rip/X"
  ∧ normpath_from ["home"; "u"] "///tmp/rv/wip" = "/tmp/rv/wip"
  ∧ normpath_from [] "" = "/".
Proof. by vm_compute. Qed.

Example decode_ex :
  PyStr.utf8_valid "eject: unable to eject" = true
  ∧ PyStr.utf8_valid (String (ascii_of_N 195) (String (ascii_of_N 169) ""))
    = true
  ∧ PyStr.utf8_valid (String (ascii_of_N 255) "") = false
  ∧ PyStr.utf8_valid (String (ascii_of_N 195) "") = false
  ∧ PyStr.utf8_valid (String (ascii_of_N 192) (String (ascii_of_N 128) ""))
    = false
  ∧ PyStr.utf8_valid
      (String (ascii_of_N 237) (String (ascii_of_N 160)
         (String (ascii_of_N 128) ""))) = false.
Proof. by vm_compute. Qed.

Example finditer_ex :
  PyStr.finditer_params 0
    ("LABEL=" +:+ String PyStr.dquote "MY DISC" +:+ String PyStr.dquote " UUID="
     +:+ String PyStr.dquote "ab-1" +:+ String PyStr.dquote "")
  = [("LABEL", "MY DISC"); ("UUID", "ab-1")].
Proof. reflexivity. Qed.

(** ** The rows of the table of contents *)

Section Rows.

Implicit Types (lines : list string) (lengths : list Z).

Lemma omap_lookup_seq lines a c :
  omap (λ i, lines !! (i - 1)%nat) (seq (S a) c) = take c (drop a lines).
Proof.
  revert a. induction c as [|c IH]; intros a; [by rewrite take_0|].
  cbn [seq omap list_omap]. rewrite IH. replace (S a - 1)%nat with a by lia.
  destruct (lines !! a) as [x|] eqn:Hx.
  - by rewrite (drop_S _ _ _ Hx).
  - apply lookup_ge_None in Hx.
    rewrite !drop_ge by lia. by rewrite !take_nil.
Qed.

Lemma slice_rows lines :
  PyStr.slice 6 (-2) lines = take (length lines - 8) (drop 6 lines).
Proof.
  unfold PyStr.slice, PyStr.slice_index.
  change (6 <? 0) with false. change (-2 <? 0) with true. cbv beta iota zeta.
  match goal with
  | |- take (?b - ?a) (drop ?a _) = _ =>
      assert ((8 ≤ length lines ∧ a = 6 ∧ b - a = length lines - 8)
              ∨ (length lines < 8
                 ∧ (b - a = 0 ∨ length lines ≤ a)))%nat as Hcases by lia;
      generalize dependent a; generalize dependent b
  end.
  intros b a [(_ & -> & ->)|(Hlen & Hempty)]; [done|].
  replace (length lines - 8)%nat with 0%nat by lia. rewrite take_0.
  destruct Hempty as [->|Ha]; [done|].
  rewrite drop_ge by lia. by rewrite take_nil.
Qed.

Lemma slice_lines_between lines :
  PyStr.slice 6 (-2) lines = lines_between 7 (length lines - 2) lines.
Proof.
  unfold lines_between. rewrite omap_lookup_seq, slice_rows.
  f_equal. lia.
Qed.

Lemma loop_rows lines lengths :
  cdparanoia_hash_loop lines lengths
  = mapM row_length (filter is_row lines) ≫= λ l, Ok (lengths ++ l).
Proof.
  revert lengths. induction lines as [|line lines IH]; intros lengths.
  - cbn. by rewrite app_nil_r.
  - cbn [cdparanoia_hash_loop]. rewrite filter_cons.
    destruct (decide (is_row line)) as [Hrow|Hrow]; unfold is_row in Hrow.
    + apply Nat.eqb_eq in Hrow as Heq. rewrite Heq. cbn [negb mapM].
      unfold row_length in *.
      destruct (index (PyStr.split_ws line) 1) as [field|e]; [|done].
      cbn. destruct (PyStr.int field) as [n|]; [|done].
      cbn. rewrite IH.
      destruct (mapM _ (filter is_row lines)) as [l|e]; [|done].
      cbn. by rewrite <- app_assoc.
    + apply Nat.eqb_neq in Hrow as Heq. rewrite Heq. cbn [negb]. apply IH.
Qed.

End Rows.

(** What [cdparanoia_hash] hashes: the track lengths of the rows
    among the lines from the seventh to the third-to-last (the slice
    leaves the last two lines out); a line counts only if it has eight
    fields, and what is taken from it is the field at index 1, read as
    an integer; the hash is the builtin hash of that list. *)
Theorem cdparanoia_hash_rows (cdp_str : string) (w : World) :
  cdparanoia_lengths cdp_str = mapM row_length (track_rows 2 cdp_str)
  ∧ cdparanoia_hash cdp_str w
    = (w, cdparanoia_lengths cdp_str ≫= λ lengths,
          Ok (env_hash (env w) lengths)).
Proof.
  split.
  - unfold cdparanoia_lengths, track_rows. cbv zeta.
    rewrite loop_rows, slice_lines_between.
    by destruct (mapM _ _).
  - unfold cdparanoia_hash, lift, builtin_hash, mbind, M_bind.
    by destruct (cdparanoia_lengths cdp_str).
Qed.

(** C9, at the failing input: the table of contents of a disc with two
    tracks as [execute] hands it to [cdparanoia_hash], stripped, so
    that the line of the totals is the last line and the row of the
    second track the second-to-last.  The slice leaves that row out
    together with the line of the totals: the length of the first
    track is all that is hashed, although the rows from the seventh
    line to the second-to-last hold the lengths of both tracks. *)
Theorem last_track_not_hashed :
  cdparanoia_lengths short_table = Ok [240000]
  ∧ mapM row_length (track_rows 1 short_table) = Ok [240000; 180500]
  ∧ ∀ w, cdparanoia_hash short_table w
         = (w, Ok (env_hash (env w) [240000])).
Proof.
  assert (cdparanoia_lengths short_table = Ok [240000]) as Hlengths
    by (by vm_compute).
  split; [exact Hlengths|]. split; [by vm_compute|].
  intros w. unfold cdparanoia_hash, lift, builtin_hash, mbind, M_bind.
  by rewrite Hlengths.
Qed.

(** ** Runs of the monad *)

Lemma bind_run {A B} (m : M A) (k : A → M B) (w : World) :
  (m ≫= k) w
  = match m w with
    | (w', Ok a) => k a w'
    | (w', Raise e) => (w', Raise e)
    end.
Proof. reflexivity. Qed.

Lemma bind_inv {A B} (m : M A) (k : A → M B) (w w' : World) (r : result B) :
  (m ≫= k) w = (w', r) →
  (∃ w1 a, m w = (w1, Ok a) ∧ k a w1 = (w', r))
  ∨ (∃ e, m w = (w', Raise e) ∧ r = Raise e).
Proof.
  rewrite bind_run. destruct (m w) as [w1 [a|e]]; intros H.
  - left. eauto.
  - right. injection H as <- <-. eauto.
Qed.

Lemma try_except_inv {A} (body : M A) cls (handler : exn → M A) w w' r :
  try_except body cls handler w = (w', r) →
  (body w = (w', r) ∧ match r with Raise e => cls e = false | Ok _ => True end)
  ∨ (∃ w1 e, body w = (w1, Raise e) ∧ cls e = true ∧ handler e w1 = (w', r)).
Proof.
  unfold try_except. destruct (body w) as [w1 [a|e]] eqn:Hbody.
  - intros [= <- <-]. by left.
  - destruct (cls e) eqn:Hcls.
    + intros H. right. eauto.
    + intros [= <- <-]. by left.
Qed.

(** The decoding of captured output changes nothing in the world. *)
Lemma decoded_run (b : string) (w : World) :
  (lift (decode b) ≫= λ text, mret (Some text)) w
  = (w, decode b ≫= λ text, Ok (Some text)).
Proof. rewrite bind_run. unfold lift. by destruct (decode b). Qed.

(** *** What a computation adds to the trace *)

Lemma emits_run {A} (P : event → Prop) (m : M A) w w' r :
  emits P m → m w = (w', r) →
  ∃ added, trace w' = added ++ trace w ∧ Forall P added.
Proof. intros Hm Hrun. specialize (Hm w). by rewrite Hrun in Hm. Qed.

Lemma emits_weaken {A} (P Q : event → Prop) (m : M A) :
  (∀ e, P e → Q e) → emits P m → emits Q m.
Proof.
  intros HPQ Hm w. destruct (Hm w) as (added & ? & HP).
  exists added. split; [done|]. eapply Forall_impl; eauto.
Qed.

Lemma emits_ret {A} P (a : A) : emits P (mret a).
Proof. intros w. by exists []. Qed.

Lemma emits_raise {A} P e : emits P (raise e : M A).
Proof. intros w. by exists []. Qed.

Lemma emits_lift {A} P (r : result A) : emits P (lift r).
Proof. intros w. by exists []. Qed.

Lemma emits_bind {A B} P (m : M A) (k : A → M B) :
  emits P m → (∀ a, emits P (k a)) → emits P (m ≫= k).
Proof.
  intros Hm Hk w. rewrite bind_run.
  destruct (Hm w) as (added & Hadded & HP).
  destruct (m w) as [w1 [a|e]]; cbn in Hadded.
  - destruct (Hk a w1) as (added' & Hadded' & HP').
    exists (added' ++ added). rewrite Hadded', Hadded, app_assoc.
    split; [done|]. by apply Forall_app.
  - by exists added.
Qed.

Lemma emits_try_except {A} P (body : M A) cls (handler : exn → M A) :
  emits P body → (∀ e, emits P (handler e)) →
  emits P (try_except body cls handler).
Proof.
  intros Hbody Hhandler w. unfold try_except.
  destruct (Hbody w) as (added & Hadded & HP).
  destruct (body w) as [w1 [a|e]]; cbn in Hadded; [by exists added|].
  destruct (cls e); [|by exists added].
  destruct (Hhandler e w1) as (added' & Hadded' & HP').
  exists (added' ++ added). rewrite Hadded', Hadded, app_assoc.
  split; [done|]. by apply Forall_app.
Qed.

Lemma emits_for_each {X} P (l : list X) (body : X → M unit) :
  (∀ x, emits P (body x)) → emits P (for_each l body).
Proof.
  intros Hbody. induction l as [|x l IH]; cbn [for_each].
  - apply emits_ret.
  - apply emits_bind; auto.
Qed.

Lemma emits_for_return {X R} P (l : list X) (body : X → M (option R)) :
  (∀ x, emits P (body x)) → emits P (for_return l body).
Proof.
  intros Hbody. induction l as [|x l IH]; cbn [for_return].
  - apply emits_ret.
  - apply emits_bind; [done|]. intros [v|]; [apply emits_ret|done].
Qed.

(** One event, then a result that depends on the world only. *)
Lemma emits_one {A} (P : event → Prop) (m : M A) (e : World → event) :
  (∀ w, trace (m w).1 = e w :: trace w) → (∀ w, P (e w)) → emits P m.
Proof.
  intros Hm HP w. exists [e w]. split; [apply Hm|]. by constructor.
Qed.

Lemma emits_log P lvl msg : P (ELog lvl msg) → emits P (log lvl msg).
Proof. intros HP. by apply (emits_one P _ (λ _, ELog lvl msg)). Qed.

Lemma emits_exists P p : (∀ b, P (EExists p b)) → emits P (exists_ p).
Proof.
  intros HP.
  by apply (emits_one P _ (λ w, EExists p
    match FS.lookup (FS.resolve (cwd w) p) (fs w) with
    | Some _ => true | None => false end)).
Qed.

Lemma emits_makedirs P p : P (EMakedirs p) → emits P (makedirs p).
Proof.
  intros HP. apply (emits_one P _ (λ _, EMakedirs p)); [|done].
  intros w. unfold makedirs. by destruct (FS.mkdirs _ _).
Qed.

Lemma emits_listdir P p : P (EListdir p) → emits P (listdir p).
Proof.
  intros HP. apply (emits_one P _ (λ _, EListdir p)); [|done].
  intros w. unfold listdir. by destruct (FS.lookup _ _) as [[]|].
Qed.

Lemma emits_rmdir P p : P (ERmdir p) → emits P (rmdir p).
Proof.
  intros HP. apply (emits_one P _ (λ _, ERmdir p)); [|done].
  intros w. unfold rmdir. cbv zeta.
  destruct (FS.resolve (cwd w) p) as [|c path]; [done|].
  by destruct (FS.lookup _ _) as [[|[]]|].
Qed.

Lemma emits_remove P p : P (ERemove p) → emits P (remove p).
Proof.
  intros HP. apply (emits_one P _ (λ _, ERemove p)); [|done].
  intros w. unfold remove. by destruct (FS.lookup _ _) as [[]|].
Qed.

Lemma emits_rmtree P p : P (ERmtree p) → emits P (rmtree_ignore_errors p).
Proof.
  intros HP. apply (emits_one P _ (λ _, ERmtree p)); [|done].
  intros w. unfold rmtree_ignore_errors. cbv zeta.
  destruct (FS.resolve (cwd w) p) as [|c path]; [done|].
  by destruct (FS.lookup _ _) as [[]|].
Qed.

Lemma emits_move P src dst : P (EMove src dst) → emits P (move src dst).
Proof.
  intros HP. apply (emits_one P _ (λ _, EMove src dst)); [|done].
  intros w. unfold move. cbv zeta.
  by match goal with |- context [match ?m with Ok _ => _ | Raise _ => _ end] =>
    destruct m end.
Qed.

Lemma emits_getsize P p : (∀ r, P (EGetsize p r)) → emits P (getsize p).
Proof.
  intros HP. by apply (emits_one P _ (λ w, EGetsize p (file_size w p))).
Qed.

Lemma emits_sleep P t : P (ESleep t) → emits P (sleep t).
Proof. intros HP. by apply (emits_one P _ (λ _, ESleep t)). Qed.

Lemma emits_chdir P p : P (EChdir p) → emits P (chdir p).
Proof.
  intros HP. apply (emits_one P _ (λ _, EChdir p)); [|done].
  intros w. unfold chdir. by destruct (FS.lookup _ _) as [[]|].
Qed.

Lemma emits_getcwd P : emits P getcwd.
Proof. intros w. by exists []. Qed.

Lemma emits_abspath P p : emits P (abspath p).
Proof. intros w. by exists []. Qed.

Lemma emits_builtin_hash P t : emits P (builtin_hash t).
Proof. intros w. by exists []. Qed.

Lemma emits_is_set P : emits P is_set.
Proof. intros w. by exists []. Qed.

Lemma emits_mounts_append P p : emits P (mounts_append p).
Proof. intros w. by exists []. Qed.

Lemma emits_update_key P s :
  P (EUpdateKey s) → emits P (updateMakeMkvKey s).
Proof.
  intros HP. apply (emits_one P _ (λ _, EUpdateKey s)); [|done].
  intros w. unfold updateMakeMkvKey. by destruct (env_update_key _ _ _ _).
Qed.

Lemma emits_log_subprocess_output P pipe :
  (∀ line, P (ELog DEBUG ("SUBPROCESS: " +:+ line))) →
  emits P (log_subprocess_output pipe).
Proof.
  intros HP. apply emits_for_each. intros line.
  apply emits_bind; [apply emits_lift|]. intros text. by apply emits_log.
Qed.

Lemma emits_execute P cmd capture cwd_arg :
  (∀ dir r, P (EExec cmd capture dir r)) →
  (∀ line, P (ELog DEBUG ("SUBPROCESS: " +:+ line))) →
  emits P (execute cmd capture cwd_arg).
Proof.
  intros HP Hlog w. unfold execute. cbv zeta.
  destruct (env_exec _ _ _ _ _) as [r n].
  set (w1 := tick _).
  assert (trace w1 = EExec cmd capture
            match cwd_arg with
            | Some p => FS.resolve (cwd w) p
            | None => cwd w
            end r :: trace w) as Hw1 by done.
  assert (∀ {A} (m : M A), emits P m →
            ∃ added, trace (m w1).1 = added ++ trace w ∧ Forall P added)
    as Hcont.
  { intros A m Hm. destruct (Hm w1) as (added & Hadded & Hall).
    exists (added ++ [EExec cmd capture
            match cwd_arg with
            | Some p => FS.resolve (cwd w) p
            | None => cwd w
            end r]).
    rewrite Hadded, Hw1, <- app_assoc. split; [done|].
    apply Forall_app. split; [done|]. by constructor. }
  assert (∃ added, trace w1 = added ++ trace w ∧ Forall P added) as Hone.
  { destruct (Hcont _ (mret tt) (emits_ret _ _)) as (added & ? & ?). eauto. }
  destruct r as [code output|kind]; [|exact Hone].
  destruct capture.
  - destruct (code =? 0); [|exact Hone].
    apply Hcont. apply emits_bind; [apply emits_lift|].
    intros text. apply emits_ret.
  - apply Hcont. apply emits_bind.
    + by apply emits_log_subprocess_output.
    + intros _. destruct (negb _); [apply emits_raise|apply emits_ret].
Qed.

(** ** The file system *)

Lemma append_assoc (a b c : string) : (a +:+ b) +:+ c = a +:+ b +:+ c.
Proof.
  induction a as [|x a IH]; [done|].
  change (String x ((a +:+ b) +:+ c) = String x (a +:+ b +:+ c)).
  by rewrite IH.
Qed.

Lemma set_get (name : string) (n : node) (es : list (string * node)) :
  FS.get name es = Some n → FS.set name n es = es.
Proof.
  induction es as [|[k m] es IH]; cbn; [done|].
  destruct (String.eqb k name); [by intros [= ->]|].
  intros H. by rewrite IH.
Qed.

Lemma mkdirs_dir (path : list string) (n : node) (es : list (string * node)) :
  FS.lookup path n = Some (Dir es) → FS.mkdirs path n = Ok n.
Proof.
  revert n. induction path as [|c path IH]; intros n; cbn.
  - by intros [= ->].
  - destruct n as [size|es0]; [done|].
    destruct (FS.get c es0) as [m|] eqn:Hget; [|done].
    intros Hm. cbn. rewrite (IH _ Hm). by rewrite set_get.
Qed.

(** ** A disc that was ripped is not ripped again *)

Lemma getitem_ok {V} (d : gmap string V) k v : getitem d k = Ok v ↔ d !! k = Some v.
Proof. unfold getitem. destruct (d !! k); naive_solver. Qed.

Lemma disc_name_ok blkid_params id :
  disc_name blkid_params = Ok id →
  ∃ label uuid, blkid_params !! "LABEL" = Some label
                ∧ blkid_params !! "UUID" = Some uuid
                ∧ id = label +:+ "-" +:+ uuid.
Proof.
  unfold disc_name, getitem.
  destruct (blkid_params !! "LABEL") as [label|]; [|done].
  destruct (blkid_params !! "UUID") as [uuid|]; [|done].
  intros [= <-]. eauto.
Qed.

Lemma folder_found (l : list string) (id : string) (w : World) :
  (∃ folder, folder ∈ l ∧ PyStr.endswith folder id = true) →
  ∃ folder,
    for_return l (λ folder,
      if PyStr.endswith folder id then
        log INFO ("Redbook already ripped: " +:+ folder);;
        mret (Some tt)
      else mret None) w
    = (emit (ELog INFO ("Redbook already ripped: " +:+ folder)) w, Ok (Some tt)).
Proof.
  induction l as [|x l IH]; intros (folder & Hin & Hends).
  - by apply elem_of_nil in Hin.
  - cbn [for_return]. rewrite bind_run.
    destruct (PyStr.endswith x id) eqn:Hx.
    + by exists x.
    + apply elem_of_cons in Hin as [->|Hin]; [congruence|].
      destruct IH as [folder' IH]; [by eauto|]. exists folder'. apply IH.
Qed.

(** C1: for a disc whose identity is in the output tree already, the
    rip function of its kind returns normally, runs no external
    command and leaves the file system as it was. *)
Theorem rip_is_idempotent (self : RipThread.t) (d : disc) (w : World) :
  already_ripped self d w →
  ∃ w', rip self d w = (w', Ok tt)
        ∧ fs w' = fs w
        ∧ execs (trace w') = execs (trace w).
Proof.
  intros (id & Hid & Hout). destruct d as [cdp_str|blkid_params drive|blkid_params];
    cbn [rip identity] in *.
  - destruct Hout as (entries & folder & Hdir & Hin & Hends).
    destruct (cdparanoia_lengths cdp_str) as [lengths|] eqn:Hlengths; [|done].
    injection Hid as <-. unfold out_redbook, redbook_identity in *.
    unfold RipThread.rip_redbook.
    rewrite bind_run. unfold cdparanoia_hash at 1.
    rewrite bind_run. unfold lift at 1. rewrite Hlengths.
    unfold builtin_hash at 1.
    rewrite bind_run. unfold makedirs at 1. rewrite (mkdirs_dir _ _ _ Hdir).
    rewrite bind_run. unfold listdir at 1.
    cbn [emit with_fs fs cwd]. destruct w as [n dir ms t c e]; cbn in *.
    rewrite Hdir. rewrite bind_run.
    edestruct folder_found as [folder' ->]; [by eauto|].
    by eexists.
  - apply disc_name_ok in Hid as (label & uuid & Hlabel & Huuid & ->).
    destruct Hout as [n Hn]. unfold out_dvd in Hn.
    unfold RipThread.rip_dvd.
    rewrite bind_run. unfold lift at 1, getitem at 1. rewrite Hlabel.
    rewrite bind_run. unfold lift at 1, getitem at 1. rewrite Huuid.
    rewrite bind_run. unfold exists_ at 1. rewrite Hn.
    by eexists.
  - apply disc_name_ok in Hid as (label & uuid & Hlabel & Huuid & ->).
    destruct Hout as [n Hn]. unfold out_iso in Hn.
    unfold RipThread.rip_data_disc.
    rewrite bind_run. unfold lift at 1, getitem at 1. rewrite Hlabel.
    rewrite bind_run. unfold lift at 1, getitem at 1. rewrite Huuid.
    rewrite bind_run. unfold exists_ at 1.
    rewrite !append_assoc in *.
    change ("/iso" +:+ "/" +:+ ?x) with ("/iso/" +:+ x). rewrite Hn.
    by eexists.
Qed.

Lemma rip_is_idempotent_witness :
  let skipped d :=
    already_ripped Sample.rip_thread d Discs.ripped_world
    ∧ ∃ w', rip Sample.rip_thread d Discs.ripped_world = (w', Ok tt)
            ∧ fs w' = fs Discs.ripped_world
            ∧ execs (trace w') = execs (trace Discs.ripped_world) in
  skipped Discs.dvd ∧ skipped Discs.data ∧ skipped Discs.audio.
Proof.
  assert (already_ripped Sample.rip_thread Discs.dvd Discs.ripped_world)
    as Hdvd.
  { exists "MOVIE-ABCD-1234". split; [by vm_compute|].
    vm_compute. by eexists. }
  assert (already_ripped Sample.rip_thread Discs.data Discs.ripped_world)
    as Hdata.
  { exists "MOVIE-ABCD-1234". split; [by vm_compute|].
    vm_compute. by eexists. }
  assert (already_ripped Sample.rip_thread Discs.audio Discs.ripped_world)
    as Haudio.
  { exists "a1522a25367bcc". split; [by vm_compute|].
    eexists _, "Album-a1522a25367bcc". split; [by vm_compute|].
    split; [|by vm_compute]. cbn. apply list_elem_of_In. cbn. auto. }
  repeat split; try assumption.
  - exact (rip_is_idempotent Sample.rip_thread Discs.dvd _ Hdvd).
  - exact (rip_is_idempotent Sample.rip_thread Discs.data _ Hdata).
  - exact (rip_is_idempotent Sample.rip_thread Discs.audio _ Haudio).
Defined.

(** *** Deriving [emits] along the text of a function

    [emits_steps] follows the structure of a computation and leaves one
    goal for each event that may be added. *)

Ltac emits_step :=
  first
    [ apply emits_getcwd | apply emits_abspath | apply emits_builtin_hash
    | apply emits_is_set | apply emits_mounts_append
    | apply emits_log | apply emits_exists; intros ?
    | apply emits_makedirs | apply emits_listdir | apply emits_rmdir
    | apply emits_remove | apply emits_rmtree | apply emits_move
    | apply emits_getsize; intros ? | apply emits_sleep | apply emits_chdir
    | apply emits_update_key
    | apply emits_execute; [intros ? ?|intros ?]
    | apply emits_lift
    | apply emits_try_except; [|intros ?]
    | apply emits_for_each; intros ?
    | apply emits_for_return; intros ?
    | match goal with
      | |- emits _ (mbind _ _) => apply emits_bind; [|intros ?]
      | |- emits _ (mret _) => apply emits_ret
      | |- emits _ (raise _) => apply emits_raise
      | |- emits _ (if ?b then _ else _) => destruct b
      | |- emits _ (match ?x with _ => _ end) => destruct x
      | |- emits _ (let _ := _ in _) => cbv zeta
      end
    | progress unfold RipThread.rip_redbook, RipThread.rip_data_disc,
        RipThread.rip_dvd, cdparanoia_hash, mount, unmount, eject, trysudo ].

Ltac emits_steps := repeat emits_step.

Lemma emits_trysudo (P : event → Prop) cmd :
  (∀ capture dir r, P (EExec cmd capture dir r)) →
  (∀ capture dir r, P (EExec ("sudo" :: cmd) capture dir r)) →
  (∀ lvl msg, P (ELog lvl msg)) →
  emits P (trysudo cmd).
Proof. intros. unfold trysudo. emits_steps; auto. Qed.

(** ** The identity of a Redbook disc *)

Fixpoint of_pos_lower_hex (p : positive) (rest : string) {struct p} :
  all_chars is_lower_hex rest = true →
  all_chars is_lower_hex (HexString.Raw.of_pos p rest) = true.
Proof.
  intros Hrest.
  do 4 try destruct p as [p|p|]; cbn [HexString.Raw.of_pos];
    first [ apply of_pos_lower_hex; cbn; exact Hrest | cbn; exact Hrest ].
Qed.

Lemma identity_digits (h : Z) :
  let id := PyStr.sdrop 2 (PyStr.hex (Z.abs h)) in
  all_chars is_lower_hex id = true ∧ hex_value id = Z.abs h ∧ id ≠ "".
Proof.
  assert (∀ p, let id := PyStr.sdrop 2 (PyStr.hex (Z.pos p)) in
               all_chars is_lower_hex id = true
               ∧ hex_value id = Z.pos p ∧ id ≠ "") as Hpos.
  { intros p. cbn. unfold hex_value.
    pose proof (HexString.Raw.to_N_of_pos p "" 0) as Hvalue. cbn in Hvalue.
    split; [by apply of_pos_lower_hex|]. split.
    - by rewrite Hvalue.
    - intros Hempty. by rewrite Hempty in Hvalue. }
  destruct h as [|p|p]; [done|apply Hpos..].
Qed.

Lemma cdparanoia_hash_run (cdp_str : string) (lengths : list Z) (w : World) :
  cdparanoia_lengths cdp_str = Ok lengths →
  cdparanoia_hash cdp_str w = (w, Ok (env_hash (env w) lengths)).
Proof.
  intros Hlengths. unfold cdparanoia_hash. rewrite bind_run.
  unfold lift. by rewrite Hlengths.
Qed.

Lemma mkdirs_raises (path : list string) (n : node) (e : exn) :
  FS.mkdirs path n = Raise e → ∃ kind, e = OSError kind.
Proof.
  revert n. induction path as [|c path IH]; intros [size|es]; cbn;
    try (intros [= <-]; eauto); try done.
  destruct (FS.mkdirs path _) eqn:Hrest; [done|].
  intros [= <-]. eauto.
Qed.

Lemma makedirs_inv (p : string) (w w' : World) (r : result unit) :
  makedirs p w = (w', r) →
  trace w' = EMakedirs p :: trace w
  ∧ cwd w' = cwd w ∧ env w' = env w
  ∧ (r = Ok tt ∨ ∃ kind, r = Raise (OSError kind)).
Proof.
  unfold makedirs. destruct (FS.mkdirs _ _) as [n|e] eqn:Hmk; intros [= <- <-].
  - eauto.
  - apply mkdirs_raises in Hmk as [kind ->]. eauto 6.
Qed.

Lemma listdir_inv (p : string) (w w' : World) (r : result (list string)) :
  listdir p w = (w', r) →
  w' = emit (EListdir p) w
  ∧ ((∃ es, FS.lookup (FS.resolve (cwd w) p) (fs w) = Some (Dir es)
            ∧ r = Ok es.*1)
     ∨ ∃ kind, r = Raise (OSError kind)).
Proof.
  unfold listdir. destruct (FS.lookup _ _) as [[size|es]|]; intros [= <- <-];
    eauto 6.
Qed.

Lemma folder_search (l : list string) (id : string) (w : World) :
  let search :=
    for_return l (λ folder,
      if PyStr.endswith folder id then
        log INFO ("Redbook already ripped: " +:+ folder);;
        mret (Some tt)
      else mret None) w in
  (∃ folder, folder ∈ l ∧ PyStr.endswith folder id = true
     ∧ search = (emit (ELog INFO ("Redbook already ripped: " +:+ folder)) w,
                 Ok (Some tt)))
  ∨ ((∀ folder, folder ∈ l → PyStr.endswith folder id = false)
     ∧ search = (w, Ok None)).
Proof.
  induction l as [|x l IH]; cbn zeta.
  - right. split; [|done]. intros folder Hin. by apply elem_of_nil in Hin.
  - cbn [for_return]. rewrite bind_run.
    destruct (PyStr.endswith x id) eqn:Hx.
    + left. exists x. split; [by left|done].
    + destruct IH as [(folder & Hin & Hends & Hrun)|[Hnone Hrun]].
      * left. exists folder. split; [by right|done].
      * right. split; [|done]. intros folder [->|Hin]%elem_of_cons; auto.
Qed.

(** C10: the identity of a Redbook disc is made of the lowercase
    hexadecimal digits, with no sign and no base prefix, of the
    absolute value of the hash of the tuple of track lengths in the
    order of the table; it is what [rip_redbook] looks for in the
    output tree and announces, and it depends on nothing but the track
    lengths and the hash function. *)
Theorem redbook_identity_is_hex (cdp_str : string) (lengths : list Z)
    (w : World) :
  cdparanoia_lengths cdp_str = Ok lengths →
  let h := env_hash (env w) lengths in
  let id := redbook_identity (env_hash (env w)) lengths in
  cdparanoia_hash cdp_str w = (w, Ok h)
  ∧ all_chars is_lower_hex id = true
  ∧ id ≠ ""
  ∧ hex_value id = Z.abs h
  ∧ (∀ self w' r,
       RipThread.rip_redbook self cdp_str w = (w', r) →
       (∃ folder,
          PyStr.endswith folder id = true
          ∧ head (trace w')
            = Some (ELog INFO ("Redbook already ripped: " +:+ folder)))
       ∨ ELog INFO ("Ripping redbook: " +:+ id) ∈ trace w'
       ∨ ∃ kind, r = Raise (OSError kind))
  ∧ (∀ w2, env_hash (env w2) = env_hash (env w) →
       identity w2 (Redbook cdp_str) = Ok id).
Proof.
  intros Hlengths h id.
  destruct (identity_digits h) as (Hhex & Hvalue & Hne).
  split; [by apply cdparanoia_hash_run|]. do 3 (split; [done|]). split.
  - intros self w' r. unfold RipThread.rip_redbook.
    rewrite bind_run, (cdparanoia_hash_run _ _ _ Hlengths).
    fold h. change (PyStr.sdrop 2 (PyStr.hex (Z.abs h))) with id.
    cbv zeta. rewrite bind_run.
    destruct (makedirs _ w) as [w1 r1] eqn:Hmk.
    apply makedirs_inv in Hmk as (Ht1 & _ & _ & [->|[kind ->]]);
      [|intros [= <- <-]; eauto].
    rewrite bind_run.
    destruct (listdir _ w1) as [w2 r2] eqn:Hls.
    apply listdir_inv in Hls as (-> & [(es & _ & ->)|[kind ->]]);
      [|intros [= <- <-]; eauto].
    rewrite bind_run.
    destruct (folder_search es.*1 id (emit (EListdir (RipThread.out_root self +:+ "/redbook")) w1))
      as [(folder & _ & Hends & ->)|[_ ->]].
    + intros [= <- <-]. left. eauto.
    + rewrite bind_run. unfold log at 1. intros Hrest.
      right. left.
      match type of Hrest with ?m ?w3 = _ =>
        destruct (emits_run (λ _, True) m w3 w' r) as (added & -> & _);
          [|done|] end.
      * emits_steps; auto.
      * apply elem_of_app. right. by left.
  - intros w2 Hhash. cbn. rewrite Hlengths. cbn. by rewrite Hhash.
Qed.

Lemma redbook_identity_is_hex_witness :
  cdparanoia_lengths Sample.cdp_table = Ok [240000; 180500; 300200]
  ∧ redbook_identity CPython.tuplehash [240000; 180500; 300200]
    = "a1522a25367bcc"
  ∧ hex_value "a1522a25367bcc"
    = Z.abs (CPython.tuplehash [240000; 180500; 300200]).
Proof.
  assert (cdparanoia_lengths Sample.cdp_table = Ok [240000; 180500; 300200])
    as Hlengths by (by vm_compute).
  split; [exact Hlengths|]. split; [by vm_compute|].
  exact (proj1 (proj2 (proj2 (proj2
    (redbook_identity_is_hex Sample.cdp_table _ Discs.ripped_world Hlengths))))).
Defined.

(** The hash of a tuple depends on the order of its items. *)
Example identity_order :
  redbook_identity CPython.tuplehash [180500; 240000; 300200]
  ≠ redbook_identity CPython.tuplehash [240000; 180500; 300200].
Proof. by vm_compute. Qed.

(** ** The stability check *)

(** C6: the check samples the size of the file, sleeps for the
    interval and samples the size again, in the world as the sleep left
    it; with both samples taken it succeeds exactly when they are
    equal and raises when they differ. *)
Theorem stability_check (self : TranscodeThread.t) (file_path : string)
    (wait_time : Z) (w : World) :
  let slept := with_fs (env_sleep (env w) (clock w) wait_time (fs w)) w in
  ∃ w' r,
    TranscodeThread._wait_for_file_stable self file_path wait_time w = (w', r)
    ∧ match file_size w file_path, file_size slept file_path with
      | Ok size1, Ok size2 =>
          trace w'
          = [ELog DEBUG ("size2: " +:+ PyStr.str_Z size2);
             EGetsize file_path (Ok size2);
             ESleep wait_time;
             ELog DEBUG ("size1: " +:+ PyStr.str_Z size1);
             EGetsize file_path (Ok size1)] ++ trace w
          ∧ (r = Ok tt ↔ size1 = size2)
          ∧ (size1 ≠ size2 → ∃ msg, r = Raise (ExceptionMsg msg))
      | Ok size1, Raise e =>
          r = Raise e ∧ head (trace w') = Some (EGetsize file_path (Raise e))
      | Raise e, _ =>
          r = Raise e ∧ trace w' = EGetsize file_path (Raise e) :: trace w
      end.
Proof.
  intros slept. unfold TranscodeThread._wait_for_file_stable.
  rewrite bind_run. unfold getsize at 1. cbv zeta.
  destruct (file_size w file_path) as [size1|e] eqn:Hsize1; [|by eexists _, _].
  rewrite bind_run. unfold log at 1.
  rewrite bind_run. unfold sleep at 1. cbv zeta.
  rewrite bind_run. unfold getsize at 1. cbv zeta.
  change (file_size (tick _) file_path) with (file_size slept file_path).
  destruct (file_size slept file_path) as [size2|e] eqn:Hsize2;
    [|by eexists _, _].
  rewrite bind_run. unfold log at 1.
  destruct (bool_decide (size1 ≠ size2)) eqn:Hcmp.
  - apply bool_decide_eq_true in Hcmp. eexists _, _. split; [done|].
    split; [done|]. split; [|by eauto]. split; [done|]. by intros.
  - apply bool_decide_eq_false in Hcmp.
    assert (size1 = size2) as -> by (destruct (decide (size1 = size2)); done).
    eexists _, _. split; [done|]. split; [done|]. split; done.
Qed.

(** ** Failures in the transcode loop *)

(** C5, at the failing input: two staged discs, the only file of the
    first still growing.  The failure of that file is caught, but the
    directory for the transcoded files of the first disc was never
    made, listing it raises, and the cycle ends before the second disc
    is looked at. *)
Theorem growing_file_ends_cycle :
  let '(w', r) :=
    TranscodeThread.loop_step Staged.thread
      (Sample.world Staged.environment Staged.two_discs) in
  r = Raise (OSError FileNotFoundError)
  ∧ head (trace w') = Some (EListdir "./wip/dvd_transcode/A")
  ∧ commands (trace w') = []
  ∧ FS.lookup ["wip"; "dvd"; "B"; "u00.mkv"] (fs w') = Some (File 200)
  ∧ FS.lookup ["out"] (fs w') = None.
Proof. by vm_compute. Qed.

(** The same two discs when nothing grows: both are transcoded. *)
Example complete_files_transcoded :
  let '(w', r) :=
    TranscodeThread.loop_step Staged.thread
      (Sample.world (Sample.environment Sample.NoDisc true) Staged.two_discs) in
  r = Ok tt
  ∧ FS.lookup ["out"; "dvd"; "A"; "t00.mp4"] (fs w') = Some (File 2048)
  ∧ FS.lookup ["out"; "dvd"; "B"; "u00.mp4"] (fs w') = Some (File 2048).
Proof. by vm_compute. Qed.

(** Within one staged disc the failure of a file is caught: the file
    next to the growing one is transcoded in the same cycle. *)
Example sibling_file_transcoded :
  let '(w', r) :=
    TranscodeThread.loop_step Staged.thread
      (Sample.world Staged.environment Staged.two_files) in
  r = Ok tt
  ∧ FS.lookup ["out"; "dvd"; "A"; "t01.mp4"] (fs w') = Some (File 2048)
  ∧ FS.lookup ["wip"; "dvd"; "A"; "t00.mkv"] (fs w') = Some (File 103).
Proof. by vm_compute. Qed.

(** *** Chains of steps *)

Lemma grows_trans w1 w2 w3 a b :
  grows_by w1 w2 a → grows_by w2 w3 b → grows_by w1 w3 (b ++ a).
Proof. unfold grows_by. intros -> ->. by rewrite app_assoc. Qed.

Lemma grows_run {A} (m : M A) w w' r :
  emits (λ _, True) m → m w = (w', r) → ∃ added, grows_by w w' added.
Proof. intros Hm Hrun. destruct (emits_run _ _ _ _ _ Hm Hrun) as (? & ? & _). eauto. Qed.

Lemma grows_strip e w w' added :
  grows_by (emit e w) w' added → grows_by w w' (added ++ [e]).
Proof. unfold grows_by. cbn. intros ->. by rewrite <- app_assoc. Qed.

(** [grow H] turns the run [H : m w = (w', r)] into the fact that the
    trace grew; [chain] joins such facts end to end. *)
Ltac grow H :=
  let added := fresh "added" in
  let G := fresh "G" in
  let Hm := fresh "Hm" in
  match type of H with
  | ?m ?w = (?w', ?r) =>
      assert (emits (λ _, True) m) as Hm by (emits_steps; auto);
      destruct (grows_run m w w' r Hm H) as [added G]; clear Hm;
      repeat apply grows_strip in G
  end.

Ltac chain :=
  repeat match goal with
         | H1 : grows_by ?a ?b _, H2 : grows_by ?b ?c _ |- _ =>
             pose proof (grows_trans _ _ _ _ _ H1 H2); clear H1 H2
         end.

(** ** What the primitives do to the trace *)

Lemma bind_ok_inv {A B} (m : M A) (k : A → M B) (w w' : World) (b : B) :
  (m ≫= k) w = (w', Ok b) →
  ∃ w1 a, m w = (w1, Ok a) ∧ k a w1 = (w', Ok b).
Proof.
  intros [(w1 & a & ? & ?)|(e & _ & [=])]%bind_inv. eauto.
Qed.

Lemma exists_run (p : string) (w : World) :
  exists_ p w
  = (emit (EExists p (bool_decide (present w p))) w,
     Ok (bool_decide (present w p))).
Proof.
  unfold exists_, present. destruct (FS.lookup _ _) as [n|].
  - by rewrite bool_decide_eq_true_2.
  - rewrite bool_decide_eq_false_2; [done|]. by intros [? [=]].
Qed.

Lemma log_run (lvl : level) (msg : string) (w : World) :
  log lvl msg w = (emit (ELog lvl msg) w, Ok tt).
Proof. done. Qed.

(** The loop of [log_subprocess_output]: the lines are logged in
    their order until one cannot be decoded. *)
Lemma log_lines_run (lines : list string) (w : World) :
  for_each lines (λ line,
    text ← lift (decode line); log DEBUG ("SUBPROCESS: " +:+ text)) w
  = (foldl (λ w line, emit (ELog DEBUG ("SUBPROCESS: " +:+ line)) w) w
       (decoded_prefix lines),
     if forallb PyStr.utf8_valid lines then Ok tt
     else Raise UnicodeDecodeError).
Proof.
  revert w. induction lines as [|line lines IH]; intros w; [done|].
  cbn [for_each forallb decoded_prefix]. rewrite !bind_run.
  unfold lift, decode. destruct (PyStr.utf8_valid line); [|done].
  by rewrite log_run, IH.
Qed.

Lemma log_lines_added (lines : list string) (w : World) :
  trace (foldl (λ w line, emit (ELog DEBUG ("SUBPROCESS: " +:+ line)) w)
           w lines)
  = rev ((λ line, ELog DEBUG ("SUBPROCESS: " +:+ line)) <$> lines) ++ trace w.
Proof.
  revert w. induction lines as [|line lines IH]; intros w; [done|].
  cbn [foldl fmap list_fmap rev]. by rewrite IH, <- app_assoc.
Qed.

Lemma completed_succeeded (r : exec_result) : completed r → succeeded r.
Proof. intros (output & -> & _). by eexists. Qed.

Lemma rmtree_inv (p : string) (w w' : World) (r : result unit) :
  rmtree_ignore_errors p w = (w', r) →
  r = Ok tt ∧ grows_by w w' [ERmtree p].
Proof.
  unfold rmtree_ignore_errors. cbv zeta.
  destruct (FS.resolve (cwd w) p) as [|c path];
    [|destruct (FS.lookup _ _) as [[]|]]; by intros [= <- <-].
Qed.

Lemma execute_inv cmd capture cwd_arg (w w' : World) (r : result (option string)) :
  execute cmd capture cwd_arg w = (w', r) →
  ∃ added dir res, grows_by w w' (added ++ [EExec cmd capture dir res]).
Proof.
  unfold execute. cbv zeta.
  destruct (env_exec _ _ _ _ _) as [res n].
  set (w1 := tick _).
  assert (trace w1 = EExec cmd capture
            match cwd_arg with
            | Some p => FS.resolve (cwd w) p
            | None => cwd w
            end res :: trace w) as Hw1 by done.
  destruct res as [code output|kind].
  - destruct capture.
    + destruct (code =? 0); [rewrite decoded_run|]; intros [= <- <-];
        eexists [], _, _; exact Hw1.
    + intros Hrun.
      eapply (emits_run (λ _, True)) in Hrun as (added & Hadded & _).
      * eexists added, _, _. unfold grows_by.
        by rewrite Hadded, Hw1, <- app_assoc.
      * emits_steps; auto.
  - intros [= <- <-]. eexists [], _, _; exact Hw1.
Qed.

(** ** A rip in progress is no reason to skip *)

(** C3, as stated: a rip-in-progress directory of the disc would make
    the rip return without a command and without touching that
    directory.  In [Interrupted.world] such a directory exists; the
    rip removes it and extracts the disc. *)
Lemma rip_in_progress_not_respected :
  ¬ (∀ self blkid_params drive w id,
       disc_name blkid_params = Ok id →
       present w (rip_in_progress_dvd self id) →
       ∃ w', RipThread.rip_dvd self blkid_params drive w = (w', Ok tt)
             ∧ execs (trace w') = execs (trace w)
             ∧ FS.lookup (FS.resolve (cwd w) (rip_in_progress_dvd self id))
                 (fs w')
               = FS.lookup (FS.resolve (cwd w) (rip_in_progress_dvd self id))
                   (fs w)).
Proof.
  intros H.
  destruct (H Sample.rip_thread Discs.params "/dev/sr0" Interrupted.world
              "MOVIE-ABCD-1234") as (w' & Hrun & Hexecs & _).
  - by vm_compute.
  - vm_compute. by eexists.
  - assert (w' = (RipThread.rip_dvd Sample.rip_thread Discs.params "/dev/sr0"
                    Interrupted.world).1) as -> by (by rewrite Hrun).
    vm_compute in Hexecs. discriminate Hexecs.
Qed.

(** C3, amended.  For a DVD it is the staged directory [wip/dvd/<id>]
    that makes [rip_dvd] return without a command and without a change
    to the file system.  The rip-in-progress directory
    [wip/dvd_rip/<id>] is not looked at: when the disc is neither in
    the output tree nor staged, a rip that returns normally has removed
    that directory and run the extraction tool. *)
Theorem staged_dvd_is_skipped (self : RipThread.t)
    (blkid_params : gmap string string) (drive : string) (w : World)
    (id : string) :
  disc_name blkid_params = Ok id →
  (present w (staged_dvd self id) →
   ∃ w', RipThread.rip_dvd self blkid_params drive w = (w', Ok tt)
         ∧ fs w' = fs w
         ∧ execs (trace w') = execs (trace w))
  ∧ (¬ present w (out_dvd self id) → ¬ present w (staged_dvd self id) →
     ∀ w', RipThread.rip_dvd self blkid_params drive w = (w', Ok tt) →
     ∃ added,
       trace w' = added ++ trace w
       ∧ ERmtree (rip_in_progress_dvd self id) ∈ added
       ∧ ∃ cmd dir res,
           head cmd = Some "makemkvcon" ∧ EExec cmd false dir res ∈ added).
Proof.
  intros (label & uuid & Hlabel & Huuid & ->)%disc_name_ok.
  unfold staged_dvd, out_dvd, rip_in_progress_dvd.
  split.
  - intros Hstaged. unfold RipThread.rip_dvd.
    rewrite bind_run. unfold lift at 1, getitem at 1. rewrite Hlabel.
    rewrite bind_run. unfold lift at 1, getitem at 1. rewrite Huuid.
    cbv zeta. rewrite bind_run, exists_run.
    case_bool_decide; [by eexists|].
    rewrite bind_run, exists_run. rewrite bool_decide_eq_true_2; [|done].
    by eexists.
  - intros Hout Hstaged w'. unfold RipThread.rip_dvd.
    rewrite bind_run. unfold lift at 1, getitem at 1. rewrite Hlabel.
    rewrite bind_run. unfold lift at 1, getitem at 1. rewrite Huuid.
    cbv zeta. rewrite bind_run, exists_run.
    rewrite (bool_decide_eq_false_2 _ Hout).
    rewrite bind_run, exists_run, (bool_decide_eq_false_2 _ Hstaged).
    intros Hrun.
    apply bind_ok_inv in Hrun as (w1 & [] & Hkey & Hrun).
    apply bind_ok_inv in Hrun as (w2 & [] & Hlog & Hrun).
    apply bind_ok_inv in Hrun as (w3 & [] & Hrm & Hrun).
    apply bind_ok_inv in Hrun as (w4 & [] & Hmk & Hrun).
    apply bind_ok_inv in Hrun as (w5 & digits & Hdigits & Hrun).
    apply bind_ok_inv in Hrun as (w6 & drive_id & Hid & Hrun).
    apply bind_ok_inv in Hrun as (w7 & o_path_abs & Habs & Hrun).
    apply bind_ok_inv in Hrun as (w8 & [] & Hlog2 & Hrun).
    apply bind_ok_inv in Hrun as (w9 & out & Hexec & Hrun).
    grow Hkey. grow Hlog.
    apply rmtree_inv in Hrm as [_ Hrm].
    grow Hmk. grow Hdigits. grow Hid. grow Habs. grow Hlog2.
    apply execute_inv in Hexec as (added_exec & dir & res & Hexec).
    grow Hrun. chain.
    eexists. split; [eassumption|]. split; [set_solver|].
    exists ["makemkvcon"; "mkv"; "disc:" +:+ PyStr.str_Z drive_id; "all";
            o_path_abs], dir, res.
    split; [done|]. set_solver.
Qed.

Lemma run_surj {A} (m : M A) (w : World) : m w = ((m w).1, (m w).2).
Proof. by destruct (m w). Qed.

Lemma staged_dvd_is_skipped_witness :
  let rip := RipThread.rip_dvd Sample.rip_thread Discs.params "/dev/sr0" in
  let id := "MOVIE-ABCD-1234" in
  (present Interrupted.staged_world (staged_dvd Sample.rip_thread id)
   ∧ ∃ w', rip Interrupted.staged_world = (w', Ok tt)
           ∧ fs w' = fs Interrupted.staged_world
           ∧ execs (trace w') = execs (trace Interrupted.staged_world))
  ∧ (present Interrupted.world (rip_in_progress_dvd Sample.rip_thread id)
     ∧ ∃ w' added,
         rip Interrupted.world = (w', Ok tt)
         ∧ trace w' = added ++ trace Interrupted.world
         ∧ ERmtree (rip_in_progress_dvd Sample.rip_thread id) ∈ added
         ∧ ∃ cmd dir res,
             head cmd = Some "makemkvcon" ∧ EExec cmd false dir res ∈ added).
Proof.
  intros rip id.
  assert (disc_name Discs.params = Ok id) as Hid by (by vm_compute).
  destruct (staged_dvd_is_skipped Sample.rip_thread Discs.params "/dev/sr0"
              Interrupted.staged_world id Hid) as [Hskip _].
  destruct (staged_dvd_is_skipped Sample.rip_thread Discs.params "/dev/sr0"
              Interrupted.world id Hid) as [_ Hrip].
  assert (present Interrupted.staged_world (staged_dvd Sample.rip_thread id))
    as Hstaged by (vm_compute; by eexists).
  split; [split; [exact Hstaged|exact (Hskip Hstaged)]|].
  split; [vm_compute; by eexists|].
  pose proof (run_surj rip Interrupted.world) as Hrun.
  assert ((rip Interrupted.world).2 = Ok tt) as Hok by (by vm_compute).
  rewrite Hok in Hrun.
  destruct (Hrip) with (w' := (rip Interrupted.world).1)
    as (added & Htrace & Hrm & Hcmd).
  - intros [n Hn]. vm_compute in Hn. discriminate Hn.
  - intros [n Hn]. vm_compute in Hn. discriminate Hn.
  - exact Hrun.
  - eauto 6.
Defined.

(** ** Where a Redbook rip ends up *)

Lemma get_set (name : string) (n : node) (es : list (string * node)) :
  FS.get name (FS.set name n es) = Some n.
Proof.
  induction es as [|[k m] es IH]; cbn.
  - by rewrite String.eqb_refl.
  - destruct (String.eqb k name) eqn:Hk; cbn; by rewrite Hk.
Qed.

Lemma put_lookup (path : list string) (new root root' : node) :
  FS.put path new root = Some root' → FS.lookup path root' = Some new.
Proof.
  revert root root'. induction path as [|c path IH]; intros root root'; cbn.
  - by intros [= ->].
  - destruct root as [size|es]; [done|].
    destruct path as [|c' path].
    + intros [= <-]. cbn. by rewrite get_set.
    + destruct (FS.get c es) as [m|] eqn:Hget; [|done].
      destruct (FS.put (c' :: path) new m) as [m'|] eqn:Hput; [|done].
      intros [= <-]. cbn [FS.lookup]. rewrite get_set. by eapply IH.
Qed.

Lemma lookup_app (path : list string) (c : string) (root n : node) :
  FS.lookup (path ++ [c]) root = Some n → is_Some (FS.lookup path root).
Proof.
  revert root. induction path as [|c' path IH]; intros root; cbn; [by eauto|].
  destruct root as [size|es]; [done|].
  destruct (FS.get c' es) as [m|]; [|done]. apply IH.
Qed.

Lemma rename_present (sp dp : list string) (root root' : node) :
  rename sp dp root = Ok root' → is_Some (FS.lookup dp root').
Proof.
  unfold rename. destruct (FS.lookup sp root) as [n|] eqn:Hsp; [|done].
  destruct (decide (sp = dp)) as [<-|]; [intros [= <-]; by eauto|].
  destruct (decide _); [done|].
  assert (FS.put dp n (FS.remove sp root) = Some root' →
          is_Some (FS.lookup dp root')) as Hput.
  { intros Hput%put_lookup. eauto. }
  destruct n, (FS.lookup dp root) as [[|[]]|]; try done;
    destruct (FS.put dp _ _) eqn:Hp; try done; intros [= <-]; by apply Hput.
Qed.

Lemma move_inv (src dst : string) (w w' : World) :
  move src dst w = (w', Ok tt) →
  trace w' = EMove src dst :: trace w ∧ cwd w' = cwd w ∧ present w' dst.
Proof.
  unfold move, present. cbv zeta.
  destruct (FS.lookup (FS.resolve (cwd w) dst) (fs w)) as [[size|es]|] eqn:Hdst.
  - destruct (rename _ _ _) as [n|] eqn:Hmv; intros [= <-]; cbn.
    do 2 (split; [done|]). by eapply rename_present.
  - destruct (FS.lookup (_ ++ _) _); [done|].
    destruct (rename _ _ _) as [n|] eqn:Hmv; intros [= <-]; cbn.
    do 2 (split; [done|]).
    apply rename_present in Hmv as [m Hm]. by eapply lookup_app.
  - destruct (rename _ _ _) as [n|] eqn:Hmv; intros [= <-]; cbn.
    do 2 (split; [done|]). by eapply rename_present.
Qed.

Lemma identity_redbook_inv (w : World) (cdp_str id : string) :
  identity w (Redbook cdp_str) = Ok id →
  ∃ lengths, cdparanoia_lengths cdp_str = Ok lengths
             ∧ id = redbook_identity (env_hash (env w)) lengths.
Proof.
  cbn. destruct (cdparanoia_lengths cdp_str) as [lengths|]; [|done].
  intros [= <-]. eauto.
Qed.

(** C7, as stated: the album would be found in the staged area under
    [wip/redbook].  After the rip of the sample audio disc nothing is
    there; the album is in the output tree. *)
Lemma album_not_staged :
  ¬ (∀ self cdp_str w w' album id,
       identity w (Redbook cdp_str) = Ok id →
       RipThread.rip_redbook self cdp_str w = (w', Ok tt) →
       EMove (wip_redbook self +:+ "/" +:+ album)
         (out_redbook_album self album id) ∈ trace w' →
       present w' (staged_redbook_album self album id)).
Proof.
  intros H.
  pose proof (run_surj (RipThread.rip_redbook Sample.rip_thread
                          Sample.cdp_table) audio_world) as Hrun.
  assert ((RipThread.rip_redbook Sample.rip_thread Sample.cdp_table
             audio_world).2 = Ok tt) as Hok by (by vm_compute).
  rewrite Hok in Hrun.
  assert (identity audio_world (Redbook Sample.cdp_table)
          = Ok "a1522a25367bcc") as Hid by (by vm_compute).
  destruct (H _ _ _ _ "Album" "a1522a25367bcc" Hid Hrun) as [n Hn].
  - apply list_elem_of_In. vm_compute. tauto.
  - vm_compute in Hn. discriminate Hn.
Qed.

Lemma log_lines_world (lines : list string) (w : World) :
  let w' := foldl (λ w line, emit (ELog DEBUG ("SUBPROCESS: " +:+ line)) w)
              w lines in
  fs w' = fs w ∧ cwd w' = cwd w.
Proof.
  revert w. induction lines as [|line lines IH]; intros w; [done|].
  cbn [foldl]. by destruct (IH (emit (ELog DEBUG ("SUBPROCESS: " +:+ line)) w)).
Qed.

Lemma chdir_inv (p : string) (w w' : World) :
  chdir p w = (w', Ok tt) → fs w' = fs w ∧ trace w' = EChdir p :: trace w.
Proof.
  unfold chdir. cbv zeta.
  destruct (FS.lookup _ _) as [[size|entries]|]; [done| |done].
  by intros [= <-].
Qed.

(** C7, amended: a Redbook rip that returns normally either found the
    disc in the output tree, or went through these steps.  It made
    [out/redbook] and [wip/redbook]; [abcde], run in [wip/redbook],
    exited with status zero and left the tree [extracted]; in that
    tree it listed [wip/redbook] and moved the first entry that the
    listing reports, [album], to [out/redbook/<album>-<identity>] in
    the output tree; then it logged the end of the rip.  The album is
    then present at that place. *)
Theorem album_goes_to_output (self : RipThread.t) (cdp_str : string)
    (w w' : World) (id : string) :
  identity w (Redbook cdp_str) = Ok id →
  RipThread.rip_redbook self cdp_str w = (w', Ok tt) →
  (∃ folder,
     PyStr.endswith folder id = true
     ∧ head (trace w')
       = Some (ELog INFO ("Redbook already ripped: " +:+ folder)))
  ∨ ∃ made_out made output extracted entries album earlier,
      FS.mkdirs (FS.resolve (cwd w) (out_redbook self)) (fs w) = Ok made_out
      ∧ FS.mkdirs (FS.resolve (cwd w) (wip_redbook self)) made_out = Ok made
      ∧ env_exec (env w) (clock w) (abcde_command self)
          (FS.resolve (cwd w) (wip_redbook self)) made
        = (Exited 0 output, extracted)
      ∧ FS.lookup (FS.resolve (cwd w') (wip_redbook self)) extracted
        = Some (Dir entries)
      ∧ head entries.*1 = Some album
      ∧ trace w'
        = ELog INFO ("Finished ripping redbook: " +:+ id)
          :: EMove (wip_redbook self +:+ "/" +:+ album)
               (out_redbook_album self album id)
          :: EListdir (wip_redbook self) :: earlier
      ∧ present w' (out_redbook_album self album id).
Proof.
  intros (lengths & Hlengths & ->)%identity_redbook_inv.
  unfold RipThread.rip_redbook.
  fold (wip_redbook self). fold (out_redbook self). fold (abcde_command self).
  unfold out_redbook_album, redbook_identity.
  rewrite bind_run, (cdparanoia_hash_run _ _ _ Hlengths).
  set (id := PyStr.sdrop 2 _). cbv zeta.
  rewrite bind_run. unfold makedirs at 1. cbv zeta.
  destruct (FS.mkdirs _ (fs w)) as [made_out|] eqn:Hout; [|done].
  rewrite bind_run. unfold listdir at 1. cbv zeta.
  cbn [cwd fs emit with_fs].
  destruct (FS.lookup _ made_out) as [[size|folders]|]; [done| |done].
  rewrite bind_run.
  match goal with
  | |- context [for_return _ _ ?w1] =>
      destruct (folder_search folders.*1 id w1)
        as [(folder & _ & Hends & ->)|[_ ->]]
  end.
  { intros [= <-]. left. eauto. }
  rewrite bind_run, log_run, bind_run. unfold makedirs at 1. cbv zeta.
  cbn [cwd fs emit with_fs].
  destruct (FS.mkdirs _ made_out) as [made|] eqn:Hwip; [|done].
  rewrite bind_run. unfold getcwd at 1.
  rewrite bind_run. unfold chdir at 1. cbv zeta. cbn [cwd fs emit with_fs].
  destruct (FS.lookup _ made) as [[size|inside]|]; [done| |done].
  rewrite bind_run. unfold execute at 1. cbv zeta.
  cbn [cwd fs env clock emit with_fs with_cwd].
  destruct (env_exec _ _ _ _ _) as [[code output|kind] extracted] eqn:Hexec;
    [|done].
  rewrite bind_run. unfold log_subprocess_output. rewrite log_lines_run.
  destruct (forallb _ _); [|done].
  destruct (code =? 0) eqn:Hcode; cbn [negb]; [|done].
  apply Z.eqb_eq in Hcode as ->.
  unfold mret at 1, M_ret at 1. cbv beta iota.
  intros Hrun.
  apply bind_ok_inv in Hrun as (w1 & [] & Hback & Hrun).
  apply bind_ok_inv in Hrun as (w2 & names & Hnames & Hrun).
  apply bind_ok_inv in Hrun as (w3 & album & Halbum & Hrun).
  apply bind_ok_inv in Hrun as (w4 & [] & Hmove & Hrun).
  injection Hrun as <-.
  apply chdir_inv in Hback as [Hfs _].
  rewrite (proj1 (log_lines_world _ _)) in Hfs. cbn [fs tick with_fs] in Hfs.
  apply listdir_inv in Hnames as [-> [(entries & Hentries & [= ->])|(? & [=])]].
  injection Halbum as <- Halbum.
  apply move_inv in Hmove as (Htrace & Hcwd & Hpresent).
  right. exists made_out, made, output, extracted, entries, album, (trace w1).
  do 3 (split; [done|]). cbn [cwd trace emit] in *. split.
  { by rewrite Hcwd, <- Hfs. }
  split.
  { rewrite head_lookup. unfold index in Halbum.
    destruct (entries.*1 !! 0%nat); [by injection Halbum as ->|done]. }
  split; [by rewrite Htrace|done].
Qed.


Lemma album_goes_to_output_witness :
  let w' := (RipThread.rip_redbook Sample.rip_thread Sample.cdp_table
               audio_world).1 in
  identity audio_world (Redbook Sample.cdp_table) = Ok "a1522a25367bcc"
  ∧ RipThread.rip_redbook Sample.rip_thread Sample.cdp_table audio_world
    = (w', Ok tt)
  ∧ present w' "./out/redbook/Album-a1522a25367bcc".
Proof.
  intros w'.
  assert (identity audio_world (Redbook Sample.cdp_table)
          = Ok "a1522a25367bcc") as Hid by (by vm_compute).
  pose proof (run_surj (RipThread.rip_redbook Sample.rip_thread
                          Sample.cdp_table) audio_world) as Hrun.
  assert ((RipThread.rip_redbook Sample.rip_thread Sample.cdp_table
             audio_world).2 = Ok tt) as Hok by (by vm_compute).
  rewrite Hok in Hrun. fold w' in Hrun.
  do 2 (split; [done|]).
  destruct (album_goes_to_output _ _ _ _ _ Hid Hrun)
    as [(folder & _ & Hhead)
       |(made_out & made & output & extracted & entries & album & earlier
         & ? & ? & ? & ? & ? & Htrace & Hpresent)].
  - vm_compute in Hhead. discriminate Hhead.
  - assert (album = "Album") as ->.
    { assert (head (tail (trace w')) = Some (EMove "./wip/redbook/Album"
                "./out/redbook/Album-a1522a25367bcc")) as Hmove
        by (by vm_compute).
      rewrite Htrace in Hmove. cbn in Hmove. injection Hmove as Hsrc _.
      exact Hsrc. }
    exact Hpresent.
Defined.

(** ** Steps and what they add *)

Lemma adds_refl P w : adds P w w.
Proof. by exists []. Qed.

Lemma adds_trans P w1 w2 w3 : adds P w1 w2 → adds P w2 w3 → adds P w1 w3.
Proof.
  intros (a & Ha & HPa) (b & Hb & HPb). exists (b ++ a).
  rewrite Hb, Ha, app_assoc. split; [done|]. by apply Forall_app.
Qed.

Lemma adds_emit P e w0 w : adds P w0 w → P e → adds P w0 (emit e w).
Proof.
  intros Hadds HP. eapply adds_trans; [exact Hadds|].
  exists [e]. split; [done|]. by constructor.
Qed.

Lemma adds_emit_head P e w0 w :
  adds P w0 w → P e →
  ∃ added, trace (emit e w) = (e :: added) ++ trace w0 ∧ Forall P (e :: added).
Proof.
  intros (a & Ha & HP) He. exists a. cbn. rewrite Ha. split; [done|].
  by constructor.
Qed.

Lemma adds_weaken (P Q : event → Prop) w w' :
  (∀ e, P e → Q e) → adds P w w' → adds Q w w'.
Proof.
  intros HPQ (a & Ha & HP). exists a. split; [done|].
  eapply Forall_impl; eauto.
Qed.

Lemma adds_elem P w w' added e :
  adds P w w' → trace w' = added ++ trace w → e ∈ added → P e.
Proof.
  intros (a & Ha & HP) Htrace Hin. rewrite Ha in Htrace.
  apply app_inv_tail in Htrace as ->.
  by eapply Forall_forall in HP.
Qed.

Lemma adds_all P w w' added :
  adds P w w' → trace w' = added ++ trace w → Forall P added.
Proof.
  intros (a & Ha & HP) Htrace. rewrite Ha in Htrace.
  by apply app_inv_tail in Htrace as ->.
Qed.

Lemma str_last_app (a b : string) :
  str_last (a +:+ b)
  = match str_last b with Some d => Some d | None => str_last a end.
Proof.
  induction a as [|c a IH].
  { change (str_last b
            = match str_last b with Some d => Some d | None => None end).
    by destruct (str_last b). }
  change (str_last (String c (a +:+ b))
          = match str_last b with
            | Some d => Some d
            | None => str_last (String c a)
            end).
  cbn. rewrite IH. by destruct (str_last b), (str_last a).
Qed.

Lemma iso_is_not_video_ts (a b c d e : string) :
  a +:+ "/" +:+ b +:+ "-" +:+ c +:+ ".iso" ≠ d +:+ "/VIDEO_TS".
Proof.
  intros Heq%(f_equal str_last). rewrite !str_last_app in Heq.
  cbn in Heq. discriminate Heq.
Qed.

Ltac emits_side :=
  try done; try (intros [=]; by eapply iso_is_not_video_ts).

(** [advance]: the step [m] of [Hrun : (m ≫= k) w1 = (w', r)] is run:
    either it returned, and [Hrun] is the run of what follows, or it
    raised and the run ended there.  [Hadds : adds P w w1] is carried
    on; the events of the step have to satisfy [P]. *)
Ltac advance Hrun Hadds w2 a :=
  let Hstep := fresh "Hstep" in
  let Hm := fresh "Hm" in
  let e := fresh "e" in
  match type of Hadds with
  | adds ?P _ _ =>
      match type of Hrun with
      | (?m ≫= _) ?w1 = _ =>
          assert (emits P m) as Hm by (emits_steps; emits_side);
          apply bind_inv in Hrun as [(w2 & a & Hstep & Hrun)|(e & Hstep & ->)];
          apply (emits_run P _ _ _ _ Hm) in Hstep;
          apply (adds_trans _ _ _ _ Hadds) in Hstep;
          clear Hm Hadds; rename Hstep into Hadds
      end
  end.

(** ** A DVD in the rip loop *)

Lemma rip_dvd_call_one_argument self (v : pyval) (w : World) :
  RipThread.rip_dvd_call self [v] w = (w, Raise TypeError).
Proof. done. Qed.

(** C2: in an iteration of the rip loop that finds [VIDEO_TS] under
    the mount point, the call of [rip_dvd] raises [TypeError]: the
    last thing the iteration did is the log of the detection, it
    tested no path but [VIDEO_TS] and it did not run the extraction
    tool. *)
Theorem dvd_dispatch_raises (self : RipThread.t) (w w' : World)
    (r : result unit) (added : list event) :
  RipThread.loop_step self w = (w', r) →
  trace w' = added ++ trace w →
  EExists (video_ts_path self) true ∈ added →
  r = Raise TypeError
  ∧ head added = Some (ELog INFO "DVD detected")
  ∧ Forall (λ e, runs "makemkvcon" e = false
                 ∧ (tests_path e = None
                    ∨ tests_path e = Some (video_ts_path self))) added.
Proof.
  intros Hrun Htrace Hin. unfold RipThread.loop_step in Hrun.
  pose proof (adds_refl before_probe w) as Hadds.
  assert (before_probe (EExists (video_ts_path self) true) → False) as Hcontra
    by (by intros [_ [=]]).
  assert (∀ w1, adds before_probe w w1 → w1 = w' → False) as Hdead.
  { intros w1 H1 ->. destruct Hcontra. by eapply adds_elem. }
  advance Hrun Hadds w1 a1; [|by destruct (Hdead w')].
  advance Hrun Hadds w2 blkid_str; [|by destruct (Hdead w')].
  advance Hrun Hadds w3 redbook; [|by destruct (Hdead w')].
  destruct redbook.
  { injection Hrun as <- <-. by destruct (Hdead w3). }
  destruct blkid_str as [blkid_str|].
  2: { unfold log in Hrun. injection Hrun as <- <-.
       destruct (Hdead (emit (ELog DEBUG "No disc detected") w3)); [|done].
       by apply adds_emit. }
  destruct (String.length blkid_str =? 0)%nat.
  { unfold log in Hrun. injection Hrun as <- <-.
    destruct (Hdead (emit (ELog DEBUG "No disc detected") w3)); [|done].
    by apply adds_emit. }
  advance Hrun Hadds w4 a4; [|by destruct (Hdead w')].
  advance Hrun Hadds w5 blkid; [|by destruct (Hdead w')].
  advance Hrun Hadds w6 blkid_params; [|by destruct (Hdead w')].
  advance Hrun Hadds w7 a7; [|by destruct (Hdead w')].
  advance Hrun Hadds w8 a8; [|by destruct (Hdead w')].
  advance Hrun Hadds w9 a9; [|by destruct (Hdead w')].
  rewrite bind_run, exists_run in Hrun.
  fold (mnt_path self) in Hrun. fold (video_ts_path self) in Hrun.
  destruct (bool_decide (present w9 (video_ts_path self))).
  - clear Hdead Hcontra.
    rewrite bind_run, log_run, bind_run, bind_run, log_run,
      rip_dvd_call_one_argument in Hrun.
    injection Hrun as <- <-. split; [done|].
    eapply (adds_weaken _ (λ e, runs "makemkvcon" e = false
              ∧ (tests_path e = None
                 ∨ tests_path e = Some (video_ts_path self)))) in Hadds;
      [|intros e [? ?]; auto].
    apply (adds_emit _ (EExists (video_ts_path self) true)) in Hadds;
      [|by split; [|right]].
    apply (adds_emit _ (ELog DEBUG ("video_ts_exists: "
             +:+ RipThread.bool_str true))) in Hadds; [|by split; [|left]].
    apply (adds_emit_head _ (ELog INFO "DVD detected")) in Hadds
      as (a & Ha & HP); [|by split; [|left]].
    assert (added = ELog INFO "DVD detected" :: a) as ->; [|done].
    eapply app_inv_tail. etrans; [symmetry; exact Htrace|exact Ha].
  - eapply (adds_weaken _ (λ e, e ≠ EExists (video_ts_path self) true))
      in Hadds; [|by intros e [_ He] ->].
    eapply (adds_emit _ (EExists (video_ts_path self) false)) in Hadds;
      [|done].
    assert (∀ w0, adds (λ e, e ≠ EExists (video_ts_path self) true) w w0 →
                  w0 = w' → False) as Hdead'.
    { intros w0 H0 ->. by eapply (adds_elem _ _ _ _ _ H0 Htrace Hin). }
    advance Hrun Hadds w10 a10; [|by destruct (Hdead' w')].
    advance Hrun Hadds w11 a11; [|by destruct (Hdead' w')].
    destruct (RipThread.skip_eject self).
    + injection Hrun as <- <-. by destruct (Hdead' w11).
    + eapply (emits_run (λ e, e ≠ EExists (video_ts_path self) true)) in Hrun;
        [|emits_steps; done].
      destruct (Hdead' w'); [|done]. by eapply adds_trans.
Qed.

Lemma dvd_dispatch_raises_witness :
  let w := Sample.world (Sample.environment Sample.Dvd true) (Dir []) in
  let run := RipThread.loop_step Sample.rip_thread w in
  EExists "./mnt/dev/sr0/VIDEO_TS" true ∈ trace run.1
  ∧ run.2 = Raise TypeError
  ∧ head (trace run.1) = Some (ELog INFO "DVD detected").
Proof.
  intros w run.
  assert (EExists (video_ts_path Sample.rip_thread) true ∈ trace run.1) as Hin.
  { apply list_elem_of_In. vm_compute. tauto. }
  split; [exact Hin|].
  destruct (dvd_dispatch_raises Sample.rip_thread w run.1 run.2 (trace run.1))
    as (Hr & Hhead & _).
  - apply run_surj.
  - symmetry. apply app_nil_r.
  - exact Hin.
  - by split.
Defined.

(** ** What a computation may raise *)

Lemma raises_ret {A} Q (a : A) : raises Q (mret a).
Proof. by intros w w' e [=]. Qed.

Lemma raises_raise {A} (Q : exn → Prop) e : Q e → raises Q (raise e : M A).
Proof. by intros HQ w w' e' [= _ <-]. Qed.

Lemma raises_lift {A} (Q : exn → Prop) (r : result A) :
  (∀ e, r = Raise e → Q e) → raises Q (lift r).
Proof. intros HQ w w' e [= _ ->]. by apply HQ. Qed.

Lemma raises_bind {A B} Q (m : M A) (k : A → M B) :
  raises Q m → (∀ a, raises Q (k a)) → raises Q (m ≫= k).
Proof.
  intros Hm Hk w w' e [(w1 & a & _ & Hrun)|(e' & Hrun & [= <-])]%bind_inv.
  - by eapply Hk.
  - by eapply Hm.
Qed.

Lemma raises_try_except {A} Q (body : M A) cls (handler : exn → M A) :
  raises Q body → (∀ e, raises Q (handler e)) →
  raises Q (try_except body cls handler).
Proof.
  intros Hbody Hhandler w w' e
    [[Hrun _]|(w1 & e' & _ & _ & Hrun)]%try_except_inv.
  - by eapply Hbody.
  - by eapply Hhandler.
Qed.

Lemma raises_for_each {X} Q (l : list X) (body : X → M unit) :
  (∀ x, raises Q (body x)) → raises Q (for_each l body).
Proof.
  intros Hbody. induction l as [|x l IH]; cbn [for_each].
  - apply raises_ret.
  - apply raises_bind; auto.
Qed.

Lemma raises_for_return {X R} Q (l : list X) (body : X → M (option R)) :
  (∀ x, raises Q (body x)) → raises Q (for_return l body).
Proof.
  intros Hbody. induction l as [|x l IH]; cbn [for_return].
  - apply raises_ret.
  - apply raises_bind; [done|]. intros [v|]; [apply raises_ret|done].
Qed.

Lemma raises_never {A} Q (m : M A) :
  (∀ w, ∃ w' a, m w = (w', Ok a)) → raises Q m.
Proof. intros Hm w w' e Hrun. destruct (Hm w) as (? & ? & Hok). congruence. Qed.

Lemma raises_log Q lvl msg : raises Q (log lvl msg).
Proof. apply raises_never. intros w. by eexists _, _. Qed.

Lemma raises_makedirs (Q : exn → Prop) p :
  (∀ kind, Q (OSError kind)) → raises Q (makedirs p).
Proof.
  intros HQ w w' e (_ & _ & _ & [[=]|[kind [= ->]]])%makedirs_inv. apply HQ.
Qed.

Lemma raises_listdir (Q : exn → Prop) p :
  (∀ kind, Q (OSError kind)) → raises Q (listdir p).
Proof.
  intros HQ w w' e (_ & [(? & _ & [=])|[kind [= ->]]])%listdir_inv. apply HQ.
Qed.

Lemma raises_chdir (Q : exn → Prop) p :
  (∀ kind, Q (OSError kind)) → raises Q (chdir p).
Proof.
  intros HQ w w' e. unfold chdir.
  destruct (FS.lookup _ _) as [[]|]; intros [= _ <-]; apply HQ.
Qed.

Lemma raises_move (Q : exn → Prop) src dst :
  (∀ kind, Q (OSError kind)) → Q ShutilError → raises Q (move src dst).
Proof.
  intros HQ HQ' w w' e. unfold move. cbv zeta.
  assert (∀ sp dp root e, rename sp dp root = Raise e → Q e) as Hrename.
  { intros sp dp root e0. unfold rename.
    destruct (FS.lookup sp root) as [n|]; [|intros [= <-]; apply HQ].
    destruct (decide _); [done|]. destruct (decide _); [intros [= <-]; apply HQ|].
    destruct n, (FS.lookup dp root) as [[|[]]|];
      try (intros [= <-]; apply HQ);
      destruct (FS.put _ _ _); try done; intros [= <-]; apply HQ. }
  destruct (FS.lookup _ (fs w)) as [[|]|].
  - destruct (rename _ _ _) eqn:Hmv; intros [= _ <-]. by eapply Hrename.
  - destruct (FS.lookup _ (fs w)); [intros [= _ <-]; apply HQ'|].
    destruct (rename _ _ _) eqn:Hmv; intros [= _ <-]. by eapply Hrename.
  - destruct (rename _ _ _) eqn:Hmv; intros [= _ <-]. by eapply Hrename.
Qed.

Lemma raises_getcwd Q : raises Q getcwd.
Proof. by intros w w' e [=]. Qed.

Lemma raises_builtin_hash Q t : raises Q (builtin_hash t).
Proof. by intros w w' e [=]. Qed.

Lemma raises_mounts_append Q p : raises Q (mounts_append p).
Proof. by intros w w' e [=]. Qed.

Lemma decode_raises (b : string) (e : exn) :
  decode b = Raise e → e = UnicodeDecodeError.
Proof. unfold decode. destruct (PyStr.utf8_valid b); [done|]. by intros [= <-]. Qed.

Lemma raises_execute (Q : exn → Prop) cmd cwd_arg :
  Q UnicodeDecodeError →
  (∀ kind, Q (OSError kind)) → (∀ code, Q (ExceptionExit code)) →
  raises Q (execute cmd false cwd_arg).
Proof.
  intros HQd HQ HQ' w w' e. unfold execute. cbv zeta.
  destruct (env_exec _ _ _ _ _) as [[code output|kind] n];
    [|intros [= _ <-]; apply HQ].
  intros [(w1 & a & _ & Hrun)|(e' & Hrun & [= <-])]%bind_inv.
  - destruct (negb _); [|done]. injection Hrun as _ <-. apply HQ'.
  - revert Hrun. apply raises_for_each. intros line.
    apply raises_bind; [|intros text; apply raises_log].
    apply raises_lift. by intros e1 ->%decode_raises.
Qed.

Ltac raises_step :=
  first
    [ apply raises_log | apply raises_getcwd | apply raises_builtin_hash
    | apply raises_mounts_append
    | apply raises_makedirs; intros ? | apply raises_listdir; intros ?
    | apply raises_chdir; intros ?
    | apply raises_move; [intros ?|]
    | apply raises_execute; [|intros ?|intros ?]
    | apply raises_try_except; [|intros ?]
    | apply raises_for_each; intros ?
    | apply raises_for_return; intros ?
    | match goal with
      | |- raises _ (mbind _ _) => apply raises_bind; [|intros ?]
      | |- raises _ (mret _) => apply raises_ret
      | |- raises _ (raise _) => apply raises_raise
      | |- raises _ (lift _) => apply raises_lift; intros ?
      | |- raises _ (if ?b then _ else _) => destruct b
      | |- raises _ (match ?x with _ => _ end) => destruct x
      | |- raises _ (let _ := _ in _) => cbv zeta
      end
    | progress unfold RipThread.rip_redbook, cdparanoia_hash, mount, unmount,
        eject, trysudo ].

Ltac raises_steps := repeat raises_step.

Lemma cdparanoia_lengths_raises cdp_str e :
  cdparanoia_lengths cdp_str = Raise e → not_a_probe_failure e.
Proof.
  unfold cdparanoia_lengths.
  generalize (PyStr.slice 6 (-2) (PyStr.split PyStr.LF cdp_str)), (@nil Z).
  intros lines. induction lines as [|line lines IH]; intros lengths; cbn; [done|].
  destruct (negb _); [apply IH|].
  unfold index. destruct (_ !! _); cbn; [|by intros [= <-]].
  destruct (PyStr.int _); [apply IH|by intros [= <-]].
Qed.

Lemma rip_redbook_raises self cdp_str :
  raises not_a_probe_failure (RipThread.rip_redbook self cdp_str).
Proof.
  raises_steps; try done.
  - by apply cdparanoia_lengths_raises.
  - unfold index. destruct (_ !! _); [done|]. by intros [= <-].
Qed.

Lemma trysudo_raises cmd : raises not_a_probe_failure (trysudo cmd).
Proof. raises_steps; done. Qed.

(** ** The order of the probes *)

Lemma execs_app (a b : list event) : execs (a ++ b) = execs b ++ execs a.
Proof.
  induction a as [|e a IH]; cbn; [by rewrite app_nil_r|].
  destruct e; try done. by rewrite IH, app_assoc.
Qed.

Lemma execs_logs (lines : list string) :
  execs (rev ((λ line, ELog DEBUG ("SUBPROCESS: " +:+ line)) <$> lines)) = [].
Proof.
  induction lines as [|line lines IH]; [done|].
  cbn [fmap list_fmap rev]. by rewrite execs_app, IH.
Qed.

Lemma adds_execs P w w' added :
  (∀ e, P e → ∀ cmd capture dir res, e = EExec cmd capture dir res → False) →
  adds P w w' → trace w' = added ++ trace w → execs added = [].
Proof.
  intros HP Hadds Htrace. pose proof (adds_all _ _ _ _ Hadds Htrace) as Hall.
  clear Hadds Htrace. induction Hall as [|e a He _ IH]; [done|].
  destruct e; cbn; try done. by destruct (HP _ He _ _ _ _ eq_refl).
Qed.

Lemma execute_capture_run cmd (w : World) :
  execute cmd true None w
  = let '(res, n) := env_exec (env w) (clock w) cmd (cwd w) (fs w) in
    (tick (with_fs n (emit (EExec cmd true (cwd w) res) w)),
     match res with
     | Exited code output =>
         if code =? 0
         then decode (PyStr.strip_with PyStr.is_bytes_space output)
              ≫= λ text, Ok (Some text)
         else Raise (CalledProcessError code)
     | SpawnFailed kind => Raise (OSError kind)
     end).
Proof.
  unfold execute. cbv zeta.
  destruct (env_exec _ _ _ _ _) as [[code output|kind] n]; [|done].
  destruct (code =? 0); [|done]. by rewrite decoded_run.
Qed.

Lemma execs_redbook (a : list event) :
  Forall runs_redbook_commands a → Forall (λ c, redbook_command c.1) (execs a).
Proof.
  induction 1 as [|e a He _ IH]; [done|].
  destruct e; cbn; try done.
  apply Forall_app. split; [done|]. constructor; [|done]. by eapply He.
Qed.

Ltac redbook_side :=
  let Heq := fresh "Heq" in
  unfold runs_redbook_commands; intros ? ? ? ? Heq;
  first [ discriminate Heq
        | injection Heq as <- _ _ _; unfold redbook_command; cbn; by auto ].

(** C4, as stated: the audio-table probe would be the first command of
    every cycle.  With the sample audio disc the first command is the
    metadata query, although the audio probe succeeds. *)
Lemma audio_probe_not_first :
  ¬ (∀ self w,
       head (commands (trace (RipThread.loop_step self w).1))
       = head (commands (trace w) ++ [["cdparanoia"; "-sQ"]])).
Proof.
  intros H. specialize (H Sample.rip_thread audio_world).
  vm_compute in H. discriminate H.
Qed.

(** C4, amended: in every cycle of the rip loop the block-device
    metadata query is run first and the audio-table probe second,
    whatever the first gave.  When the audio probe fails and the
    metadata is empty or absent, the cycle logs that there is no disc
    and does nothing more.  When the audio probe succeeds the metadata
    is not used: the commands that follow are those of the Redbook rip
    and of the ejection. *)
Theorem probe_order (self : RipThread.t) (w : World) :
  ∃ w' r added rA rB rest,
    RipThread.loop_step self w = (w', r)
    ∧ trace w' = added ++ trace w
    ∧ execs added
      = (["blkid"; RipThread.drive self], rA)
        :: (["cdparanoia"; "-sQ"], rB) :: rest
    ∧ (probe_failed rB → metadata rA = None ∨ metadata rA = Some "" →
       r = Ok tt ∧ rest = []
       ∧ head added = Some (ELog DEBUG "No disc detected"))
    ∧ (succeeded rB → Forall (λ c, redbook_command c.1) rest).
Proof.
  unfold RipThread.loop_step.
  rewrite bind_run, log_run.
  match goal with
  | |- context [mbind ?k (try_except _ is_Exception _)] =>
      set (rest_of_cycle := k)
  end.
  assert (∀ blkid_str w1,
    ∃ w' r added rB rest,
      rest_of_cycle blkid_str w1 = (w', r)
      ∧ trace w' = added ++ trace w1
      ∧ execs added = (["cdparanoia"; "-sQ"], rB) :: rest
      ∧ (probe_failed rB → blkid_str = None ∨ blkid_str = Some "" →
         r = Ok tt ∧ rest = []
         ∧ head added = Some (ELog DEBUG "No disc detected"))
      ∧ (succeeded rB → Forall (λ c, redbook_command c.1) rest)) as Hrest.
  { subst rest_of_cycle. intros blkid_str w1. cbv beta.
    rewrite bind_run. unfold try_except at 1.
    rewrite bind_run, execute_capture_run.
    destruct (env_exec _ _ _ _ _) as [rB nB].
    set (w2 := tick _).
    assert (trace w2 = [EExec ["cdparanoia"; "-sQ"] true (cwd w1) rB]
                       ++ trace w1) as Hw2 by done.
    destruct rB as [code output|kind].
    - destruct (code =? 0) eqn:Hcode.
      + unfold decode at 1.
        destruct (PyStr.utf8_valid _) eqn:Hvalid; cbn [mbind result_bind].
        2: { cbn [is_CalledProcessError].
             eexists _, _, [_], _, []. do 3 (split; [reflexivity|]).
             split; [|by intros _; constructor].
             intros (? & ? & [= <- _] & Hne). apply Z.eqb_eq in Hcode. done. }
        match goal with
        | |- context [?body w2] => destruct (body w2) as [w3 rb] eqn:Hbody
        end.
        assert (emits runs_redbook_commands
                  (log INFO "Redbook disc detected"
                   ≫= λ _ : (),
                        RipThread.rip_redbook self
                          (PyStr.strip_with PyStr.is_bytes_space output)
                        ≫= λ _ : (),
                             (if RipThread.skip_eject self
                              then mret ()
                              else eject (RipThread.drive self))
                             ≫= λ _ : (), mret true)) as Hemits
          by (emits_steps; redbook_side).
        destruct (emits_run _ _ _ _ _ Hemits Hbody) as (a3 & Ha3 & HP3).
        assert (rb = Ok true ∨ ∃ e, rb = Raise e ∧ not_a_probe_failure e)
          as [->|(e & -> & He)].
        { destruct rb as [b|e].
          - left. apply bind_ok_inv in Hbody as (? & ? & _ & Hbody).
            apply bind_ok_inv in Hbody as (? & ? & _ & Hbody).
            apply bind_ok_inv in Hbody as (? & ? & _ & Hbody).
            by injection Hbody as _ <-.
          - right. exists e. split; [done|]. revert Hbody.
            apply raises_bind; [apply raises_log|]. intros _.
            apply raises_bind; [apply rip_redbook_raises|]. intros _.
            apply raises_bind; [|intros _; apply raises_ret].
            destruct (RipThread.skip_eject self);
              [apply raises_ret|apply trysudo_raises]. }
        * exists w3, (Ok tt), (a3 ++ [EExec ["cdparanoia"; "-sQ"] true (cwd w1)
                                       (Exited code output)]),
            (Exited code output), (execs a3).
          split; [reflexivity|]. split; [by rewrite Ha3, Hw2, app_assoc|].
          split; [by rewrite execs_app|]. split.
          -- intros (? & ? & [= <- _] & Hne). apply Z.eqb_eq in Hcode. done.
          -- intros _. by apply execs_redbook.
        * rewrite He.
          exists w3, (Raise e),
            (a3 ++ [EExec ["cdparanoia"; "-sQ"] true (cwd w1)
                      (Exited code output)]), (Exited code output), (execs a3).
          split; [reflexivity|]. split; [by rewrite Ha3, Hw2, app_assoc|].
          split; [by rewrite execs_app|]. split.
          -- intros (? & ? & [= <- _] & Hne). apply Z.eqb_eq in Hcode. done.
          -- intros _. by apply execs_redbook.
      + cbn [is_CalledProcessError]. rewrite bind_run, log_run, bind_run, log_run.
        unfold mret at 1, M_ret at 1. cbv beta iota.
        assert (∀ output', Exited code output ≠ Exited 0 output') as Hfailed.
        { intros output' [= -> _]. done. }
        assert (blkid_str = None ∨ blkid_str = Some ""
                ∨ ∃ s, blkid_str = Some s ∧ (String.length s =? 0)%nat = false)
          as [->|[->|(s & -> & Hlen)]].
        { destruct blkid_str as [[|c s]|]; eauto. }
        * eexists _, _, [_; _; _; _], _, []. do 3 (split; [reflexivity|]).
          split; [done|]. by intros [output' Hok%Hfailed].
        * eexists _, _, [_; _; _; _], _, []. do 3 (split; [reflexivity|]).
          split; [done|]. by intros [output' Hok%Hfailed].
        * rewrite Hlen.
          match goal with
          | |- context [mbind ?k (log DEBUG ?msg) ?w3] =>
              destruct (mbind k (log DEBUG msg) w3) as [w' r] eqn:Hrun
          end.
          grow Hrun. unfold grows_by in G. cbn in G.
          eexists w', r, _, _, (execs added). split; [reflexivity|].
          split; [exact G|].
          split; [rewrite !execs_app; reflexivity|]. split.
          -- intros _ [[=]|[= ->]]. discriminate Hlen.
          -- by intros [output' Hok%Hfailed].
    - eexists _, _, [_], _, []. do 3 (split; [reflexivity|]).
      split; [by intros (? & ? & [=] & _)|by intros [? [=]]]. }
  clearbody rest_of_cycle.
  rewrite bind_run. unfold try_except. rewrite execute_capture_run.
  destruct (env_exec _ _ _ _ _) as [rA nA].
  set (w1 := tick _).
  assert (∀ w2 logged,
    trace w2 = logged ++ trace w1 → execs logged = [] →
    ∃ w' r added rB rest,
      rest_of_cycle (metadata rA) w2 = (w', r)
      ∧ trace w' = added ++ trace w
      ∧ execs added
        = (["blkid"; RipThread.drive self], rA)
          :: (["cdparanoia"; "-sQ"], rB) :: rest
      ∧ (probe_failed rB → metadata rA = None ∨ metadata rA = Some "" →
         r = Ok tt ∧ rest = []
         ∧ head added = Some (ELog DEBUG "No disc detected"))
      ∧ (succeeded rB → Forall (λ c, redbook_command c.1) rest)) as Hcycle.
  { intros w2 logged Hw2 Hlogged.
    destruct (Hrest (metadata rA) w2)
      as (w' & r & added & rB & rest & Hrun & Htrace & Hexecs & Hno & Hred).
    exists w', r,
      (added ++ logged ++ [EExec ["blkid"; RipThread.drive self] true (cwd w) rA;
                           ELog DEBUG "Rip loop step"]), rB, rest.
    split; [exact Hrun|].
    split; [by rewrite Htrace, Hw2, <- !app_assoc|].
    split; [by rewrite !execs_app, Hexecs, Hlogged|].
    split; [|done].
    intros HB HA. destruct (Hno HB HA) as (-> & -> & Hhead).
    do 2 (split; [done|]). by destruct added. }
  destruct rA as [code output|kind]; cbn [metadata] in Hcycle.
  - destruct (code =? 0) eqn:Hcode.
    + destruct (decode _) as [text|failure] eqn:Hdecode;
        cbn [mbind result_bind].
      * destruct (Hcycle w1 []) as (w' & r & added & rB & rest & Hrun & H);
          [done..|].
        exists w', r, added, (Exited code output), rB, rest.
        cbn [metadata]. rewrite Hcode, Hdecode. split; [exact Hrun|exact H].
      * cbn [is_Exception]. rewrite bind_run, log_run.
        unfold mret at 1, M_ret at 1. cbv beta iota.
        match goal with |- context [emit ?ev w1] =>
          destruct (Hcycle (emit ev w1) [ev])
            as (w' & r & added & rB & rest & Hrun & H); [reflexivity|done|]
        end.
        exists w', r, added, (Exited code output), rB, rest.
        cbn [metadata]. rewrite Hcode, Hdecode. split; [exact Hrun|exact H].
    + cbn [is_Exception]. rewrite bind_run, log_run.
      unfold mret at 1, M_ret at 1. cbv beta iota.
      match goal with |- context [emit ?e w1] =>
        destruct (Hcycle (emit e w1) [e])
          as (w' & r & added & rB & rest & Hrun & H); [reflexivity|done|]
      end.
      exists w', r, added, (Exited code output), rB, rest.
      cbn [metadata]. rewrite Hcode. split; [exact Hrun|exact H].
  - cbn [is_Exception]. rewrite bind_run, log_run.
    unfold mret at 1, M_ret at 1. cbv beta iota.
    match goal with |- context [emit ?e w1] =>
      destruct (Hcycle (emit e w1) [e])
        as (w' & r & added & rB & rest & Hrun & H); [reflexivity|done|]
    end.
    exists w', r, added, (SpawnFailed kind), rB, rest.
    cbn [metadata]. split; [exact Hrun|exact H].
Qed.


(** ** Privileged commands in the rip loop *)

Lemma emits_rip_dvd_call P self (v : pyval) :
  emits P (RipThread.rip_dvd_call self [v]).
Proof. intros w. by exists []. Qed.

Ltac emits_all := repeat first [apply emits_rip_dvd_call | emits_step].

Lemma escalated_app l1 l2 :
  escalated l1 → escalated l2 → escalated (l1 ++ l2).
Proof.
  induction 1 as [|cmd res l Hp He _ IH|cmd res l Hp Hs _ IH
                  |cmd res1 res2 l Hp Hf _ IH]; intros Hl2; cbn.
  - done.
  - apply escalated_plain; auto.
  - apply escalated_first; auto.
  - apply escalated_retry; auto.
Qed.

Lemma execs_unprivileged (added : list event) :
  Forall unprivileged added → escalated (execs added).
Proof.
  induction 1 as [|e a He _ IH]; [constructor|].
  destruct e; cbn; try done.
  destruct (He _ _ _ _ eq_refl) as [Hp Hs].
  apply escalated_app; [done|]. apply escalated_plain; [done..|constructor].
Qed.

Lemma execs_elem (added : list event) cmd res :
  (cmd, res) ∈ execs added → ∃ capture dir, EExec cmd capture dir res ∈ added.
Proof.
  induction added as [|e a IH]; cbn; [by intros ?%elem_of_nil|].
  assert ((cmd, res) ∈ execs a →
          ∃ capture dir, EExec cmd capture dir res ∈ e :: a) as Hrest.
  { intros (capture & dir & Hin)%IH. exists capture, dir. by right. }
  destruct e; try done.
  intros [Hin|Hin%list_elem_of_singleton]%elem_of_app; [auto|].
  injection Hin as <- <-. eexists _, _. left.
Qed.

Lemma retry_ok_execs name (added : list event) :
  (∀ cmd res args, (cmd, res) ∈ execs added →
     cmd = "sudo" :: name :: args → completed res) →
  Forall (retry_ok name) added.
Proof.
  induction added as [|e a IH]; intros H; constructor.
  - intros args capture dir res ->. eapply H; [|done].
    cbn. apply elem_of_app. right. left.
  - apply IH. intros cmd res args Hin. apply H.
    destruct e; cbn; try done. apply elem_of_app. by left.
Qed.

Lemma escalates_emits {A} (m : M A) : emits unprivileged m → escalates m.
Proof.
  intros Hm w w' r Hrun.
  destruct (emits_run _ _ _ _ _ Hm Hrun) as (added & Htrace & Hall).
  exists added. split; [done|]. by apply execs_unprivileged.
Qed.

Lemma escalates_bind {A B} (m : M A) (k : A → M B) :
  escalates m → (∀ a, escalates (k a)) → escalates (m ≫= k).
Proof.
  intros Hm Hk w w' r [(w1 & a & Hrun1 & Hrun2)|(e & Hrun & _)]%bind_inv.
  - destruct (Hm _ _ _ Hrun1) as (a1 & Ha1 & He1).
    destruct (Hk _ _ _ _ Hrun2) as (a2 & Ha2 & He2).
    exists (a2 ++ a1). rewrite Ha2, Ha1, app_assoc. split; [done|].
    rewrite execs_app. by apply escalated_app.
  - by eapply Hm.
Qed.

Lemma escalates_try_except {A} (body : M A) cls (handler : exn → M A) :
  escalates body → (∀ e, escalates (handler e)) →
  escalates (try_except body cls handler).
Proof.
  intros Hbody Hhandler w w' r
    [[Hrun _]|(w1 & e & Hrun1 & _ & Hrun2)]%try_except_inv.
  - by eapply Hbody.
  - destruct (Hbody _ _ _ Hrun1) as (a1 & Ha1 & He1).
    destruct (Hhandler _ _ _ _ Hrun2) as (a2 & Ha2 & He2).
    exists (a2 ++ a1). rewrite Ha2, Ha1, app_assoc. split; [done|].
    rewrite execs_app. by apply escalated_app.
Qed.

(** [execute] without capture: one command is run; the call returns
    when the command completed and raises otherwise, and what it
    raises is no [CalledProcessError]. *)
Lemma execute_plain_inv cmd cwd_arg (w w' : World) (r : result (option string)) :
  execute cmd false cwd_arg w = (w', r) →
  ∃ added res,
    trace w' = added ++ trace w ∧ execs added = [(cmd, res)]
    ∧ ((completed res ∧ r = Ok None)
       ∨ (¬ completed res ∧ ∃ e, r = Raise e ∧ is_CalledProcessError e = false)).
Proof.
  unfold execute. cbv zeta.
  destruct (env_exec _ _ _ _ _) as [res n].
  set (w1 := tick _).
  set (dir := match cwd_arg with
              | Some p => FS.resolve (cwd w) p
              | None => cwd w
              end).
  assert (trace w1 = EExec cmd false dir res :: trace w) as Hw1 by done.
  clearbody w1.
  destruct res as [code output|kind].
  - rewrite bind_run. unfold log_subprocess_output. rewrite log_lines_run.
    fold (decodable output).
    set (logged := rev ((λ line, ELog DEBUG ("SUBPROCESS: " +:+ line))
                        <$> decoded_prefix (readlines output))).
    assert (∀ w2, trace w2 = logged ++ trace w1 →
              trace w2 = (logged ++ [EExec cmd false dir (Exited code output)])
                         ++ trace w
              ∧ execs (logged ++ [EExec cmd false dir (Exited code output)])
                = [(cmd, Exited code output)]) as Hlogged.
    { intros w2 ->. rewrite Hw1, <- app_assoc. split; [done|].
      rewrite execs_app. unfold logged. by rewrite execs_logs. }
    destruct (decodable output) eqn:Hdecodable.
    + destruct (code =? 0) eqn:Hcode; cbn [negb]; intros [= <- <-];
        destruct (Hlogged _ (log_lines_added _ _)) as [Htrace Hexecs];
        eexists _, (Exited code output); (split; [exact Htrace|]);
        (split; [exact Hexecs|]).
      * left. apply Z.eqb_eq in Hcode as ->. split; [by eexists|done].
      * right. apply Z.eqb_neq in Hcode. split; [|by eexists].
        by intros (? & [= -> _] & _).
    + intros [= <- <-].
      destruct (Hlogged _ (log_lines_added _ _)) as [Htrace Hexecs].
      eexists _, (Exited code output). split; [exact Htrace|].
      split; [exact Hexecs|]. right. split; [|by eexists].
      intros (? & [= _ <-] & Hd). congruence.
  - intros [= <- <-]. exists [EExec cmd false dir (SpawnFailed kind)], (SpawnFailed kind).
    split; [done|]. split; [done|]. right. split; [by intros (? & [=] & _)|by eexists].
Qed.

(** [trysudo]: the command is run as it is; when that fails, and only
    then, it is run once more behind [sudo], and a failure of the
    second run is raised. *)
Lemma trysudo_inv cmd (w w' : World) (r : result unit) :
  trysudo cmd w = (w', r) →
  ∃ added res1,
    trace w' = added ++ trace w
    ∧ ((execs added = [(cmd, res1)] ∧ completed res1 ∧ r = Ok tt)
       ∨ ∃ res2,
           execs added = [(cmd, res1); ("sudo" :: cmd, res2)]
           ∧ ¬ completed res1
           ∧ ((completed res2 ∧ r = Ok tt)
              ∨ (¬ completed res2
                 ∧ ∃ e, r = Raise e ∧ is_CalledProcessError e = false))).
Proof.
  unfold trysudo.
  intros [[Hrun Hr]|(w1 & e & Hrun & _ & Hretry)]%try_except_inv.
  - apply bind_inv in Hrun as [(w1 & a & Hrun & [= <- <-])|(e & _ & ->)];
      [|done].
    apply execute_plain_inv in Hrun
      as (added & res1 & Htrace & Hexecs & [[Hs _]|(_ & e & [=] & _)]).
    exists added, res1. split; [done|]. by left.
  - apply bind_inv in Hrun as [(? & ? & _ & [=])|(e' & Hrun & [= <-])].
    apply execute_plain_inv in Hrun
      as (a1 & res1 & Ha1 & He1 & [[_ [=]]|(Hf1 & _)]).
    rewrite bind_run, log_run, bind_run, log_run in Hretry.
    apply bind_inv in Hretry as [(w2 & a & Hrun & [= <- <-])|(e2 & Hrun & ->)];
      apply execute_plain_inv in Hrun
        as (a2 & res2 & Ha2 & He2 & Hres2); cbn in Ha2;
      exists (a2 ++ ELog INFO "Retrying with sudo..."
                 :: ELog DEBUG ("trysudo error: " +:+ exn_str e) :: a1), res1;
      (split; [by rewrite Ha2, Ha1, <- app_assoc|]); right; exists res2;
      (split; [by rewrite execs_app; cbn; rewrite He1, He2|]);
      (split; [done|]).
    + destruct Hres2 as [[Hs _]|(_ & ? & [=] & _)]. by left.
    + destruct Hres2 as [[_ [=]]|(Hf2 & e3 & [= <-] & He3)]. right. eauto.
Qed.

Lemma escalates_trysudo cmd : privileged cmd = true → escalates (trysudo cmd).
Proof.
  intros Hp w w' r Hrun.
  destruct (trysudo_inv _ _ _ _ Hrun)
    as (added & res1 & Htrace & [(Hexecs & Hs & _)|(res2 & Hexecs & Hf & _)]);
    exists added; (split; [done|]); rewrite Hexecs.
  - apply escalated_first; [done..|constructor].
  - apply escalated_retry; [done..|constructor].
Qed.

Ltac unprivileged_side :=
  let Heq := fresh "Heq" in
  unfold unprivileged; intros ? ? ? ? Heq;
  first [ discriminate Heq | by injection Heq as <- _ _ _ ].

Ltac escalates_step :=
  first
    [ apply escalates_trysudo; reflexivity
    | match goal with
      | |- escalates (try_except _ _ _) =>
          apply escalates_try_except; [|intros ?]
      | |- escalates (mbind _ _) => apply escalates_bind; [|intros ?]
      | |- escalates (if ?b then _ else _) => destruct b
      | |- escalates (match ?x with _ => _ end) => destruct x
      end
    | progress unfold mount, eject
    | apply escalates_emits; solve [emits_all; unprivileged_side] ].

Lemma loop_step_escalates self : escalates (RipThread.loop_step self).
Proof. unfold RipThread.loop_step. repeat escalates_step. Qed.

(** *** Failed retries *)

Lemma emits_unless_emits {A} P Q (m : M A) : emits P m → emits_unless P Q m.
Proof. intros Hm w w' r Hrun _. by eapply emits_run. Qed.

Lemma emits_unless_bind {A B} P Q (m : M A) (k : A → M B) :
  emits_unless P Q m → (∀ a, emits_unless P Q (k a)) →
  emits_unless P Q (m ≫= k).
Proof.
  intros Hm Hk w w' r [(w1 & a & Hrun1 & Hrun2)|(e & Hrun & ->)]%bind_inv HQ.
  - destruct (Hm _ _ _ Hrun1) as (a1 & Ha1 & HP1); [done|].
    destruct (Hk _ _ _ _ Hrun2 HQ) as (a2 & Ha2 & HP2).
    exists (a2 ++ a1). rewrite Ha2, Ha1, app_assoc. split; [done|].
    by apply Forall_app.
  - eapply Hm; [exact Hrun|]. intros e0 [= <-]. by apply HQ.
Qed.

Lemma emits_unless_try_except {A} P Q (body : M A) cls (handler : exn → M A) :
  emits_unless P (λ e, cls e = true ∨ Q e) body →
  (∀ e, emits_unless P Q (handler e)) →
  emits_unless P Q (try_except body cls handler).
Proof.
  intros Hbody Hhandler w w' r
    [[Hrun _]|(w1 & e & Hrun1 & Hcls & Hrun2)]%try_except_inv HQ.
  - eapply Hbody; [done|]. intros e He. right. by apply HQ.
  - destruct (Hbody _ _ _ Hrun1) as (a1 & Ha1 & HP1).
    { intros e' [= <-]. by left. }
    destruct (Hhandler _ _ _ _ Hrun2 HQ) as (a2 & Ha2 & HP2).
    exists (a2 ++ a1). rewrite Ha2, Ha1, app_assoc. split; [done|].
    by apply Forall_app.
Qed.

Lemma emits_unless_trysudo name (Q : exn → Prop) cmd :
  elevated cmd = false →
  (∀ e, Q e → is_CalledProcessError e = true) →
  emits_unless (retry_ok name) Q (trysudo cmd).
Proof.
  intros Hplain HQ w w' r Hrun Hr.
  destruct (trysudo_inv _ _ _ _ Hrun)
    as (added & res1 & Htrace
        & [(Hexecs & Hs & _)
          |(res2 & Hexecs & _ & [[Hs _]|(_ & e & -> & He)])]).
  - exists added. split; [done|]. apply retry_ok_execs. rewrite Hexecs.
    by intros c res args [= -> ->]%list_elem_of_singleton.
  - exists added. split; [done|]. apply retry_ok_execs. rewrite Hexecs.
    intros c res args [[= -> ->]|[= -> ->]%list_elem_of_singleton]%elem_of_cons;
      [|done].
    intros ->. discriminate Hplain.
  - rewrite (HQ e) in He; [done|]. by apply Hr.
Qed.

Ltac retry_side := try done; try by (unfold retry_ok; intros ? ? ? ? [=]).

Ltac unless_step :=
  first
    [ apply emits_unless_trysudo;
        [reflexivity|let H := fresh in by (intros ? H; repeat destruct H as [H|H])]
    | match goal with
      | |- emits_unless _ _ (try_except _ _ _) =>
          apply emits_unless_try_except; [|intros ?]
      | |- emits_unless _ _ (mbind _ _) => apply emits_unless_bind; [|intros ?]
      | |- emits_unless _ _ (if ?b then _ else _) => destruct b
      | |- emits_unless _ _ (match ?x with _ => _ end) => destruct x
      end
    | progress unfold mount, eject
    | apply emits_unless_emits; solve [emits_all; retry_side] ].

Lemma mount_retry_ok name drive mnt :
  emits_unless (retry_ok name) (λ _, False) (mount drive mnt).
Proof. repeat unless_step. Qed.

Lemma loop_step_eject_ok self :
  emits_unless (retry_ok "eject") (λ _, False) (RipThread.loop_step self).
Proof. unfold RipThread.loop_step. repeat unless_step. Qed.

Lemma run_raises (self : RipThread.t) (w w' : World) e fuel :
  env_stopped (env w) (clock w) = false →
  RipThread.loop_step self w = (w', Raise e) →
  RipThread.run (S fuel) self w = (w', Raise e).
Proof.
  intros Hgo Hrun. unfold RipThread.run. cbn [LoopThread.run].
  rewrite bind_run. unfold LoopThread.stopped, is_set. rewrite Hgo.
  by rewrite bind_run, Hrun.
Qed.

(** [advance_with side]: as [advance], the events of the step being
    checked with [side]. *)
Ltac advance_with side Hrun Hadds w2 a :=
  let Hstep := fresh "Hstep" in
  let Hm := fresh "Hm" in
  let e := fresh "e" in
  match type of Hadds with
  | adds ?P _ _ =>
      match type of Hrun with
      | (?m ≫= _) ?w1 = _ =>
          assert (emits P m) as Hm by (emits_all; side);
          apply bind_inv in Hrun as [(w2 & a & Hstep & Hrun)|(e & Hstep & ->)];
          apply (emits_run P _ _ _ _ Hm) in Hstep;
          apply (adds_trans _ _ _ _ Hadds) in Hstep;
          clear Hm Hadds; rename Hstep into Hadds
      end
  end.

(** C8, at the failing input: a data disc in a drive where neither
    [mount] nor [eject] is permitted, with or without [sudo].  Each of
    the two is run once as it is and once behind [sudo].  The double
    failure of [mount] is caught in [loop_step] and logged, and the
    iteration goes on to copy the disc; the double failure of [eject]
    is caught by nothing: the first iteration raises [Exception(1)],
    the last record of the log is the output of the retry, and the
    loop neither sleeps nor polls again. *)
Theorem unguarded_eject_ends_loop :
  let run := RipThread.run 3 Sample.rip_thread Denied.world in
  run.2 = Raise (ExceptionExit 1)
  ∧ commands (trace run.1)
    = [["blkid"; "/dev/sr0"]; ["cdparanoia"; "-sQ"];
       ["mount"; "/dev/sr0"; "./mnt/dev/sr0"];
       ["sudo"; "mount"; "/dev/sr0"; "./mnt/dev/sr0"];
       ["dd"; "if=/dev/sr0"; "of=./wip/iso/MOVIE-ABCD-1234.iso";
        "status=progress"];
       ["eject"; "-F"; "/dev/sr0"];
       ["sudo"; "eject"; "-F"; "/dev/sr0"]]
  ∧ ELog DEBUG "mount error: 32" ∈ trace run.1
  ∧ head (trace run.1)
    = Some (ELog DEBUG "SUBPROCESS: eject: unable to eject")
  ∧ existsb sleeps (trace run.1) = false.
Proof.
  intros run.
  split; [by vm_compute|]. split; [by vm_compute|]. split.
  { apply list_elem_of_In. vm_compute. tauto. }
  split; by vm_compute.
Qed.

(** In an iteration of the rip loop every privileged command is
    first run as it is and, when that call of [execute] raised and
    only then (the command exited with another status than zero, could
    not be started, or printed a line that cannot be decoded), once
    more behind [sudo].  When the retry of [mount] fails too, the
    error is logged and the iteration goes on to look for [VIDEO_TS].
    When the retry of [eject] fails too, the iteration raises, and the
    exception leaves the loop. *)
Theorem privileged_operations (self : RipThread.t) (w w' : World)
    (r : result unit) (added : list event) :
  RipThread.loop_step self w = (w', r) →
  trace w' = added ++ trace w →
  escalated (execs added)
  ∧ (∀ res,
       ("sudo" :: mount_command self, res) ∈ execs added → ¬ completed res →
       (∃ e, ELog DEBUG ("mount error: " +:+ exn_str e) ∈ added)
       ∧ ∃ found, EExists (video_ts_path self) found ∈ added)
  ∧ (∀ res,
       ("sudo" :: eject_command self, res) ∈ execs added → ¬ completed res →
       ∃ e, r = Raise e
            ∧ (env_stopped (env w) (clock w) = false →
               ∀ fuel, RipThread.run (S fuel) self w = (w', Raise e))).
Proof.
  intros Hrun Htrace. split; [|split].
  - destruct (loop_step_escalates self w w' r Hrun) as (a & Ha & Hesc).
    rewrite Ha in Htrace. by apply app_inv_tail in Htrace as ->.
  - intros res (capture & dir & Hin)%execs_elem Hfail.
    assert (retry_ok "mount" (EExec ("sudo" :: mount_command self) capture dir res)
            → False) as Hcontra.
    { intros Hok. apply Hfail. by eapply Hok. }
    assert (∀ w1, adds (retry_ok "mount") w w1 → w1 = w' → False) as Hdead.
    { intros w1 H1 ->. apply Hcontra. by eapply adds_elem. }
    pose proof (adds_refl (retry_ok "mount") w) as Hadds.
    unfold RipThread.loop_step in Hrun.
    advance_with retry_side Hrun Hadds w1 a1; [|by destruct (Hdead w')].
    advance_with retry_side Hrun Hadds w2 blkid_str; [|by destruct (Hdead w')].
    advance_with retry_side Hrun Hadds w3 redbook; [|by destruct (Hdead w')].
    destruct redbook.
    { injection Hrun as <- <-. by destruct (Hdead w3). }
    destruct blkid_str as [blkid_str|].
    2: { unfold log in Hrun. injection Hrun as <- <-.
         destruct (Hdead (emit (ELog DEBUG "No disc detected") w3)); [|done].
         by apply adds_emit. }
    destruct (String.length blkid_str =? 0)%nat.
    { unfold log in Hrun. injection Hrun as <- <-.
      destruct (Hdead (emit (ELog DEBUG "No disc detected") w3)); [|done].
      by apply adds_emit. }
    advance_with retry_side Hrun Hadds w4 a4; [|by destruct (Hdead w')].
    advance_with retry_side Hrun Hadds w5 blkid; [|by destruct (Hdead w')].
    advance_with retry_side Hrun Hadds w6 blkid_params; [|by destruct (Hdead w')].
    advance_with retry_side Hrun Hadds w7 a7; [|by destruct (Hdead w')].
    apply bind_inv in Hrun as [(w8 & [] & Hmount & Hrun)|(e & Hmount & _)].
    2: { exfalso.
         apply try_except_inv in Hmount
           as [[_ Hcls]|(w8 & e' & _ & _ & Hlog)]; [done|].
         rewrite log_run in Hlog. discriminate Hlog. }
    apply try_except_inv in Hmount as [[Hmount _]|(w7' & e & Hmount & _ & Hlog)].
    + destruct (mount_retry_ok "mount" _ _ _ _ _ Hmount) as (am & Gm & HPm);
        [done|].
      eapply (emits_run (retry_ok "mount")) in Hrun; [|emits_all; retry_side].
      destruct (Hdead w'); [|done].
      eapply adds_trans; [|exact Hrun].
      eapply adds_trans; [exact Hadds|]. by exists am.
    + rewrite log_run in Hlog. injection Hlog as <-.
      rewrite bind_run, log_run, bind_run, exists_run in Hrun.
      fold (mnt_path self) in Hrun. fold (video_ts_path self) in Hrun.
      eapply grows_run in Hmount as [mounting Gm]; [|emits_all; auto].
      eapply grows_run in Hrun as [after Ga]; [|emits_all; auto].
      repeat apply grows_strip in Ga.
      destruct Hadds as (before & Gb & _).
      pose proof (grows_trans _ _ _ _ _ (grows_trans _ _ _ _ _ Gb Gm) Ga) as G.
      unfold grows_by in G. rewrite Htrace in G. apply app_inv_tail in G as ->.
      split; [exists e|eexists]; rewrite !elem_of_app, !list_elem_of_singleton;
        eauto 10.
  - intros res (capture & dir & Hin)%execs_elem Hfail.
    destruct r as [[]|e].
    + destruct (loop_step_eject_ok self w w' (Ok tt) Hrun) as (a & Ha & Hall);
        [done|].
      rewrite Ha in Htrace. apply app_inv_tail in Htrace as ->.
      destruct Hfail. eapply Forall_forall in Hall; [|exact Hin].
      by eapply Hall.
    + exists e. split; [done|]. intros Hgo fuel. by apply run_raises.
Qed.

Lemma privileged_operations_witness :
  let run := RipThread.loop_step Sample.rip_thread Denied.world in
  escalated (execs (trace run.1))
  ∧ (∃ found, EExists "./mnt/dev/sr0/VIDEO_TS" found ∈ trace run.1)
  ∧ ∃ e, run.2 = Raise e.
Proof.
  intros run.
  destruct (privileged_operations Sample.rip_thread Denied.world run.1 run.2
              (trace run.1)) as (Hesc & Hmount & Heject).
  - apply run_surj.
  - exact (eq_sym (app_nil_r _)).
  - split; [exact Hesc|]. split.
    + destruct (Hmount (Exited 32 "mount: only root can do that"))
        as [_ Hprobe].
      * apply list_elem_of_In. vm_compute. tauto.
      * by intros (? & [=] & _).
      * exact Hprobe.
    + destruct (Heject (Exited 1 "eject: unable to eject")) as (e & He & _).
      * apply list_elem_of_In. vm_compute. tauto.
      * by intros (? & [=] & _).
      * by exists e.
Defined.


(** * Further properties of the program *)

(** ** The metadata of the drive *)

Lemma all_chars_take_while f s : all_chars f (PyStr.take_while f s) = true.
Proof.
  induction s as [|c s IH]; [done|]. cbn.
  destruct (f c) eqn:Hc; [|done]. cbn. by rewrite Hc.
Qed.

Lemma match_param_entry s k v len :
  PyStr.match_param s = Some (k, v, len) →
  k ≠ "" ∧ all_chars PyStr.is_word k = true ∧ v ≠ "" ∧ unquoted v = true.
Proof.
  unfold PyStr.match_param. cbv zeta.
  pose proof (all_chars_take_while PyStr.is_word s) as Hkey.
  destruct (PyStr.take_while PyStr.is_word s) as [|kc key]; [done|].
  destruct (PyStr.sdrop _ s) as [|eq rest0]; [done|].
  destruct eq as [[] [] [] [] [] [] [] []]; try done.
  destruct rest0 as [|q rest]; [done|].
  destruct (q =? PyStr.dquote)%char; [|done].
  pose proof (all_chars_take_while
                (λ c, negb (c =? PyStr.dquote)%char) rest) as Hvalue.
  destruct (PyStr.take_while _ rest) as [|vc value]; [done|].
  destruct (PyStr.sdrop _ rest) as [|q' rest']; [done|].
  destruct (q' =? PyStr.dquote)%char; [|done].
  by intros [= <- <- <-].
Qed.

Lemma finditer_params_entries skip s :
  Forall (λ '(k, v), k ≠ "" ∧ all_chars PyStr.is_word k = true
                     ∧ v ≠ "" ∧ unquoted v = true)
    (PyStr.finditer_params skip s).
Proof.
  revert skip. induction s as [|c s IH]; intros skip; [constructor|].
  cbn [PyStr.finditer_params]. destruct skip as [|skip]; [|apply IH].
  destruct (PyStr.match_param (String c s)) as [[[k v] len]|] eqn:Hmatch;
    [|apply IH].
  constructor; [|apply IH]. by eapply match_param_entry.
Qed.

(** Every entry that [parse_blkid_params] returns has a key made of
    one or more word characters and a value of one or more characters
    other than the double quote. *)
Theorem parse_blkid_params_entries (params_str k v : string) :
  parse_blkid_params params_str !! k = Some v →
  k ≠ "" ∧ all_chars PyStr.is_word k = true ∧ v ≠ "" ∧ unquoted v = true.
Proof.
  unfold parse_blkid_params.
  assert (∀ (l : list (string * string)) (m : gmap string string),
            Forall (λ '(k, v), k ≠ "" ∧ all_chars PyStr.is_word k = true
                               ∧ v ≠ "" ∧ unquoted v = true) l →
            (∀ k v, m !! k = Some v →
                    k ≠ "" ∧ all_chars PyStr.is_word k = true
                    ∧ v ≠ "" ∧ unquoted v = true) →
            ∀ k v, foldl (λ params '(key, value), <[key := value]> params) m l
                   !! k = Some v →
                   k ≠ "" ∧ all_chars PyStr.is_word k = true
                   ∧ v ≠ "" ∧ unquoted v = true) as Hfold.
  { induction l as [|[k0 v0] l IH]; intros m Hl Hm; [exact Hm|].
    apply Forall_cons in Hl as [Hentry Hl]. cbn [foldl]. apply IH; [done|].
    intros k1 v1. destruct (decide (k0 = k1)) as [->|Hne].
    - rewrite lookup_insert_eq. by intros [= <-].
    - rewrite lookup_insert_ne by done. apply Hm. }
  apply Hfold; [apply finditer_params_entries|].
  intros k0 v0. by rewrite lookup_empty.
Qed.

Lemma parse_blkid_params_entries_witness :
  let text := "UUID=" +:+ Sample.quoted "ABCD-1234" +:+ " LABEL="
              +:+ Sample.quoted "MOVIE" in
  parse_blkid_params text !! "LABEL" = Some "MOVIE"
  ∧ all_chars PyStr.is_word "LABEL" = true ∧ unquoted "MOVIE" = true.
Proof.
  intros text.
  assert (parse_blkid_params text !! "LABEL" = Some "MOVIE") as Hlookup
    by (by vm_compute).
  split; [exact Hlookup|].
  destruct (parse_blkid_params_entries text "LABEL" "MOVIE" Hlookup)
    as (_ & Hk & _ & Hv).
  by split.
Defined.


Lemma split_go_length sep skip cur s :
  (1 ≤ length (PyStr.split_go sep skip cur s))%nat.
Proof.
  revert skip cur. induction s as [|c s IH]; intros skip cur;
    cbn [PyStr.split_go]; [cbn; lia|].
  destruct skip; [|apply IH].
  destruct (String.prefix sep (String c s)); [cbn [length]; lia|apply IH].
Qed.

Lemma split_one_piece sep cur s :
  sep ≠ "" →
  (length (PyStr.split_go sep 0 cur s) = 1)%nat ↔ str_contains sep s = false.
Proof.
  intros Hsep. revert cur. induction s as [|c s IH]; intros cur.
  - cbn. by destruct sep.
  - cbn [PyStr.split_go str_contains].
    destruct (String.prefix sep (String c s)).
    + cbn. pose proof (split_go_length sep (String.length sep - 1) "" s).
      split; [lia|done].
    + cbn [orb]. apply IH.
Qed.

Lemma parse_blkid_loop_raises lines blkid e :
  parse_blkid_loop lines blkid = Raise e ↔
  e = IndexError
  ∧ ∃ line, line ∈ lines ∧ line ≠ "" ∧ str_contains ": " line = false.
Proof.
  revert blkid. induction lines as [|line lines IH]; intros blkid.
  { cbn. split; [done|]. by intros (_ & ? & ?%elem_of_nil & _). }
  cbn [parse_blkid_loop]. destruct (String.eqb_spec line "") as [->|Hne].
  { rewrite IH. split; intros (-> & l & Hin & Hl); (split; [done|]); exists l.
    - split; [by right|done].
    - apply elem_of_cons in Hin as [->|Hin]; [by destruct Hl|done]. }
  pose proof (split_go_length ": " 0 "" line) as Hlen.
  pose proof (split_one_piece ": " "" line) as Hone.
  fold (PyStr.split ": " line) in Hlen, Hone.
  destruct (PyStr.split ": " line) as [|blk [|params_str parts]] eqn:Hparts;
    cbn in Hlen; [lia| |].
  - cbn. split.
    + intros [= <-]. split; [done|]. exists line. split; [by left|].
      split; [done|]. by apply Hone.
    + by intros [-> _].
  - cbn. rewrite IH. split; intros (-> & l & Hin & Hl); (split; [done|]); exists l.
    + split; [by right|done].
    + apply elem_of_cons in Hin as [->|Hin]; [|done].
      destruct Hl as [_ Hl]. apply Hone in Hl; [|done]. cbn in Hl. lia.
Qed.

(** [parse_blkid] fails exactly when a line that is not empty does not
    hold the separator between the device and its parameters; what it
    raises then is [IndexError]. *)
Theorem parse_blkid_raises (blkid_str : string) (e : exn) :
  parse_blkid blkid_str = Raise e ↔
  e = IndexError
  ∧ ∃ line, line ∈ PyStr.split PyStr.LF blkid_str
            ∧ line ≠ "" ∧ str_contains ": " line = false.
Proof. apply parse_blkid_loop_raises. Qed.

(** ** Short and malformed tables of contents *)

(** A table of contents of at most eight lines gives no track length
    at all, so every disc with such a table has the identity of the
    empty tuple. *)
Theorem short_tables_share_identity (cdp_str1 cdp_str2 : string) (w : World) :
  (length (PyStr.split PyStr.LF cdp_str1) ≤ 8)%nat →
  (length (PyStr.split PyStr.LF cdp_str2) ≤ 8)%nat →
  cdparanoia_lengths cdp_str1 = Ok []
  ∧ identity w (Redbook cdp_str1) = identity w (Redbook cdp_str2).
Proof.
  assert (∀ s, (length (PyStr.split PyStr.LF s) ≤ 8)%nat →
               cdparanoia_lengths s = Ok []) as Hshort.
  { intros s Hlen. unfold cdparanoia_lengths. cbv zeta. rewrite slice_rows.
    by replace (length (PyStr.split PyStr.LF s) - 8)%nat with 0%nat by lia. }
  intros H1 H2. split; [by apply Hshort|].
  cbn [identity]. by rewrite !Hshort.
Qed.

Lemma short_tables_share_identity_witness :
  identity audio_world (Redbook one_track_table)
  = identity audio_world (Redbook "").
Proof.
  apply (short_tables_share_identity one_track_table "" audio_world).
  - vm_compute. lia.
  - vm_compute. lia.
Defined.

Lemma mapM_raises {A B} (f : A → result B) (l : list A) e :
  mapM f l = Raise e → ∃ x, x ∈ l ∧ f x = Raise e.
Proof.
  induction l as [|x l IH]; [done|]. cbn.
  destruct (f x) as [b|e'] eqn:Hx; cbn.
  - destruct (mapM f l) as [bs|e']; cbn; [done|].
    intros [= ->]. destruct IH as (y & Hin & Hy); [done|].
    exists y. split; [by right|done].
  - intros [= ->]. exists x. split; [by left|done].
Qed.

(** [cdparanoia_hash] fails only on a row of eight fields whose second
    field is no integer, and what it raises then is [ValueError]: a
    row always has its second field, so there is no [IndexError]. *)
Theorem cdparanoia_lengths_raises_value_error (cdp_str : string) (e : exn) :
  cdparanoia_lengths cdp_str = Raise e →
  e = ValueError
  ∧ ∃ row field,
      row ∈ track_rows 2 cdp_str
      ∧ PyStr.split_ws row !! 1%nat = Some field
      ∧ PyStr.int field = None.
Proof.
  unfold cdparanoia_lengths, track_rows. cbv zeta.
  rewrite loop_rows, slice_lines_between.
  destruct (mapM row_length _) as [l|e'] eqn:Hrows; [done|].
  intros [= ->]. apply mapM_raises in Hrows as (row & Hin & Hrow).
  pose proof Hin as [Hfields _]%list_elem_of_filter.
  unfold is_row in Hfields. unfold row_length, index in Hrow.
  destruct (PyStr.split_ws row !! 1%nat) as [field|] eqn:Hfield.
  - cbn in Hrow. destruct (PyStr.int field) eqn:Hint; [done|].
    injection Hrow as <-. split; [done|]. by exists row, field.
  - apply lookup_ge_None in Hfield. lia.
Qed.

Lemma cdparanoia_lengths_raises_value_error_witness :
  let table :=
    PyStr.join PyStr.LF
      ["h1"; "h2"; "h3"; "h4"; "h5"; "h6";
       "  1.   2400x0 [53:20.00]        0 [00:00.00]    no   no  2";
       "TOTAL"; ""] in
  cdparanoia_lengths table = Raise ValueError.
Proof.
  intros table.
  destruct (cdparanoia_lengths table) as [l|e] eqn:Hrun.
  - vm_compute in Hrun. discriminate Hrun.
  - by destruct (cdparanoia_lengths_raises_value_error table e Hrun) as [-> _].
Defined.


(** ** What leaves the mount points and the working directory alone *)

Lemma steady_ret {A} (a : A) : steady (mret a).
Proof. by intros w w' r [= <- <-]. Qed.

Lemma steady_raise {A} e : steady (raise e : M A).
Proof. by intros w w' r [= <- <-]. Qed.

Lemma steady_lift {A} (x : result A) : steady (lift x).
Proof. by intros w w' r [= <- <-]. Qed.

Lemma steady_bind {A B} (m : M A) (k : A → M B) :
  steady m → (∀ a, steady (k a)) → steady (m ≫= k).
Proof.
  intros Hm Hk w w' r [(w1 & a & Hrun1 & Hrun2)|(e & Hrun & _)]%bind_inv.
  - destruct (Hm _ _ _ Hrun1) as [Hm1 Hc1], (Hk _ _ _ _ Hrun2) as [Hm2 Hc2].
    split; congruence.
  - by eapply Hm.
Qed.

Lemma steady_try_except {A} (body : M A) cls (handler : exn → M A) :
  steady body → (∀ e, steady (handler e)) →
  steady (try_except body cls handler).
Proof.
  intros Hbody Hhandler w w' r
    [[Hrun _]|(w1 & e & Hrun1 & _ & Hrun2)]%try_except_inv.
  - by eapply Hbody.
  - destruct (Hbody _ _ _ Hrun1) as [Hm1 Hc1].
    destruct (Hhandler _ _ _ _ Hrun2) as [Hm2 Hc2]. split; congruence.
Qed.

Lemma steady_for_each {X} (l : list X) (body : X → M unit) :
  (∀ x, steady (body x)) → steady (for_each l body).
Proof.
  intros Hbody. induction l as [|x l IH]; cbn [for_each].
  - apply steady_ret.
  - apply steady_bind; auto.
Qed.

Lemma steady_for_return {X R} (l : list X) (body : X → M (option R)) :
  (∀ x, steady (body x)) → steady (for_return l body).
Proof.
  intros Hbody. induction l as [|x l IH]; cbn [for_return].
  - apply steady_ret.
  - apply steady_bind; [done|]. intros [v|]; [apply steady_ret|done].
Qed.

Lemma steady_log lvl msg : steady (log lvl msg).
Proof. by intros w w' r [= <- <-]. Qed.

Lemma steady_exists p : steady (exists_ p).
Proof. by intros w w' r [= <- <-]. Qed.

Lemma steady_makedirs p : steady (makedirs p).
Proof.
  intros w w' r. unfold makedirs.
  destruct (FS.mkdirs _ _); by intros [= <- <-].
Qed.

Lemma steady_listdir p : steady (listdir p).
Proof.
  intros w w' r. unfold listdir.
  destruct (FS.lookup _ _) as [[]|]; by intros [= <- <-].
Qed.

Lemma steady_rmdir p : steady (rmdir p).
Proof.
  intros w w' r. unfold rmdir. cbv zeta.
  destruct (FS.resolve (cwd w) p) as [|c path]; [by intros [= <- <-]|].
  destruct (FS.lookup _ _) as [[|[|]]|]; by intros [= <- <-].
Qed.

Lemma steady_remove p : steady (remove p).
Proof.
  intros w w' r. unfold remove.
  destruct (FS.lookup _ _) as [[]|]; by intros [= <- <-].
Qed.

Lemma steady_rmtree p : steady (rmtree_ignore_errors p).
Proof.
  intros w w' r. unfold rmtree_ignore_errors. cbv zeta.
  destruct (FS.resolve (cwd w) p) as [|c path]; [by intros [= <- <-]|].
  destruct (FS.lookup _ _) as [[]|]; by intros [= <- <-].
Qed.

Lemma steady_move src dst : steady (move src dst).
Proof.
  intros w w' r. unfold move. cbv zeta.
  match goal with |- context [match ?x with Ok _ => _ | Raise _ => _ end] =>
    destruct x end; by intros [= <- <-].
Qed.

Lemma steady_getsize p : steady (getsize p).
Proof. by intros w w' r [= <- <-]. Qed.

Lemma steady_sleep s : steady (sleep s).
Proof. by intros w w' r [= <- <-]. Qed.

Lemma steady_getcwd : steady getcwd.
Proof. by intros w w' r [= <- <-]. Qed.

Lemma steady_abspath p : steady (abspath p).
Proof. by intros w w' r [= <- <-]. Qed.

Lemma steady_builtin_hash t : steady (builtin_hash t).
Proof. by intros w w' r [= <- <-]. Qed.

Lemma steady_update_key p : steady (updateMakeMkvKey p).
Proof.
  intros w w' r. unfold updateMakeMkvKey. cbv zeta.
  destruct (env_update_key _ _ _ _) as [failure n]. by intros [= <- <-].
Qed.

Lemma steady_execute cmd capture cwd_arg : steady (execute cmd capture cwd_arg).
Proof.
  intros w w' r. unfold execute. cbv zeta.
  destruct (env_exec _ _ _ _ _) as [[code output|kind] n];
    [|by intros [= <- <-]].
  destruct capture.
  - destruct (code =? 0); [rewrite decoded_run|]; by intros [= <- <-].
  - intros Hrun.
    assert (steady (log_subprocess_output output;;
                    if negb (code =? 0) then raise (ExceptionExit code)
                    else mret (@None string))) as Hsteady.
    { apply steady_bind.
      - apply steady_for_each. intros line.
        apply steady_bind; [apply steady_lift|intros; apply steady_log].
      - intros _. destruct (negb _); [apply steady_raise|apply steady_ret]. }
    by apply Hsteady in Hrun.
Qed.

Ltac steady_step :=
  first
    [ apply steady_log | apply steady_exists | apply steady_makedirs
    | apply steady_listdir | apply steady_rmdir | apply steady_remove
    | apply steady_rmtree | apply steady_move | apply steady_getsize
    | apply steady_sleep | apply steady_getcwd | apply steady_abspath
    | apply steady_builtin_hash | apply steady_update_key
    | apply steady_execute | apply steady_lift
    | apply steady_for_each; intros ?
    | apply steady_for_return; intros ?
    | match goal with
      | |- steady (try_except _ _ _) => apply steady_try_except; [|intros ?]
      | |- steady (mbind _ _) => apply steady_bind; [|intros ?]
      | |- steady (mret _) => apply steady_ret
      | |- steady (raise _) => apply steady_raise
      | |- steady (if ?b then _ else _) => destruct b
      | |- steady (match ?x with _ => _ end) => destruct x
      | |- steady (let _ := _ in _) => cbv zeta
      end
    | progress unfold TranscodeThread.transcode_disc,
        TranscodeThread.transcode_file, TranscodeThread._wait_for_file_stable,
        RipThread.rip_data_disc, RipThread.rip_dvd, cdparanoia_hash,
        unmount, eject, trysudo ].

Ltac steady_steps := repeat steady_step.

Lemma steady_trysudo cmd : steady (trysudo cmd).
Proof. steady_steps. Qed.


(** ** Running a command *)

Lemma head_drop_while f s c :
  str_head (PyStr.drop_while f s) = Some c → f c = false.
Proof.
  induction s as [|a s IH]; [done|]. cbn.
  destruct (f a) eqn:Ha; [done|]. by intros [= <-].
Qed.

Lemma last_drop_while f s c :
  str_last (PyStr.drop_while f s) = Some c → str_last s = Some c.
Proof.
  induction s as [|a s IH]; [done|]. cbn [PyStr.drop_while].
  destruct (f a); [|done]. intros Hc%IH. cbn. by rewrite Hc.
Qed.

Lemma last_rev_app s1 s2 :
  str_last (String.rev_app s1 s2)
  = match str_last s2 with Some d => Some d | None => str_head s1 end.
Proof.
  revert s2. induction s1 as [|a s1 IH]; intros s2; cbn.
  - by destruct (str_last s2).
  - rewrite IH. cbn. by destruct (str_last s2).
Qed.

Lemma head_rev_app s1 s2 :
  str_head (String.rev_app s1 s2)
  = match str_last s1 with Some d => Some d | None => str_head s2 end.
Proof.
  revert s2. induction s1 as [|a s1 IH]; intros s2; cbn; [done|].
  rewrite IH. by destruct (str_last s1).
Qed.

Lemma strip_stripped s : stripped (PyStr.strip_with PyStr.is_bytes_space s).
Proof.
  intros c. unfold PyStr.strip_with, String.rev.
  rewrite head_rev_app, last_rev_app. cbn [str_last str_head].
  intros [Hc|Hc].
  - destruct (str_last (PyStr.drop_while _ (String.rev_app _ ""))) as [d|] eqn:Hd;
      [|done].
    injection Hc as ->. apply last_drop_while in Hd.
    rewrite last_rev_app in Hd. cbn in Hd. by eapply head_drop_while.
  - by eapply head_drop_while.
Qed.

(** [execute] with capture runs the command once and logs nothing.
    What it returns is a text, never [None]: the output of a command
    that exited with status zero, stripped of white space at both ends
    and then decoded.  Otherwise it raises: [CalledProcessError] when
    the command exited with another status, [UnicodeDecodeError] when
    it exited with status zero and the stripped output is no UTF-8,
    and an [OSError] when it could not be started. *)
Theorem execute_capture (cmd : list string) (cwd_arg : option string)
    (w w' : World) (r : result (option string)) :
  execute cmd true cwd_arg w = (w', r) →
  ∃ dir res,
    trace w' = EExec cmd true dir res :: trace w
    ∧ match r with
      | Ok (Some text) =>
          stripped text ∧ PyStr.utf8_valid text = true
          ∧ ∃ output,
              res = Exited 0 output
              ∧ text = PyStr.strip_with PyStr.is_bytes_space output
      | Ok None => False
      | Raise e =>
          (∃ code output,
             res = Exited code output ∧ code ≠ 0 ∧ e = CalledProcessError code)
          ∨ (∃ kind, res = SpawnFailed kind ∧ e = OSError kind)
          ∨ (∃ output,
               res = Exited 0 output
               ∧ PyStr.utf8_valid
                   (PyStr.strip_with PyStr.is_bytes_space output) = false
               ∧ e = UnicodeDecodeError)
      end.
Proof.
  unfold execute. cbv zeta.
  destruct (env_exec _ _ _ _ _) as [[code output|kind] n].
  - destruct (code =? 0) eqn:Hcode.
    + apply Z.eqb_eq in Hcode as ->. rewrite decoded_run. unfold decode.
      destruct (PyStr.utf8_valid _) eqn:Hvalid; intros [= <- <-];
        eexists _, _; (split; [done|]).
      * split; [apply strip_stripped|]. split; [done|]. by eexists.
      * right. right. by eexists.
    + apply Z.eqb_neq in Hcode. intros [= <- <-]. eexists _, _.
      split; [done|]. left. by eexists _, _.
  - intros [= <- <-]. eexists _, _. split; [done|]. right. left. by eexists.
Qed.

Lemma execute_capture_witness :
  let run := execute ["blkid"; "/dev/sr0"] true None
               (Sample.world (Sample.environment Sample.Data true) (Dir [])) in
  let garbled := execute ["blkid"; "/dev/sr0"] true None Garbled.world in
  (∃ text, run.2 = Ok (Some text) ∧ stripped text)
  ∧ garbled.2 = Raise UnicodeDecodeError.
Proof.
  intros run garbled. split; [|by vm_compute].
  destruct (execute_capture _ _ _ run.1 run.2 (run_surj _ _))
    as (dir & res & _ & Hr).
  destruct run.2 as [[text|]|e] eqn:Hrun.
  - exists text. by destruct Hr.
  - done.
  - vm_compute in Hrun. discriminate Hrun.
Defined.

(** [execute] without capture runs the command once and then writes
    its output to the log line by line, each line decoded, until a
    line cannot be decoded, whether the command succeeded or not.
    When every line was decoded it returns [None] on the exit status
    zero and raises [Exception(exitcode)] on another; a line that is
    no UTF-8 raises [UnicodeDecodeError] whatever the exit status,
    with the lines before it in the log.  A command that could not be
    started raises the [OSError] of the spawn. *)
Theorem execute_logs_output (cmd : list string) (cwd_arg : option string)
    (w w' : World) (r : result (option string)) :
  execute cmd false cwd_arg w = (w', r) →
  ∃ dir res,
    trace w'
    = rev ((λ line, ELog DEBUG ("SUBPROCESS: " +:+ line))
           <$> decoded_prefix (readlines (output_of res)))
      ++ EExec cmd false dir res :: trace w
    ∧ match res with
      | Exited code output =>
          r = if decodable output
              then if code =? 0 then Ok None else Raise (ExceptionExit code)
              else Raise UnicodeDecodeError
      | SpawnFailed kind => r = Raise (OSError kind)
      end.
Proof.
  unfold execute. cbv zeta.
  destruct (env_exec _ _ _ _ _) as [[code output|kind] n].
  - rewrite bind_run. unfold log_subprocess_output. rewrite log_lines_run.
    fold (decodable output). set (w1 := tick _).
    pose proof (log_lines_added (decoded_prefix (readlines output)) w1)
      as Hlogged.
    intros Hrun. eexists _, (Exited code output). cbn [output_of].
    destruct (decodable output);
      [destruct (code =? 0); cbn [negb] in Hrun|];
      injection Hrun as <- <-; (split; [exact Hlogged|done]).
  - intros [= <- <-]. by eexists _, (SpawnFailed kind).
Qed.

Lemma execute_logs_output_witness :
  let run := execute ["eject"; "-F"; "/dev/sr0"] false None
               (Sample.world (Sample.environment Sample.Data false) (Dir [])) in
  let garbled := execute ["eject"; "-F"; "/dev/sr0"] false None
                   Garbled.world in
  run.2 = Raise (ExceptionExit 1)
  ∧ head (trace run.1)
    = Some (ELog DEBUG "SUBPROCESS: eject: unable to eject")
  ∧ garbled.2 = Raise UnicodeDecodeError
  ∧ trace garbled.1
    = [EExec ["eject"; "-F"; "/dev/sr0"] false [] (Exited 0 Garbled.noise)].
Proof.
  intros run garbled.
  destruct (execute_logs_output _ _ _ run.1 run.2 (run_surj _ _))
    as (dir & res & Htrace & Hr).
  assert (last (trace run.1)
          = Some (EExec ["eject"; "-F"; "/dev/sr0"] false []
                    (Exited 1 "eject: unable to eject"))) as Hlast
    by (by vm_compute).
  rewrite Htrace, last_app in Hlast. cbn in Hlast. injection Hlast as -> ->.
  split; [exact Hr|]. split; [by rewrite Htrace|]. split; by vm_compute.
Defined.


(** ** The registry of mount points *)

(** [mount] makes the mount point, runs [mount] with the retry behind
    [sudo] and then registers the mount point: the registry grows by
    the mount point, with no test for duplicates, exactly when the
    call returns, and a command [mount] or [sudo mount] has then
    exited with status zero; when the call raises, the registry is as
    before.  The working directory is never changed. *)
Theorem mount_registers (drive mnt_path : string) (w w' : World)
    (r : result unit) (added : list event) :
  mount drive mnt_path w = (w', r) →
  trace w' = added ++ trace w →
  mounts w' = match r with
              | Ok _ => mounts w ++ [mnt_path]
              | Raise _ => mounts w
              end
  ∧ cwd w' = cwd w
  ∧ (r = Ok tt →
     ∃ cmd output,
       (cmd = ["mount"; drive; mnt_path]
        ∨ cmd = ["sudo"; "mount"; drive; mnt_path])
       ∧ (cmd, Exited 0 output) ∈ execs added).
Proof.
  intros Hrun Htrace. unfold mount in Hrun.
  apply bind_inv in Hrun as [(w1 & [] & Hdirs & Hrun)|(e & Hdirs & ->)].
  2: { apply steady_makedirs in Hdirs as [? ?]. by split; [|split]. }
  pose proof (makedirs_inv _ _ _ _ Hdirs) as (Hdirs_trace & _).
  apply steady_makedirs in Hdirs as [Hm1 Hc1].
  apply bind_inv in Hrun as [(w2 & [] & Hsudo & Hrun)|(e & Hsudo & ->)].
  2: { apply steady_trysudo in Hsudo as [? ?]. split; [congruence|].
       split; [congruence|done]. }
  pose proof (trysudo_inv _ _ _ _ Hsudo) as (a & res1 & Ha & Hcases).
  apply steady_trysudo in Hsudo as [Hm2 Hc2].
  injection Hrun as <- <-. cbn [mounts cwd with_mounts].
  split; [congruence|]. split; [congruence|]. intros _.
  assert (added = a ++ [EMakedirs mnt_path]) as ->.
  { eapply app_inv_tail. rewrite <- app_assoc. cbn.
    rewrite <- Hdirs_trace, <- Ha. by rewrite <- Htrace. }
  rewrite execs_app. cbn [execs app].
  destruct Hcases as [(-> & (output & -> & _) & _)
                     |(res2 & -> & _
                       & [((output & -> & _) & _)|(_ & e & [=] & _)])].
  - exists ["mount"; drive; mnt_path], output. split; [by left|]. by left.
  - exists ["sudo"; "mount"; drive; mnt_path], output. split; [by right|].
    right. by left.
Qed.

Lemma mount_registers_witness :
  let w := Sample.world (Sample.environment Sample.Data true) (Dir []) in
  let run := mount "/dev/sr0" "./mnt/dev/sr0" w in
  run.2 = Ok tt ∧ mounts run.1 = ["./mnt/dev/sr0"].
Proof.
  intros w run.
  assert (run.2 = Ok tt) as Hr by (by vm_compute).
  split; [exact Hr|].
  destruct (mount_registers "/dev/sr0" "./mnt/dev/sr0" w run.1 run.2
              (trace run.1) (run_surj _ _) (eq_sym (app_nil_r _)))
    as (Hmounts & _).
  rewrite Hr in Hmounts. exact Hmounts.
Defined.

Lemma cleanup_loop (l : list string) (w w' : World) (r : result unit) :
  for_each l unmount w = (w', r) →
  ∃ added,
    trace w' = added ++ trace w
    ∧ escalated (execs added)
    ∧ Forall (λ c, ∃ m, m ∈ l ∧ (c.1 = ["umount"; m]
                                 ∨ c.1 = ["sudo"; "umount"; m]))
        (execs added)
    ∧ (r = Ok tt → ∀ m, m ∈ l → ∃ res, (["umount"; m], res) ∈ execs added)
    ∧ mounts w' = mounts w.
Proof.
  revert w. induction l as [|x l IH]; intros w.
  { intros [= <- <-]. exists []. split; [done|]. split; [constructor|].
    split; [constructor|]. split; [|done]. by intros _ m ?%elem_of_nil. }
  cbn [for_each]. intros Hrun.
  assert (∀ w1 r1, unmount x w = (w1, r1) →
            ∃ a, trace w1 = a ++ trace w
                 ∧ escalated (execs a)
                 ∧ Forall (λ c, ∃ m, m ∈ x :: l
                                     ∧ (c.1 = ["umount"; m]
                                        ∨ c.1 = ["sudo"; "umount"; m]))
                     (execs a)
                 ∧ (∃ res, (["umount"; x], res) ∈ execs a)
                 ∧ mounts w1 = mounts w) as Hone.
  { intros w1 r1 Hsudo. unfold unmount in Hsudo.
    pose proof (trysudo_inv _ _ _ _ Hsudo) as (a & res1 & Ha & Hcases).
    apply steady_trysudo in Hsudo as [Hm _].
    exists a. split; [done|].
    assert (∃ m, m ∈ x :: l ∧ (["umount"; x] = ["umount"; m]
                               ∨ ["umount"; x] = ["sudo"; "umount"; m])) as H1
      by (exists x; split; [by left|by left]).
    assert (∃ m, m ∈ x :: l ∧ (["sudo"; "umount"; x] = ["umount"; m]
                               ∨ ["sudo"; "umount"; x] = ["sudo"; "umount"; m]))
      as H2 by (exists x; split; [by left|by right]).
    destruct Hcases as [(-> & Hs & _)|(res2 & -> & Hf & _)].
    - split; [by apply escalated_first; [..|constructor]|].
      split; [by repeat constructor|]. split; [|done]. exists res1. by left.
    - split; [by apply escalated_retry; [..|constructor]|].
      split; [by repeat constructor|]. split; [|done]. exists res1. by left. }
  apply bind_inv in Hrun as [(w1 & [] & Hx & Hrun)|(e & Hx & ->)].
  - destruct (Hone _ _ Hx) as (a1 & Ha1 & Hesc1 & Hall1 & Hx1 & Hm1).
    destruct (IH _ Hrun) as (a2 & Ha2 & Hesc2 & Hall2 & Hok2 & Hm2).
    exists (a2 ++ a1). rewrite Ha2, Ha1, app_assoc, execs_app.
    split; [done|]. split; [by apply escalated_app|]. split.
    { apply Forall_app. split; [done|].
      eapply Forall_impl; [exact Hall2|].
      intros c (m & Hin & Hc). exists m. split; [by right|done]. }
    split; [|congruence].
    intros Hr m [->|Hin]%elem_of_cons.
    + destruct Hx1 as [res Hres]. exists res. apply elem_of_app. by left.
    + destruct (Hok2 Hr m Hin) as [res Hres]. exists res.
      apply elem_of_app. by right.
  - destruct (Hone _ _ Hx) as (a1 & Ha1 & Hesc1 & Hall1 & _ & Hm1).
    exists a1. by repeat split.
Qed.

(** [mount_cleanup] runs [umount] on the registered mount points and
    runs nothing else.  Each [umount] is run as it is and, when that
    call raised and only then (another exit status than zero, a
    command that could not be started, or output that cannot be
    decoded), once more behind [sudo].  When the cleanup returns every
    registered mount point had its [umount].  The registry itself is
    left as it was. *)
Theorem mount_cleanup_unmounts (w w' : World) (r : result unit)
    (added : list event) :
  mount_cleanup w = (w', r) →
  trace w' = added ++ trace w →
  escalated (execs added)
  ∧ Forall (λ c, ∃ m, m ∈ mounts w ∧ (c.1 = ["umount"; m]
                                      ∨ c.1 = ["sudo"; "umount"; m]))
      (execs added)
  ∧ (r = Ok tt → ∀ m, m ∈ mounts w → ∃ res, (["umount"; m], res) ∈ execs added)
  ∧ mounts w' = mounts w.
Proof.
  intros Hrun Htrace. unfold mount_cleanup in Hrun.
  destruct (cleanup_loop _ _ _ _ Hrun) as (a & Ha & H).
  rewrite Ha in Htrace. by apply app_inv_tail in Htrace as ->.
Qed.

Lemma mount_cleanup_unmounts_witness :
  let w := with_mounts ["./mnt/dev/sr0"; "./mnt/dev/sr1"]
             (Sample.world (Sample.environment Sample.Data true) (Dir [])) in
  let run := mount_cleanup w in
  commands (trace run.1)
  = [["umount"; "./mnt/dev/sr0"]; ["sudo"; "umount"; "./mnt/dev/sr0"]]
  ∧ escalated (execs (trace run.1))
  ∧ mounts run.1 = ["./mnt/dev/sr0"; "./mnt/dev/sr1"].
Proof.
  intros w run. split; [by vm_compute|].
  destruct (mount_cleanup_unmounts w run.1 run.2 (trace run.1)
              (run_surj _ _) (eq_sym (app_nil_r _)))
    as (Hesc & _ & _ & Hmounts).
  by split.
Defined.

(** A [umount] that exits with status zero is run again behind [sudo]
    when its output cannot be decoded, and the cleanup ends there when
    the output of the retry cannot be decoded either. *)
Example retry_after_undecodable_output :
  let run := mount_cleanup (with_mounts ["./mnt/dev/sr0"; "./mnt/dev/sr1"]
                              Garbled.world) in
  run.2 = Raise UnicodeDecodeError
  ∧ execs (trace run.1)
    = [(["umount"; "./mnt/dev/sr0"], Exited 0 Garbled.noise);
       (["sudo"; "umount"; "./mnt/dev/sr0"], Exited 0 Garbled.noise)].
Proof. intros run. split; by vm_compute. Qed.


(** ** What the loops never do *)

Lemma execs_Forall (Q : list string → Prop) (a : list event) :
  Forall (λ e, ∀ cmd capture dir res, e = EExec cmd capture dir res → Q cmd) a →
  Forall (λ c, Q c.1) (execs a).
Proof.
  induction 1 as [|e a He _ IH]; [done|].
  destruct e; cbn; try done.
  apply Forall_app. split; [done|]. constructor; [|done]. by eapply He.
Qed.

Ltac exec_side := intros ? ? ? ? ?; by simplify_eq.

(** One iteration of the transcode loop runs no command but [ffmpeg],
    sleeps only for the ten seconds of a stability check, and changes
    neither the working directory nor the registry of mount points. *)
Theorem transcode_loop_footprint (self : TranscodeThread.t) (w w' : World)
    (r : result unit) (added : list event) :
  TranscodeThread.loop_step self w = (w', r) →
  trace w' = added ++ trace w →
  Forall (λ c, head c.1 = Some "ffmpeg") (execs added)
  ∧ Forall (λ e, ∀ seconds, e = ESleep seconds → seconds = 10) added
  ∧ cwd w' = cwd w
  ∧ mounts w' = mounts w.
Proof.
  intros Hrun Htrace.
  assert (emits (λ e, runs_only "ffmpeg" e
                      ∧ ∀ seconds, e = ESleep seconds → seconds = 10)
            (TranscodeThread.loop_step self)) as Hemits.
  { unfold TranscodeThread.loop_step, TranscodeThread.transcode_disc,
      TranscodeThread.transcode_file, TranscodeThread._wait_for_file_stable.
    emits_steps; (split; [unfold runs_only; exec_side|]);
      first [ by intros ? [=] | by intros ? [= <-] ]. }
  assert (steady (TranscodeThread.loop_step self)) as Hsteady.
  { unfold TranscodeThread.loop_step. steady_steps. }
  destruct (Hsteady _ _ _ Hrun) as [Hmounts Hcwd].
  pose proof (adds_all _ _ _ _ (emits_run _ _ _ _ _ Hemits Hrun) Htrace) as Hall.
  split; [|split; [|done]].
  - apply (execs_Forall (λ cmd, head cmd = Some "ffmpeg")).
    eapply Forall_impl; [exact Hall|]. by intros e [He _].
  - eapply Forall_impl; [exact Hall|]. by intros e [_ He].
Qed.

Lemma transcode_loop_footprint_witness :
  let w := Sample.world (Sample.environment Sample.NoDisc true)
             Staged.two_discs in
  let run := TranscodeThread.loop_step Staged.thread w in
  length (execs (trace run.1)) = 2%nat
  ∧ Forall (λ c, head c.1 = Some "ffmpeg") (execs (trace run.1)).
Proof.
  intros w run. split; [by vm_compute|].
  by destruct (transcode_loop_footprint Staged.thread w run.1 run.2
                 (trace run.1) (run_surj _ _) (eq_sym (app_nil_r _)))
    as (Hexecs & _).
Defined.

(** With [skip_eject] set, an iteration of the rip loop never runs
    [eject], neither as it is nor behind [sudo]. *)
Theorem skip_eject_never_ejects (self : RipThread.t) (w w' : World)
    (r : result unit) (added : list event) :
  RipThread.skip_eject self = true →
  RipThread.loop_step self w = (w', r) →
  trace w' = added ++ trace w →
  Forall (λ c, head c.1 ≠ Some "eject"
               ∧ (head c.1 = Some "sudo" → c.1 !! 1%nat ≠ Some "eject"))
    (execs added).
Proof.
  intros Hskip Hrun Htrace.
  assert (emits no_eject (RipThread.loop_step self)) as Hemits.
  { unfold RipThread.loop_step. rewrite Hskip.
    emits_all; unfold no_eject; exec_side. }
  pose proof (adds_all _ _ _ _ (emits_run _ _ _ _ _ Hemits Hrun) Htrace) as Hall.
  apply (execs_Forall
           (λ cmd, head cmd ≠ Some "eject"
                   ∧ (head cmd = Some "sudo" → cmd !! 1%nat ≠ Some "eject"))).
  exact Hall.
Qed.

Lemma skip_eject_never_ejects_witness :
  let self :=
    {| RipThread.drive := "/dev/sr0"; RipThread.wip_root := "./wip";
       RipThread.out_root := "./out"; RipThread.skip_eject := true;
       RipThread.makemkv_update_key := false;
       RipThread.makemkv_settings_path := None;
       RipThread.interval := 5 |} in
  let w := Sample.world (Sample.environment Sample.Data true) (Dir []) in
  let run := RipThread.loop_step self w in
  commands (trace run.1)
  = [["blkid"; "/dev/sr0"]; ["cdparanoia"; "-sQ"];
     ["mount"; "/dev/sr0"; "./mnt/dev/sr0"];
     ["dd"; "if=/dev/sr0"; "of=./wip/iso/MOVIE-ABCD-1234.iso";
      "status=progress"]]
  ∧ Forall (λ c, head c.1 ≠ Some "eject") (execs (trace run.1)).
Proof.
  intros self w run. split; [by vm_compute|].
  eapply Forall_impl.
  - by apply (skip_eject_never_ejects self w run.1 run.2 (trace run.1) eq_refl
                (run_surj _ _) (eq_sym (app_nil_r _))).
  - by intros c [Hc _].
Defined.


(** ** The files of a staged disc *)

Lemma starts_bind {A B} P (m : M A) (k : A → M B) :
  starts P m → (∀ a, emits (λ _, True) (k a)) → starts P (m ≫= k).
Proof.
  intros Hm Hk w w' r [(w1 & a & Hrun1 & Hrun2)|(e & Hrun & _)]%bind_inv.
  - destruct (Hm _ _ _ Hrun1) as (a1 & e1 & Ha1 & He1).
    destruct (emits_run _ _ _ _ _ (Hk a) Hrun2) as (a2 & Ha2 & _).
    exists (a2 ++ a1), e1. by rewrite Ha2, Ha1, app_assoc.
  - by eapply Hm.
Qed.

Lemma starts_try_except {A} P (body : M A) cls (handler : exn → M A) :
  starts P body → (∀ e, emits (λ _, True) (handler e)) →
  starts P (try_except body cls handler).
Proof.
  intros Hbody Hhandler w w' r
    [[Hrun _]|(w1 & e & Hrun1 & _ & Hrun2)]%try_except_inv.
  - by eapply Hbody.
  - destruct (Hbody _ _ _ Hrun1) as (a1 & e1 & Ha1 & He1).
    destruct (emits_run _ _ _ _ _ (Hhandler e) Hrun2) as (a2 & Ha2 & _).
    exists (a2 ++ a1), e1. by rewrite Ha2, Ha1, app_assoc.
Qed.

Lemma starts_log lvl msg : starts (λ e, e = ELog lvl msg) (log lvl msg).
Proof. intros w w' r [= <- <-]. by exists [], (ELog lvl msg). Qed.

Lemma starts_getsize p : starts (λ e, ∃ size, e = EGetsize p size) (getsize p).
Proof. intros w w' r [= <- <-]. exists [], (EGetsize p (file_size w p)). eauto. Qed.

(** The body of the first loop of [transcode_disc] catches whatever
    the transcoding of a file raises, and starts by sampling the size
    of the file. *)
Lemma transcode_attempt (self : TranscodeThread.t) (wip_path out : string)
    (file : string) (w w' : World) (r : result unit) :
  try_except
    (TranscodeThread.transcode_file self (wip_path +:+ "/" +:+ file) out;;
     log INFO ("Finished transcoding file: " +:+ file))
    is_Exception
    (λ e,
      log DEBUG ("transcode_file error: " +:+ exn_str e);;
      log DEBUG "Maybe MakeMKV is still ripping the disc?") w = (w', r) →
  r = Ok tt
  ∧ ∃ added size,
      trace w' = added ++ trace w
      ∧ EGetsize (wip_path +:+ "/" +:+ file) size ∈ added.
Proof.
  intros Hrun. split.
  - apply try_except_inv in Hrun as [[Hrun Hr]|(w1 & e & _ & _ & Hrun)].
    + destruct r as [[]|e]; [done|discriminate Hr].
    + rewrite bind_run, log_run, log_run in Hrun. by injection Hrun as _ <-.
  - assert (starts (λ e, ∃ size, e = EGetsize (wip_path +:+ "/" +:+ file) size)
              (try_except
                 (TranscodeThread.transcode_file self
                    (wip_path +:+ "/" +:+ file) out;;
                  log INFO ("Finished transcoding file: " +:+ file))
                 is_Exception
                 (λ e,
                   log DEBUG ("transcode_file error: " +:+ exn_str e);;
                   log DEBUG "Maybe MakeMKV is still ripping the disc?")))
      as Hstarts.
    { apply starts_try_except; [|intros; emits_steps; done].
      unfold TranscodeThread.transcode_file,
        TranscodeThread._wait_for_file_stable.
      repeat (apply starts_bind; [|intros; emits_steps; done]).
      apply starts_getsize. }
    destruct (Hstarts _ _ _ Hrun) as (a & e & Ha & size & ->).
    exists (a ++ [EGetsize (wip_path +:+ "/" +:+ file) size]), size.
    rewrite Ha, <- app_assoc. split; [done|].
    apply elem_of_app. right. by left.
Qed.

Lemma transcode_attempts (self : TranscodeThread.t) (wip_path out : string)
    (files : list string) (w w' : World) (r : result unit) :
  for_each files (λ file,
    try_except
      (TranscodeThread.transcode_file self (wip_path +:+ "/" +:+ file) out;;
       log INFO ("Finished transcoding file: " +:+ file))
      is_Exception
      (λ e,
        log DEBUG ("transcode_file error: " +:+ exn_str e);;
        log DEBUG "Maybe MakeMKV is still ripping the disc?")) w = (w', r) →
  r = Ok tt
  ∧ ∃ added,
      trace w' = added ++ trace w
      ∧ ∀ file, file ∈ files →
          ∃ size, EGetsize (wip_path +:+ "/" +:+ file) size ∈ added.
Proof.
  revert w. induction files as [|x files IH]; intros w.
  { intros [= <- <-]. split; [done|]. exists []. split; [done|].
    by intros file ?%elem_of_nil. }
  cbn [for_each]. intros [(w1 & [] & Hx & Hrun)|(e & Hx & _)]%bind_inv.
  - apply transcode_attempt in Hx as (_ & a1 & size & Ha1 & Hin1).
    apply IH in Hrun as (-> & a2 & Ha2 & Hin2). split; [done|].
    exists (a2 ++ a1). rewrite Ha2, Ha1, app_assoc. split; [done|].
    intros file [->|Hin]%elem_of_cons.
    + exists size. apply elem_of_app. by right.
    + destruct (Hin2 file Hin) as [size' Hsize]. exists size'.
      apply elem_of_app. by left.
  - by apply transcode_attempt in Hx as [[=] _].
Qed.

(** In a staged disc directory every file is attempted, whatever
    happens to the others: [transcode_disc] samples the size of each
    file that the directory lists, and then goes on to remove the
    directory. *)
Theorem every_staged_file_is_attempted (self : TranscodeThread.t)
    (disc_name : string) (entries : list (string * node)) (w w' : World)
    (r : result unit) (added : list event) :
  TranscodeThread.transcode_disc self disc_name w = (w', r) →
  trace w' = added ++ trace w →
  FS.lookup (FS.resolve (cwd w) (staged_disc self disc_name)) (fs w)
  = Some (Dir entries) →
  (∀ file, file ∈ entries.*1 →
     ∃ size, EGetsize (staged_disc self disc_name +:+ "/" +:+ file) size ∈ added)
  ∧ ELog DEBUG ("Removing wip_path: " +:+ staged_disc self disc_name) ∈ added.
Proof.
  intros Hrun Htrace Hdir. unfold TranscodeThread.transcode_disc in Hrun.
  cbv zeta in Hrun. fold (staged_disc self disc_name) in Hrun.
  rewrite bind_run in Hrun. unfold listdir at 1 in Hrun. rewrite Hdir in Hrun.
  cbv beta iota zeta in Hrun. rewrite bind_run, log_run in Hrun.
  apply bind_inv in Hrun as [(w1 & [] & Hloop & Hrun)|(e & Hloop & _)].
  2: { by apply transcode_attempts in Hloop as [[=] _]. }
  apply transcode_attempts in Hloop as (_ & a1 & Ha1 & Hfiles).
  match type of Hrun with
  | ?m _ = _ =>
      assert (starts (λ e, e = ELog DEBUG ("Removing wip_path: "
                                           +:+ staged_disc self disc_name)) m)
        as Hstarts
  end.
  { apply starts_bind;
      [|intros; unfold TranscodeThread._wait_for_file_stable;
        emits_steps; done].
    apply starts_try_except; [|intros; emits_steps; done].
    apply starts_bind; [|intros; emits_steps; done].
    apply starts_log. }
  destruct (Hstarts _ _ _ Hrun) as (a2 & e & Ha2 & ->).
  assert (added = a2 ++ [ELog DEBUG ("Removing wip_path: "
                                     +:+ staged_disc self disc_name)]
                  ++ a1 ++ [ELog DEBUG ("wip_files: "
                                        +:+ PyStr.join ", " entries.*1);
                            EListdir (staged_disc self disc_name)]) as ->.
  { eapply app_inv_tail. rewrite Htrace in Ha2. rewrite Ha2, Ha1.
    cbn [trace emit]. by rewrite <- !app_assoc. }
  split.
  - intros file Hin. destruct (Hfiles file Hin) as [size Hsize]. exists size.
    rewrite !elem_of_app. auto.
  - rewrite !elem_of_app, list_elem_of_singleton. auto.
Qed.

Lemma every_staged_file_is_attempted_witness :
  let w := Sample.world Staged.environment Staged.two_files in
  let run := TranscodeThread.transcode_disc Staged.thread "A" w in
  ∃ size, EGetsize "./wip/dvd/A/t01.mkv" size ∈ trace run.1.
Proof.
  intros w run.
  destruct (every_staged_file_is_attempted Staged.thread "A"
              [("t00.mkv", File 100); ("t01.mkv", File 300)]
              w run.1 run.2 (trace run.1)
              (run_surj _ _) (eq_sym (app_nil_r _)) eq_refl) as [Hfiles _].
  apply (Hfiles "t01.mkv"). right. left.
Defined.

(** ** Destructive steps come after the command they depend on *)

(** When what follows a command run without capture adds an event of
    the kind [T], the command has exited with status zero. *)
Lemma guarded_by_command {B} (T : event → Prop) cmd cwd_arg
    (k : option string → M B) (w0 w w' : World) (r : result B)
    (added : list event) :
  (∀ c capture dir res, ¬ T (EExec c capture dir res)) →
  (∀ lvl msg, ¬ T (ELog lvl msg)) →
  (∀ a, emits (λ _, True) (k a)) →
  adds (λ e, ¬ T e) w0 w →
  (execute cmd false cwd_arg ≫= k) w = (w', r) →
  trace w' = added ++ trace w0 →
  (∃ e, T e ∧ e ∈ added) →
  ∃ output, (cmd, Exited 0 output) ∈ execs added.
Proof.
  intros Hexec Hlog Hk (a0 & Ha0 & Hnone) Hrun Htrace (t & Ht & Hin).
  assert (emits (λ e, ¬ T e) (execute cmd false cwd_arg)) as Hquiet
    by (emits_steps; auto).
  apply bind_inv in Hrun as [(w1 & a & Hcmd & Hrun)|(e & Hcmd & _)].
  - pose proof (execute_plain_inv _ _ _ _ _ Hcmd)
      as (a1 & res & Ha1 & Hexecs & [[(output & -> & _) _]|(_ & ? & [=] & _)]).
    destruct (emits_run _ _ _ _ _ (Hk a) Hrun) as (a2 & Ha2 & _).
    assert (added = a2 ++ a1 ++ a0) as ->.
    { eapply app_inv_tail. rewrite <- Htrace, Ha2, Ha1, Ha0.
      by rewrite <- !app_assoc. }
    exists output. rewrite !execs_app, Hexecs.
    rewrite !elem_of_app, list_elem_of_singleton. auto.
  - destruct (emits_run _ _ _ _ _ Hquiet Hcmd) as (a1 & Ha1 & Hnone1).
    assert (added = a1 ++ a0) as ->.
    { eapply app_inv_tail. by rewrite <- Htrace, Ha1, Ha0, <- app_assoc. }
    apply elem_of_app in Hin as [Hin|Hin].
    + by eapply Forall_forall in Hnone1.
    + by eapply Forall_forall in Hnone.
Qed.

(** [transcode_file] runs no command but its [ffmpeg] command; it
    removes the raw file only after that command exited with status
    zero, and a call that returns has removed it. *)
Theorem raw_file_kept_until_transcoded (self : TranscodeThread.t)
    (file_path out_path : string) (w w' : World) (r : result unit)
    (added : list event) :
  TranscodeThread.transcode_file self file_path out_path w = (w', r) →
  trace w' = added ++ trace w →
  Forall (λ c, c.1 = ffmpeg_command self file_path out_path) (execs added)
  ∧ (ERemove file_path ∈ added →
     ∃ output,
       (ffmpeg_command self file_path out_path, Exited 0 output) ∈ execs added)
  ∧ (r = Ok tt → ERemove file_path ∈ added).
Proof.
  intros Hrun Htrace. split; [|split].
  - apply (execs_Forall (λ cmd, cmd = ffmpeg_command self file_path out_path)).
    eapply adds_all; [|exact Htrace]. eapply emits_run; [|exact Hrun].
    unfold TranscodeThread.transcode_file,
      TranscodeThread._wait_for_file_stable.
    emits_steps; exec_side.
  - intros Hin. unfold TranscodeThread.transcode_file in Hrun.
    cbv zeta in Hrun. fold (ffmpeg_command self file_path out_path) in Hrun.
    unfold TranscodeThread._wait_for_file_stable in Hrun.
    pose proof (adds_refl (λ e, ¬ (e = ERemove file_path)) w) as Hadds.
    assert (∀ w1, adds (λ e, ¬ (e = ERemove file_path)) w w1 → w1 = w' → False)
      as Hdead.
    { intros w1 H1 ->. by eapply (adds_elem _ _ _ _ _ H1 Htrace Hin). }
    advance_with ltac:(done) Hrun Hadds w1 a1; [|by destruct (Hdead w')].
    advance_with ltac:(done) Hrun Hadds w2 a2; [|by destruct (Hdead w')].
    advance_with ltac:(done) Hrun Hadds w3 a3; [|by destruct (Hdead w')].
    eapply (guarded_by_command (λ e, e = ERemove file_path));
      [done|done| |exact Hadds|exact Hrun|exact Htrace|by eexists].
    intros; emits_steps; done.
  - intros ->. unfold TranscodeThread.transcode_file,
      TranscodeThread._wait_for_file_stable in Hrun.
    cbv zeta in Hrun.
    apply bind_ok_inv in Hrun as (w1 & ? & H1 & Hrun). grow H1.
    apply bind_ok_inv in Hrun as (w2 & ? & H2 & Hrun). grow H2.
    apply bind_ok_inv in Hrun as (w3 & ? & H3 & Hrun). grow H3.
    apply bind_ok_inv in Hrun as (w4 & ? & H4 & Hrun). grow H4.
    apply bind_ok_inv in Hrun as (w5 & ? & H5 & Hrun). grow H5.
    chain.
    assert (trace w' = ERemove file_path :: trace w5) as Hlast.
    { unfold remove in Hrun.
      destruct (FS.lookup _ _) as [[]|]; by injection Hrun as <-. }
    match goal with G : grows_by w w5 _ |- _ => unfold grows_by in G;
      rewrite G, Htrace, app_comm_cons in Hlast end.
    apply app_inv_tail in Hlast as ->. left.
Qed.

Lemma raw_file_kept_until_transcoded_witness :
  let w := Sample.world (Sample.environment Sample.NoDisc true)
             Staged.two_discs in
  let run := TranscodeThread.transcode_file Staged.thread
               "./wip/dvd/B/u00.mkv" "./wip/dvd_transcode/B" w in
  run.2 = Ok tt
  ∧ ERemove "./wip/dvd/B/u00.mkv" ∈ trace run.1
  ∧ commands (trace run.1)
    = [["ffmpeg"; "-i"; "./wip/dvd/B/u00.mkv"; "-c:v"; "libx264"; "-crf"; "18";
        "-map"; "0"; "-c:a"; "copy"; "-c:s"; "copy";
        "./wip/dvd_transcode/B/u00.mp4"]].
Proof.
  intros w run.
  assert (run.2 = Ok tt) as Hr by (by vm_compute).
  split; [exact Hr|]. split; [|by vm_compute].
  by apply (raw_file_kept_until_transcoded Staged.thread _ _ w run.1 run.2
              (trace run.1) (run_surj _ _) (eq_sym (app_nil_r _))).
Defined.


(** [rip_data_disc] runs no command but [dd]; the image is moved, from
    [wip/iso] to the same name in [out/iso], only after [dd] exited
    with status zero; the working directory and the registry of mount
    points are left as they were. *)
Theorem image_moved_after_copy (self : RipThread.t)
    (blkid_params : gmap string string) (w w' : World) (r : result unit)
    (added : list event) :
  RipThread.rip_data_disc self blkid_params w = (w', r) →
  trace w' = added ++ trace w →
  Forall (λ c, head c.1 = Some "dd") (execs added)
  ∧ (∀ src dst, EMove src dst ∈ added →
       ∃ file_name output,
         src = (RipThread.wip_root self +:+ "/iso") +:+ "/" +:+ file_name
         ∧ dst = (RipThread.out_root self +:+ "/iso") +:+ "/" +:+ file_name
         ∧ (dd_command self file_name, Exited 0 output) ∈ execs added)
  ∧ cwd w' = cwd w
  ∧ mounts w' = mounts w.
Proof.
  intros Hrun Htrace.
  assert (steady (RipThread.rip_data_disc self blkid_params)) as Hsteady
    by steady_steps.
  destruct (Hsteady _ _ _ Hrun) as [Hmounts Hcwd].
  split; [|split; [|done]].
  { apply (execs_Forall (λ cmd, head cmd = Some "dd")).
    eapply adds_all; [|exact Htrace]. eapply emits_run; [|exact Hrun].
    emits_steps; exec_side. }
  intros src dst Hin. unfold RipThread.rip_data_disc in Hrun.
  pose proof (adds_refl (λ e, ¬ (e = EMove src dst)) w) as Hadds.
  assert (∀ w1, adds (λ e, ¬ (e = EMove src dst)) w w1 → w1 = w' → False)
    as Hdead.
  { intros w1 H1 ->. by eapply (adds_elem _ _ _ _ _ H1 Htrace Hin). }
  advance_with ltac:(done) Hrun Hadds w1 label; [|by destruct (Hdead w')].
  advance_with ltac:(done) Hrun Hadds w2 uuid; [|by destruct (Hdead w')].
  cbv zeta in Hrun.
  set (file_name := label +:+ "-" +:+ uuid +:+ ".iso") in *.
  fold (dd_command self file_name) in Hrun.
  exists file_name.
  assert (src = (RipThread.wip_root self +:+ "/iso") +:+ "/" +:+ file_name
          ∧ dst = (RipThread.out_root self +:+ "/iso") +:+ "/" +:+ file_name)
    as [-> ->].
  { pose proof Hrun as Hshape. pose proof Hadds as (a2 & Ha2 & Hnone).
    eapply (emits_run
              (λ e, ∀ s d, e = EMove s d →
                 s = (RipThread.wip_root self +:+ "/iso") +:+ "/" +:+ file_name
                 ∧ d = (RipThread.out_root self +:+ "/iso") +:+ "/" +:+ file_name))
      in Hshape as (a & Ha & Hall);
      [|emits_steps; intros ? ? ?; by simplify_eq].
    assert (added = a ++ a2) as ->.
    { eapply app_inv_tail. by rewrite <- Htrace, Ha, Ha2, <- app_assoc. }
    apply elem_of_app in Hin as [Hin|Hin].
    - eapply Forall_forall in Hall; [|exact Hin]. by apply Hall.
    - eapply Forall_forall in Hnone; [|exact Hin]. done. }
  advance_with ltac:(done) Hrun Hadds w3 out_exists; [|by destruct (Hdead w')].
  destruct out_exists.
  { eapply (emits_run (λ e, ¬ (e = EMove _ _))) in Hrun; [|emits_steps; done].
    destruct (Hdead w'); [|done]. by eapply adds_trans. }
  advance_with ltac:(done) Hrun Hadds w4 a4; [|by destruct (Hdead w')].
  advance_with ltac:(done) Hrun Hadds w5 a5; [|by destruct (Hdead w')].
  advance_with ltac:(done) Hrun Hadds w6 a6; [|by destruct (Hdead w')].
  advance_with ltac:(done) Hrun Hadds w7 a7; [|by destruct (Hdead w')].
  advance_with ltac:(done) Hrun Hadds w8 here; [|by destruct (Hdead w')].
  assert (∃ output, (dd_command self file_name, Exited 0 output) ∈ execs added)
    as [output Hout]; [|by exists output].
  eapply (guarded_by_command (λ e, e = EMove _ _));
    [done|done| |exact Hadds|exact Hrun|exact Htrace|by eexists].
  intros; emits_steps; done.
Qed.

Lemma image_moved_after_copy_witness :
  let w := Sample.world (Sample.environment Sample.Data true) (Dir []) in
  let run := RipThread.rip_data_disc Sample.rip_thread Discs.params w in
  EMove "./wip/iso/MOVIE-ABCD-1234.iso" "./out/iso/MOVIE-ABCD-1234.iso"
    ∈ trace run.1
  ∧ ∃ file_name output,
      (dd_command Sample.rip_thread file_name, Exited 0 output)
      ∈ execs (trace run.1).
Proof.
  intros w run.
  assert (EMove "./wip/iso/MOVIE-ABCD-1234.iso" "./out/iso/MOVIE-ABCD-1234.iso"
            ∈ trace run.1) as Hin.
  { apply list_elem_of_In. vm_compute. tauto. }
  split; [exact Hin|].
  destruct (image_moved_after_copy Sample.rip_thread Discs.params w run.1 run.2
              (trace run.1) (run_surj _ _) (eq_sym (app_nil_r _)))
    as (_ & Hmove & _).
  destruct (Hmove _ _ Hin) as (file_name & output & _ & _ & Hdd).
  by exists file_name, output.
Defined.

(** ** Ripping a DVD *)

(** [advance_cwd]: as [advance_with], for a step that leaves the
    working directory alone; [Hcwd] keeps it equal to the one of the
    first world. *)
Ltac advance_cwd side Hrun Hadds Hcwd w2 a :=
  let Hstep := fresh "Hstep" in
  let Hm := fresh "Hm" in
  let Hs := fresh "Hs" in
  let Hc := fresh "Hc" in
  let e := fresh "e" in
  match type of Hadds with
  | adds ?P _ _ =>
      match type of Hrun with
      | (?m ≫= _) ?w1 = _ =>
          assert (emits P m) as Hm by (emits_all; side);
          assert (steady m) as Hs by steady_steps;
          apply bind_inv in Hrun as [(w2 & a & Hstep & Hrun)|(e & Hstep & ->)];
          [ pose proof (eq_trans (proj2 (Hs _ _ _ Hstep)) Hcwd) as Hc;
            clear Hcwd; rename Hc into Hcwd | ];
          apply (emits_run P _ _ _ _ Hm) in Hstep;
          apply (adds_trans _ _ _ _ Hadds) in Hstep;
          clear Hm Hs Hadds; rename Hstep into Hadds
      end
  end.

(** The only command that [rip_dvd] runs is [makemkvcon], on the disc
    whose number is the first run of digits in the path of the drive
    of the thread, writing to what [os.path.abspath] makes of the
    rip-in-progress directory of the disc: the normal form of the path
    from the working directory, with the two slashes of a work root
    that starts with exactly two.  With a drive path that holds no
    digit, no command is run at all. *)
Theorem extraction_command (self : RipThread.t)
    (blkid_params : gmap string string) (drive : string) (w w' : World)
    (r : result unit) (added : list event) :
  RipThread.rip_dvd self blkid_params drive w = (w', r) →
  trace w' = added ++ trace w →
  Forall (λ c, ∃ id digits n,
            disc_name blkid_params = Ok id
            ∧ PyStr.search_digits (RipThread.drive self) = Some digits
            ∧ PyStr.int digits = Some n
            ∧ c.1 = makemkvcon_command n
                      (normpath_from (cwd w) (rip_in_progress_dvd self id)))
    (execs added).
Proof.
  intros Hrun Htrace. unfold RipThread.rip_dvd in Hrun.
  assert (∀ w1, adds (λ e, ∀ cmd capture dir res,
                        e ≠ EExec cmd capture dir res) w w1 →
                w1 = w' → execs added = []) as Hquiet.
  { intros w1 H1 ->. eapply adds_execs; [|exact H1|exact Htrace].
    intros e He cmd capture dir res ->. by eapply He. }
  pose proof (adds_refl (λ e, ∀ cmd capture dir res,
                           e ≠ EExec cmd capture dir res) w) as Hadds.
  pose proof (eq_refl (cwd w)) as Hcwd.
  rewrite bind_run in Hrun. unfold lift at 1 in Hrun.
  destruct (getitem blkid_params "LABEL") as [label|e1] eqn:Hlabel.
  2: { injection Hrun as <- _. by rewrite (Hquiet w). }
  rewrite bind_run in Hrun. unfold lift at 1 in Hrun.
  destruct (getitem blkid_params "UUID") as [uuid|e2] eqn:Huuid.
  2: { injection Hrun as <- _. by rewrite (Hquiet w). }
  assert (disc_name blkid_params = Ok (label +:+ "-" +:+ uuid)) as Hid.
  { unfold disc_name. by rewrite Hlabel, Huuid. }
  cbv zeta in Hrun. set (id := label +:+ "-" +:+ uuid) in *.
  fold (rip_in_progress_dvd self id) in Hrun.
  advance_cwd ltac:(done) Hrun Hadds Hcwd w1 out_exists;
    [|by rewrite (Hquiet w')].
  destruct out_exists.
  { eapply (emits_run (λ e, ∀ cmd capture dir res,
                         e ≠ EExec cmd capture dir res)) in Hrun;
      [|emits_steps; done].
    rewrite (Hquiet w'); [done| |done]. by eapply adds_trans. }
  advance_cwd ltac:(done) Hrun Hadds Hcwd w2 wip_exists;
    [|by rewrite (Hquiet w')].
  destruct wip_exists.
  { eapply (emits_run (λ e, ∀ cmd capture dir res,
                         e ≠ EExec cmd capture dir res)) in Hrun;
      [|emits_steps; done].
    rewrite (Hquiet w'); [done| |done]. by eapply adds_trans. }
  advance_cwd ltac:(done) Hrun Hadds Hcwd w3 a3; [|by rewrite (Hquiet w')].
  advance_cwd ltac:(done) Hrun Hadds Hcwd w4 a4; [|by rewrite (Hquiet w')].
  advance_cwd ltac:(done) Hrun Hadds Hcwd w5 a5; [|by rewrite (Hquiet w')].
  advance_cwd ltac:(done) Hrun Hadds Hcwd w6 a6; [|by rewrite (Hquiet w')].
  rewrite bind_run in Hrun. unfold lift at 1 in Hrun.
  destruct (PyStr.search_digits (RipThread.drive self)) as [digits|] eqn:Hdigits.
  2: { injection Hrun as <- _. by rewrite (Hquiet w6). }
  rewrite bind_run in Hrun. unfold lift at 1 in Hrun.
  destruct (PyStr.int digits) as [n|] eqn:Hn.
  2: { injection Hrun as <- _. by rewrite (Hquiet w6). }
  rewrite bind_run in Hrun. unfold abspath at 1 in Hrun.
  cbv beta iota zeta in Hrun. rewrite Hcwd in Hrun.
  fold (makemkvcon_command n
          (normpath_from (cwd w) (rip_in_progress_dvd self id)))
    in Hrun.
  eapply (emits_run
            (λ e, ∀ cmd capture dir res, e = EExec cmd capture dir res →
               cmd = makemkvcon_command n
                       (normpath_from (cwd w) (rip_in_progress_dvd self id))))
    in Hrun as (a & Ha & Hall); [|emits_steps; exec_side].
  destruct Hadds as (a0 & Ha0 & Hnone).
  assert (added = a ++ a0) as ->.
  { eapply app_inv_tail. by rewrite <- Htrace, Ha, Ha0, <- app_assoc. }
  rewrite execs_app. apply Forall_app. split.
  - apply (execs_Forall (λ _, False)) in Hnone.
    eapply Forall_impl; [exact Hnone|done].
  - apply (execs_Forall
             (λ cmd, cmd = makemkvcon_command n
                             (normpath_from (cwd w) (rip_in_progress_dvd self id)))) in Hall.
    eapply Forall_impl; [exact Hall|]. intros c Hc. by exists id, digits, n.
Qed.

Lemma extraction_command_witness :
  let run := RipThread.rip_dvd Sample.rip_thread Discs.params "/dev/sr0"
               Interrupted.world in
  commands (trace run.1)
  = [makemkvcon_command 0 "/wip/dvd_rip/MOVIE-ABCD-1234"]
  ∧ ∃ digits n,
      PyStr.search_digits "/dev/sr0" = Some digits ∧ PyStr.int digits = Some n.
Proof.
  intros run.
  assert (execs (trace run.1)
          = [(makemkvcon_command 0 "/wip/dvd_rip/MOVIE-ABCD-1234",
              Exited 0 "1 titles saved")]) as Hexecs by (by vm_compute).
  pose proof (extraction_command Sample.rip_thread Discs.params "/dev/sr0"
                Interrupted.world run.1 run.2 (trace run.1)
                (run_surj _ _) (eq_sym (app_nil_r _))) as Hall.
  rewrite Hexecs in Hall.
  apply Forall_cons in Hall as [(id & digits & n & _ & Hdigits & Hn & _) _].
  unfold commands. rewrite Hexecs. split; [done|]. by exists digits, n.
Defined.

(** With a work root that starts with two slashes the path that
    [makemkvcon] is given starts with two slashes as well. *)
Example double_slash_root_is_kept :
  let self :=
    {| RipThread.drive := "/dev/sr0"; RipThread.wip_root := "//wip";
       RipThread.out_root := "//out"; RipThread.skip_eject := false;
       RipThread.makemkv_update_key := false;
       RipThread.makemkv_settings_path := None;
       RipThread.interval := 5 |} in
  let run := RipThread.rip_dvd self Discs.params "/dev/sr0"
               Interrupted.world in
  run.2 = Ok tt
  ∧ commands (trace run.1)
    = [makemkvcon_command 0 "//wip/dvd_rip/MOVIE-ABCD-1234"].
Proof. intros self run. split; by vm_compute. Qed.

Ltac quiet_side := intros; by intros [(? & ? & [=])|(? & [=])].

(** [rip_dvd] moves the titles and removes the rip-in-progress
    directory only after [makemkvcon] exited with status zero, and it
    moves the titles nowhere but into the staged directory of the
    disc; the working directory and the registry of mount points are
    left as they were. *)
Theorem titles_staged_after_extraction (self : RipThread.t)
    (blkid_params : gmap string string) (drive : string) (w w' : World)
    (r : result unit) (added : list event) :
  RipThread.rip_dvd self blkid_params drive w = (w', r) →
  trace w' = added ++ trace w →
  (∀ e, e ∈ added → moves_or_removes e →
     ∃ cmd output,
       head cmd = Some "makemkvcon" ∧ (cmd, Exited 0 output) ∈ execs added)
  ∧ (∀ src dst, EMove src dst ∈ added →
       ∃ id, disc_name blkid_params = Ok id ∧ dst = staged_dvd self id)
  ∧ cwd w' = cwd w
  ∧ mounts w' = mounts w.
Proof.
  intros Hrun Htrace.
  assert (steady (RipThread.rip_dvd self blkid_params drive)) as Hsteady
    by steady_steps.
  destruct (Hsteady _ _ _ Hrun) as [Hmounts Hcwd].
  split; [|split; [|done]].
  - intros t Hin Ht. unfold RipThread.rip_dvd in Hrun.
    pose proof (adds_refl (λ e, ¬ moves_or_removes e) w) as Hadds.
    assert (∀ w1, adds (λ e, ¬ moves_or_removes e) w w1 → w1 = w' → False)
      as Hdead.
    { intros w1 H1 ->. by eapply (adds_elem _ _ _ _ _ H1 Htrace Hin). }
    advance_with quiet_side Hrun Hadds w1 label; [|by destruct (Hdead w')].
    advance_with quiet_side Hrun Hadds w2 uuid; [|by destruct (Hdead w')].
    cbv zeta in Hrun.
    advance_with quiet_side Hrun Hadds w3 out_exists; [|by destruct (Hdead w')].
    destruct out_exists.
    { eapply (emits_run (λ e, ¬ moves_or_removes e)) in Hrun;
        [|emits_steps; quiet_side].
      destruct (Hdead w'); [|done]. by eapply adds_trans. }
    advance_with quiet_side Hrun Hadds w4 wip_exists; [|by destruct (Hdead w')].
    destruct wip_exists.
    { eapply (emits_run (λ e, ¬ moves_or_removes e)) in Hrun;
        [|emits_steps; quiet_side].
      destruct (Hdead w'); [|done]. by eapply adds_trans. }
    advance_with quiet_side Hrun Hadds w5 a5; [|by destruct (Hdead w')].
    advance_with quiet_side Hrun Hadds w6 a6; [|by destruct (Hdead w')].
    advance_with quiet_side Hrun Hadds w7 a7; [|by destruct (Hdead w')].
    advance_with quiet_side Hrun Hadds w8 a8; [|by destruct (Hdead w')].
    advance_with quiet_side Hrun Hadds w9 digits; [|by destruct (Hdead w')].
    advance_with quiet_side Hrun Hadds w10 n; [|by destruct (Hdead w')].
    advance_with quiet_side Hrun Hadds w11 o_path_abs;
      [|by destruct (Hdead w')].
    cbv zeta in Hrun.
    advance_with quiet_side Hrun Hadds w12 a12; [|by destruct (Hdead w')].
    match type of Hrun with
    | (execute ?cmd _ _ ≫= _) _ = _ =>
        assert (∃ output, (cmd, Exited 0 output) ∈ execs added)
          as [output Hout]
    end.
    { eapply (guarded_by_command moves_or_removes);
        [quiet_side|quiet_side| |exact Hadds|exact Hrun|exact Htrace
        |by exists t].
      intros; emits_steps; done. }
    eexists _, output. split; [|exact Hout]. done.
  - intros src dst Hin. unfold RipThread.rip_dvd in Hrun.
    rewrite bind_run in Hrun. unfold lift at 1 in Hrun.
    destruct (getitem blkid_params "LABEL") as [label|e1] eqn:Hlabel.
    2: { injection Hrun as <- _.
         assert (added = []) as ->
           by (eapply app_inv_tail; symmetry; exact Htrace).
         by apply elem_of_nil in Hin. }
    rewrite bind_run in Hrun. unfold lift at 1 in Hrun.
    destruct (getitem blkid_params "UUID") as [uuid|e2] eqn:Huuid.
    2: { injection Hrun as <- _.
         assert (added = []) as ->
           by (eapply app_inv_tail; symmetry; exact Htrace).
         by apply elem_of_nil in Hin. }
    exists (label +:+ "-" +:+ uuid). split.
    { unfold disc_name. by rewrite Hlabel, Huuid. }
    cbv zeta in Hrun.
    eapply (emits_run
              (λ e, ∀ s d, e = EMove s d →
                           d = staged_dvd self (label +:+ "-" +:+ uuid)))
      in Hrun as (a & Ha & Hall); [|emits_steps; intros ? ? ?; by simplify_eq].
    rewrite Ha in Htrace. apply app_inv_tail in Htrace as ->.
    eapply Forall_forall in Hall; [|exact Hin]. by eapply Hall.
Qed.

Lemma titles_staged_after_extraction_witness :
  let run := RipThread.rip_dvd Sample.rip_thread Discs.params "/dev/sr0"
               Interrupted.world in
  EMove "./wip/dvd_rip/MOVIE-ABCD-1234/title_t00.mkv" "./wip/dvd/MOVIE-ABCD-1234"
    ∈ trace run.1
  ∧ ∃ cmd output,
      head cmd = Some "makemkvcon" ∧ (cmd, Exited 0 output) ∈ execs (trace run.1).
Proof.
  intros run.
  assert (EMove "./wip/dvd_rip/MOVIE-ABCD-1234/title_t00.mkv"
            "./wip/dvd/MOVIE-ABCD-1234" ∈ trace run.1) as Hin.
  { apply list_elem_of_In. vm_compute. tauto. }
  split; [exact Hin|].
  destruct (titles_staged_after_extraction Sample.rip_thread Discs.params
              "/dev/sr0" Interrupted.world run.1 run.2 (trace run.1)
              (run_surj _ _) (eq_sym (app_nil_r _))) as (Hguard & _).
  apply (Hguard _ Hin). left. by eexists _, _.
Defined.

(** ** The working directory of a Redbook rip *)

Lemma events_of_execs (Q : list string * exec_result → Prop) (a : list event) :
  Forall Q (execs a) →
  Forall (λ e, ∀ cmd capture dir res,
            e = EExec cmd capture dir res → Q (cmd, res)) a.
Proof.
  induction a as [|e a IH]; intros Hall; [constructor|].
  destruct e; cbn in Hall;
    try (constructor; [by intros ? ? ? ? [=]|by apply IH]).
  apply Forall_app in Hall as [Hrest Hlast].
  apply Forall_cons in Hlast as [Hlast _].
  constructor; [|by apply IH]. by intros ? ? ? ? [= <- _ _ <-].
Qed.

(** When [abcde] fails, [rip_redbook] raises without going back: the
    working directory of the process is left at [wip/redbook]. *)
Theorem failed_extraction_leaves_cwd (self : RipThread.t) (cdp_str : string)
    (w w' : World) (r : result unit) (added : list event) (res : exec_result) :
  RipThread.rip_redbook self cdp_str w = (w', r) →
  trace w' = added ++ trace w →
  (abcde_command self, res) ∈ execs added →
  ¬ succeeded res →
  cwd w' = FS.resolve (cwd w) (wip_redbook self) ∧ ∃ e, r = Raise e.
Proof.
  intros Hrun Htrace (capture & dir & Hin)%execs_elem Hfail.
  set (P := λ e : event, ∀ capture dir res,
              e = EExec (abcde_command self) capture dir res → succeeded res).
  assert (∀ w1, adds P w w1 → w1 = w' → False) as Hdead.
  { intros w1 H1 ->. apply Hfail.
    by eapply (adds_elem _ _ _ _ _ H1 Htrace Hin). }
  pose proof (adds_refl P w) as Hadds.
  pose proof (eq_refl (cwd w)) as Hcwd.
  unfold RipThread.rip_redbook in Hrun.
  advance_cwd ltac:(done) Hrun Hadds Hcwd w1 cdp_hash; [|by destruct (Hdead w')].
  cbv zeta in Hrun.
  advance_cwd ltac:(done) Hrun Hadds Hcwd w2 a2; [|by destruct (Hdead w')].
  advance_cwd ltac:(done) Hrun Hadds Hcwd w3 folders; [|by destruct (Hdead w')].
  advance_cwd ltac:(done) Hrun Hadds Hcwd w4 ripped; [|by destruct (Hdead w')].
  destruct ripped as [[]|].
  { injection Hrun as <- <-. by destruct (Hdead w4). }
  advance_cwd ltac:(done) Hrun Hadds Hcwd w5 a5; [|by destruct (Hdead w')].
  advance_cwd ltac:(done) Hrun Hadds Hcwd w6 a6; [|by destruct (Hdead w')].
  advance_cwd ltac:(done) Hrun Hadds Hcwd w7 pwd; [|by destruct (Hdead w')].
  fold (wip_redbook self) in Hrun. fold (abcde_command self) in Hrun.
  rewrite bind_run in Hrun. unfold chdir at 1 in Hrun. cbv zeta in Hrun.
  rewrite Hcwd in Hrun.
  apply (adds_emit P (EChdir (wip_redbook self))) in Hadds; [|done].
  destruct (FS.lookup (FS.resolve (cwd w) (wip_redbook self)) (fs w7))
    as [[size|entries]|].
  { injection Hrun as <- <-.
    by destruct (Hdead (emit (EChdir (wip_redbook self)) w7)). }
  2: { injection Hrun as <- <-.
       by destruct (Hdead (emit (EChdir (wip_redbook self)) w7)). }
  set (w8 := with_cwd _ _) in Hrun.
  assert (adds P w w8) as Hadds8 by exact Hadds.
  assert (cwd w8 = FS.resolve (cwd w) (wip_redbook self)) as Hcwd8 by done.
  clearbody w8.
  apply bind_inv in Hrun as [(w9 & a & Hexec & Hrun)|(e & Hexec & ->)].
  - exfalso.
    apply execute_plain_inv in Hexec
      as (a9 & res9 & Ha9 & Hexecs
          & [[Hs%completed_succeeded _]|(_ & ? & [=] & _)]).
    apply (Hdead w'); [|done].
    eapply adds_trans; [exact Hadds8|]. eapply adds_trans.
    + exists a9. split; [exact Ha9|].
      eapply Forall_impl;
        [apply (events_of_execs (λ c, succeeded c.2)); rewrite Hexecs;
         by repeat constructor|].
      intros ev Hev ? ? ? ->. by eapply Hev.
    + eapply emits_run; [|exact Hrun]. emits_steps; done.
  - apply steady_execute in Hexec as [_ Hc]. split; [by rewrite Hc|by exists e].
Qed.

Lemma failed_extraction_leaves_cwd_witness :
  let run := RipThread.rip_redbook Sample.rip_thread Sample.cdp_table
               Scratched.world in
  cwd Scratched.world = [] ∧ cwd run.1 = ["wip"; "redbook"].
Proof.
  intros run. split; [done|].
  destruct (failed_extraction_leaves_cwd Sample.rip_thread Sample.cdp_table
              Scratched.world run.1 run.2 (trace run.1)
              (Exited 1 "abcde: cannot read the disc")
              (run_surj _ _) (eq_sym (app_nil_r _))) as [Hcwd _].
  - apply list_elem_of_In. vm_compute. tauto.
  - by intros [? [=]].
  - exact Hcwd.
Defined.

(** ** The staging area of the transcode loop *)

Lemma mkdirs_lookup (path : list string) (n n' : node) :
  FS.mkdirs path n = Ok n' → ∃ entries, FS.lookup path n' = Some (Dir entries).
Proof.
  revert n n'. induction path as [|c path IH]; intros [size|es] n'; cbn;
    try done.
  - intros [= <-]. by eexists.
  - destruct (FS.mkdirs path _) as [m|e] eqn:Hm; [|done].
    intros [= <-]. cbn. rewrite get_set. by eapply IH.
Qed.

(** [TranscodeThread.__init__] makes the staging directory, so a
    thread that was constructed finds it: in the world that the
    constructor left, the listing of [wip_dvd_root] that starts every
    [loop_step] returns, whatever the file system was before. *)
Theorem staging_area_is_listable (wip_root out_root : string)
    (ffmpeg_args : option (list string)) (w w1 : World)
    (self : TranscodeThread.t) :
  TranscodeThread.init wip_root out_root ffmpeg_args w = (w1, Ok self) →
  ∃ names,
    listdir (TranscodeThread.wip_dvd_root self) w1
    = (emit (EListdir (TranscodeThread.wip_dvd_root self)) w1, Ok names).
Proof.
  unfold TranscodeThread.init. cbv zeta.
  intros (w2 & [] & Hdirs & [= <- <-])%bind_ok_inv.
  cbn [TranscodeThread.wip_dvd_root].
  unfold makedirs in Hdirs. cbv zeta in Hdirs.
  destruct (FS.mkdirs _ (fs w)) as [n|e] eqn:Hmk; [|done].
  injection Hdirs as <-. apply mkdirs_lookup in Hmk as [entries Hdir].
  exists entries.*1. unfold listdir. cbv zeta. cbn [cwd fs with_fs emit].
  by rewrite Hdir.
Qed.

Lemma staging_area_is_listable_witness :
  let made := TranscodeThread.init "./wip" "./out" None
                (Sample.world (Sample.environment Sample.NoDisc true) (Dir [])) in
  ∃ self names,
    made.2 = Ok self
    ∧ (listdir (TranscodeThread.wip_dvd_root self) made.1).2 = Ok names.
Proof.
  intros made.
  destruct made.2 as [self|e] eqn:Hmade; [|by vm_compute in Hmade].
  destruct (staging_area_is_listable "./wip" "./out" None
              (Sample.world (Sample.environment Sample.NoDisc true) (Dir []))
              made.1 self) as (names & Hlist).
  { rewrite <- Hmade. apply run_surj. }
  exists self, names. split; [done|]. by rewrite Hlist.
Defined.

(** ** Promotion of transcoded files *)

Lemma moves_checked_app self (a b : list event) :
  moves_checked self a → moves_checked self b → moves_checked self (a ++ b).
Proof.
  intros Ha Hb after src dst rest Heq.
  apply app_eq_inv in Heq as [(k & -> & Hk)|(k & -> & ->)].
  - destruct k as [|e k]; cbn in Hk.
    + subst b. by apply (Hb []).
    + injection Hk as <- ->.
      destruct (Ha after src dst k eq_refl) as (Hp & size & before & ->).
      split; [done|]. exists size, (before ++ b). by rewrite <- app_assoc.
  - by apply (Hb k).
Qed.

Lemma moves_checked_quiet self (a : list event) :
  Forall no_move a → moves_checked self a.
Proof.
  intros Hall after src dst rest ->.
  apply Forall_app in Hall as [_ Hall]. apply Forall_cons in Hall as [He _].
  by destruct (He src dst).
Qed.

Lemma moves_checked_move self src dst (rest : list event) :
  promotion self src dst → stable_before src rest →
  moves_checked self rest → moves_checked self (EMove src dst :: rest).
Proof.
  intros Hp Hs Hrest [|e after] src' dst' rest' Heq.
  - by injection Heq as <- <- <-.
  - injection Heq as _ ->. by apply (Hrest after).
Qed.

Lemma checks_emits {A} self (m : M A) : emits no_move m → checks self m.
Proof.
  intros Hm w w' r Hrun.
  destruct (emits_run _ _ _ _ _ Hm Hrun) as (added & Ha & Hall).
  exists added. split; [done|]. by apply moves_checked_quiet.
Qed.

Lemma checks_bind {A B} self (m : M A) (k : A → M B) :
  checks self m → (∀ a, checks self (k a)) → checks self (m ≫= k).
Proof.
  intros Hm Hk w w' r [(w1 & a & H1 & H2)|(e & H1 & _)]%bind_inv.
  - destruct (Hm _ _ _ H1) as (a1 & Ha1 & Hc1).
    destruct (Hk a _ _ _ H2) as (a2 & Ha2 & Hc2).
    exists (a2 ++ a1). rewrite Ha2, Ha1, app_assoc. split; [done|].
    by apply moves_checked_app.
  - by apply (Hm _ _ _ H1).
Qed.

Lemma checks_for_each {X} self (l : list X) (body : X → M unit) :
  (∀ x, checks self (body x)) → checks self (for_each l body).
Proof.
  intros Hbody. induction l as [|x l IH]; cbn [for_each].
  - apply checks_emits, emits_ret.
  - apply checks_bind; [apply Hbody|]. by intros _.
Qed.

(** A stability check that passed read the same size twice. *)
Lemma wait_passed (self : TranscodeThread.t) (path : string) (wait_time : Z)
    (w w' : World) :
  TranscodeThread._wait_for_file_stable self path wait_time w = (w', Ok tt) →
  ∃ size, trace w' = size_check path wait_time size ++ trace w.
Proof.
  unfold TranscodeThread._wait_for_file_stable.
  rewrite bind_run. unfold getsize at 1. cbv zeta.
  destruct (file_size w path) as [size1|e]; [|done].
  rewrite bind_run, log_run, bind_run. unfold sleep at 1. cbv zeta.
  rewrite bind_run. unfold getsize at 1. cbv zeta.
  destruct (file_size _ path) as [size2|e]; [|done].
  rewrite bind_run, log_run.
  destruct (bool_decide (size1 ≠ size2)) eqn:Hcmp; [done|].
  apply bool_decide_eq_false in Hcmp.
  assert (size1 = size2) as -> by (destruct (decide (size1 = size2)); done).
  intros [= <-]. by exists size2.
Qed.

Lemma move_trace (src dst : string) (w w' : World) (r : result unit) :
  move src dst w = (w', r) → trace w' = EMove src dst :: trace w.
Proof.
  unfold move. cbv zeta.
  match goal with
  | |- match ?moved with _ => _ end = _ → _ => destruct moved
  end; by intros [= <- _].
Qed.

(** A file is moved out of the transcode directory only when the
    check that precedes the move passed. *)
Lemma checks_promotion (self : TranscodeThread.t) (disc_name file msg : string) :
  let src := ((TranscodeThread.wip_root self +:+ "/dvd_transcode")
              +:+ "/" +:+ disc_name) +:+ "/" +:+ file in
  let dst := (TranscodeThread.out_root self +:+ "/dvd") +:+ "/" +:+ disc_name in
  checks self
    (TranscodeThread._wait_for_file_stable self src 10;;
     move src dst;;
     log DEBUG msg).
Proof.
  intros src dst w w' r [(w1 & [] & Hwait & Hrun)|(e & Hwait & _)]%bind_inv.
  2: { revert Hwait. apply checks_emits.
       unfold TranscodeThread._wait_for_file_stable.
       emits_steps; by intros ? ?. }
  apply wait_passed in Hwait as [size Hw1].
  assert (moves_checked self (EMove src dst :: size_check src 10 size))
    as Hmoved.
  { apply moves_checked_move.
    - by exists disc_name, file.
    - exists size, []. by rewrite app_nil_r.
    - apply moves_checked_quiet. by repeat constructor. }
  apply bind_inv in Hrun as [(w2 & [] & Hmove & Hrun)|(e & Hmove & _)].
  - apply move_trace in Hmove. rewrite log_run in Hrun. injection Hrun as <- _.
    exists (ELog DEBUG msg :: EMove src dst :: size_check src 10 size).
    cbn [trace emit]. rewrite Hmove, Hw1. split; [done|].
    apply (moves_checked_app self [ELog DEBUG msg]); [|done].
    apply moves_checked_quiet. by repeat constructor.
  - apply move_trace in Hmove.
    exists (EMove src dst :: size_check src 10 size).
    by rewrite Hmove, Hw1.
Qed.

Ltac checks_quiet :=
  apply checks_emits;
  unfold TranscodeThread.transcode_file, TranscodeThread._wait_for_file_stable;
  emits_steps; by intros ? ?.

(** In an iteration of the transcode loop nothing is moved but
    transcoded files, each from [wip/dvd_transcode/<disc>] into
    [out/dvd/<disc>], and each move comes right after a stability
    check of that file which read the same size before and after the
    ten seconds: a file whose size changed, or which could not be
    read, is not moved. *)
Theorem promotion_follows_stability_check (self : TranscodeThread.t)
    (w w' : World) (r : result unit) (added after rest : list event)
    (src dst : string) :
  TranscodeThread.loop_step self w = (w', r) →
  trace w' = added ++ trace w →
  added = after ++ EMove src dst :: rest →
  promotion self src dst ∧ stable_before src rest.
Proof.
  intros Hrun Htrace Hsplit.
  assert (checks self (TranscodeThread.loop_step self)) as Hchecks.
  { unfold TranscodeThread.loop_step, TranscodeThread.transcode_disc.
    cbv zeta.
    apply checks_bind; [checks_quiet|]. intros _.
    apply checks_bind; [checks_quiet|]. intros disc_names.
    apply checks_for_each. intros disc_name.
    apply checks_bind; [checks_quiet|]. intros _.
    apply checks_bind; [checks_quiet|]. intros wip_files.
    apply checks_bind; [checks_quiet|]. intros _.
    apply checks_bind; [checks_quiet|]. intros _.
    apply checks_bind; [checks_quiet|]. intros _.
    apply checks_bind; [checks_quiet|]. intros wip_transcode_files.
    apply checks_bind; [checks_quiet|]. intros _.
    apply checks_bind; [checks_quiet|]. intros _.
    apply checks_bind; [|intros _; checks_quiet].
    apply checks_for_each. intros file. apply checks_promotion. }
  destruct (Hchecks _ _ _ Hrun) as (added' & Htrace' & Hmoves).
  assert (added' = added) as ->.
  { eapply app_inv_tail. by rewrite <- Htrace, <- Htrace'. }
  by apply (Hmoves after).
Qed.

Lemma promotion_follows_stability_check_witness :
  let run := TranscodeThread.loop_step Staged.thread
               (Sample.world (Sample.environment Sample.NoDisc true)
                  Staged.two_discs) in
  ∃ after rest,
    trace run.1
    = after ++ EMove "./wip/dvd_transcode/A/t00.mp4" "./out/dvd/A" :: rest
    ∧ stable_before "./wip/dvd_transcode/A/t00.mp4" rest.
Proof.
  intros run.
  exists (take 31 (trace run.1)), (drop 32 (trace run.1)).
  assert (trace run.1
          = take 31 (trace run.1)
            ++ EMove "./wip/dvd_transcode/A/t00.mp4" "./out/dvd/A"
               :: drop 32 (trace run.1)) as Hsplit.
  { symmetry. apply take_drop_middle. by vm_compute. }
  split; [exact Hsplit|].
  exact (proj2 (promotion_follows_stability_check Staged.thread _ run.1 run.2
                  (trace run.1) _ _ _ _ (run_surj _ _)
                  (eq_sym (app_nil_r _)) Hsplit)).
Defined.

(** ** The polling loop *)

(** [LoopThread.run] has no handler: when it raises, the exception is
    the one of a [loop_step] that was begun with the stop event not
    set, and the loop ended in the state that step left, without the
    sleep that follows a step and without another step. *)
Theorem loop_ends_at_failing_step (fuel : nat) (loop_step : M unit)
    (interval : Z) (w w' : World) (e : exn) :
  LoopThread.run fuel loop_step interval w = (w', Raise e) →
  ∃ w1, env_stopped (env w1) (clock w1) = false
        ∧ loop_step w1 = (w', Raise e).
Proof.
  revert w. induction fuel as [|fuel IH]; intros w; cbn [LoopThread.run];
    [done|].
  rewrite bind_run. unfold LoopThread.stopped, is_set at 1.
  destruct (env_stopped (env w) (clock w)) eqn:Hstop; [done|].
  intros [(w1 & [] & Hstep & Hrun)|(e' & Hstep & [= <-])]%bind_inv.
  - rewrite bind_run in Hrun. unfold sleep at 1 in Hrun. cbv zeta in Hrun.
    by apply IH in Hrun.
  - by exists w.
Qed.

Lemma loop_ends_at_failing_step_witness :
  let w := Sample.world (Sample.environment Sample.Data false) (Dir []) in
  let run := LoopThread.run 3 (RipThread.loop_step Sample.rip_thread) 5 w in
  run.2 = Raise (ExceptionExit 1)
  ∧ ∃ w1, RipThread.loop_step Sample.rip_thread w1
          = (run.1, Raise (ExceptionExit 1)).
Proof.
  intros w run.
  assert (run.2 = Raise (ExceptionExit 1)) as Hr by (by vm_compute).
  split; [exact Hr|].
  pose proof (run_surj (LoopThread.run 3
                          (RipThread.loop_step Sample.rip_thread) 5) w) as Hrun.
  fold run in Hrun. rewrite Hr in Hrun.
  destruct (loop_ends_at_failing_step 3 (RipThread.loop_step Sample.rip_thread)
              5 w run.1 (ExceptionExit 1) Hrun) as (w1 & _ & Hstep).
  by exists w1.
Defined.
